(** * A windowed memory-mapped file buffer and its byte scanners

    Shallow embedding of [src/fileop.c], lines 1051-1444: the [fbuf_t]
    structure, the window manager [fbuf_mmap], the accessors [fbuf_at],
    [fbuf_ptr], [fbuf_read] and the scanning primitives built on them.

    C integers are modelled by [Z] with the wrap-around of their width
    written out ([int32] for [int], [int64] for [int64] and, as on an
    LP64 system, for [long]); the mapped window is a pointer value
    that remembers which file range it shows; the kernel is a log of
    system calls together with an oracle that decides whether a mapping
    request succeeds.  Functions of the C file that mutate the structure
    are computations in a state monad over [machine]; a computation has
    no result when the C program would read through an invalid pointer. *)

From Stdlib Require Import ZArith List Lia Bool.
From Stdlib Require Import Strings.Byte.
Import ListNotations.
Local Open Scope Z_scope.

(** ** Machine integers *)

Definition wrap (w z : Z) : Z := (z + 2 ^ (w - 1)) mod 2 ^ w - 2 ^ (w - 1).
Definition int32 : Z -> Z := wrap 32.
Definition int64 : Z -> Z := wrap 64.

Definition INT_MAX : Z := 2 ^ 31 - 1.
Definition INT64_MAX : Z := 2 ^ 63 - 1.

(** ** Characters the scanners treat specially *)

Definition ch_dquote : Z := 34.     (* the double quote *)
Definition ch_squote : Z := 39.     (* the single quote *)
Definition ch_backslash : Z := 92.  (* the backslash *)

(** [uint8] to [int] conversion, as in [return fbf->pbyte[...]]. *)
Definition byte_val (b : byte) : Z := Z.of_N (Byte.to_N b).

(** ** Pointers and the kernel *)

(** A pointer into mapped memory is either [NULL], the error value
    [MAP_FAILED] of mmap(2), or the address [disp] bytes into a mapping
    that shows the [len] bytes of the file starting at offset [off]. *)
Inductive ptr : Type :=
  | NULL
  | MAP_FAILED
  | Mapping (off len disp : Z).

Definition is_null (p : ptr) : bool :=
  match p with NULL => true | _ => false end.

Definition is_map_failed (p : ptr) : bool :=
  match p with MAP_FAILED => true | _ => false end.

Inductive syscall : Type :=
  | Munmap (p : ptr) (len : Z)
  | Mmap (hint : ptr) (len off : Z) (res : ptr).

Definition is_mmap_call (c : syscall) : bool :=
  match c with Mmap _ _ _ _ => true | Munmap _ _ => false end.

(** Number of mapping requests issued so far. *)
Definition mmap_calls (l : list syscall) : nat :=
  length (filter is_mmap_call l).

(** ** The buffer structure (lines 1051-1065; [fname] carries no behaviour) *)

Record fbuf_t : Type := mk_fbuf {
  fd : Z;
  fsize : Z;
  pagecount : Z;
  pagesize : Z;
  mapsize : Z;
  mapoff : Z;
  maplen : Z;
  pbyte : ptr
}.

Definition set_mapoff (v : Z) (b : fbuf_t) : fbuf_t :=
  mk_fbuf (fd b) (fsize b) (pagecount b) (pagesize b) (mapsize b) v (maplen b) (pbyte b).
Definition set_maplen (v : Z) (b : fbuf_t) : fbuf_t :=
  mk_fbuf (fd b) (fsize b) (pagecount b) (pagesize b) (mapsize b) (mapoff b) v (pbyte b).
Definition set_pbyte (p : ptr) (b : fbuf_t) : fbuf_t :=
  mk_fbuf (fd b) (fsize b) (pagecount b) (pagesize b) (mapsize b) (mapoff b) (maplen b) p.

(** The [void *vfb] argument: null, or the address of the one buffer. *)
Inductive handle : Type := H_NULL | H_FBUF.

(** The state the C functions run in: the structure behind the handle
    and what the kernel has been asked so far (most recent call first). *)
Record machine : Type := mk_machine {
  buf : fbuf_t;
  klog : list syscall
}.

(** ** The monad *)

Definition M (A : Type) : Type := machine -> option (A * machine).

Definition ret {A} (a : A) : M A := fun s => Some (a, s).
Definition bind {A B} (m : M A) (k : A -> M B) : M B :=
  fun s => match m s with
           | Some (a, s') => k a s'
           | None => None
           end.
Definition fault {A} : M A := fun _ => None.
Definition get_buf : M fbuf_t := fun s => Some (buf s, s).
Definition modify_buf (f : fbuf_t -> fbuf_t) : M unit :=
  fun s => Some (tt, mk_machine (f (buf s)) (klog s)).

Notation "x <- m ;; k" := (bind m (fun x => k))
  (at level 61, m at next level, right associativity).
Notation "m ;;; k" := (bind m (fun _ => k))
  (at level 61, right associativity).

(** Value and final state of a computation. *)
Definition value_of {A} (r : option (A * machine)) : option A :=
  option_map fst r.
Definition state_of {A} (r : option (A * machine)) : option machine :=
  option_map snd r.

Section Environment.

(** The bytes of the file behind the descriptor. *)
Variable file : list byte.

(** Does the kernel grant a mapping of [len] bytes at [off], given
    what happened before? *)
Variable mmap_ok : list syscall -> Z -> Z -> bool.

(** What [sysconf(_SC_PAGE_SIZE)] answers. *)
Variable sys_pagesize : Z.

Definition sys_munmap (p : ptr) (len : Z) : M unit :=
  fun s => Some (tt, mk_machine (buf s) (Munmap p len :: klog s)).

Definition sys_mmap (hint : ptr) (len off : Z) : M ptr :=
  fun s =>
    let res := if mmap_ok (klog s) len off then Mapping off len 0 else MAP_FAILED in
    Some (res, mk_machine (buf s) (Mmap hint len off res :: klog s)).

(** [p[k]] for a [uint8 *p]: defined inside a live mapping only. *)
Definition deref (p : ptr) (k : Z) : M Z :=
  match p with
  | Mapping off len disp =>
      let i := disp + k in
      if (0 <=? i) && (i <? len) && (0 <=? off) then
        match nth_error file (Z.to_nat (off + i)) with
        | Some b => ret (byte_val b)
        | None => fault
        end
      else fault
  | _ => fault
  end.

(** [p + k]. *)
Definition ptr_add (p : ptr) (k : Z) : ptr :=
  match p with
  | Mapping off len disp => Mapping off len (disp + k)
  | other => other
  end.

(** The bytes [memcpy] reads from [p], [n] of them. *)
Fixpoint read_bytes (p : ptr) (k : Z) (n : nat) : M (list Z) :=
  match n with
  | O => ret []
  | S n' =>
      b <- deref p k ;;
      bs <- read_bytes p (k + 1) n' ;;
      ret (b :: bs)
  end.

(** *** fbuf_init (lines 1068-1103)

    [open_fd] is what open(2) returned and [alloc_ok] whether kzalloc
    gave memory; the file size is what fstat reports for [file]. *)
Definition fbuf_init (open_fd : Z) (alloc_ok : bool) (pagecount0 : Z) : option fbuf_t :=
  if open_fd <? 0 then None
  else if negb alloc_ok then None
  else
    let pagecount1 := if pagecount0 <? 8 then 8 else pagecount0 in
    let ps0 := int32 sys_pagesize in
    let ps := if ps0 <? 512 then 4096 else ps0 in
    Some (mk_fbuf open_fd (int64 (Z.of_nat (length file)))
                  pagecount1 ps (int32 (ps * pagecount1)) 0 0 NULL).

(** *** fbuf_size (lines 1139-1146) *)
Definition fbuf_size (vfb : handle) : M Z :=
  match vfb with
  | H_NULL => ret 0
  | H_FBUF => fbf <- get_buf ;; ret (fsize fbf)
  end.

(** *** fbuf_mmap (lines 1148-1182), the UNIX build *)
Definition fbuf_mmap (vfb : handle) (pos : Z) : M Z :=
  match vfb with
  | H_NULL => ret (-1)
  | H_FBUF =>
      fbf <- get_buf ;;
      if (pos <? 0) || (pos >=? fsize fbf) then ret (-2)
      else if (pos <? mapoff fbf) || (pos >=? int64 (mapoff fbf + maplen fbf)) then
        (if is_null (pbyte fbf) then ret tt
         else sys_munmap (pbyte fbf) (maplen fbf)) ;;;
        (if pagesize fbf =? 0 then fault else ret tt) ;;;
        let off := int64 (int64 (Z.quot pos (pagesize fbf)) * pagesize fbf) in
        modify_buf (set_mapoff off) ;;;
        let len0 := int64 (fsize fbf - off) in
        let len := if len0 >? mapsize fbf then mapsize fbf else len0 in
        modify_buf (set_maplen len) ;;;
        p <- sys_mmap (pbyte fbf) len off ;;
        modify_buf (set_pbyte p) ;;;
        if is_map_failed p then ret (-3) else ret 0
      else ret 0
  end.

(** *** fbuf_at (lines 1185-1195) *)
Definition fbuf_at (vfb : handle) (pos : Z) : M Z :=
  match vfb with
  | H_NULL => ret (-1)
  | H_FBUF =>
      r <- fbuf_mmap H_FBUF pos ;;
      if r <? 0 then ret (-2)
      else
        fbf <- get_buf ;;
        deref (pbyte fbf) (int64 (pos - mapoff fbf))
  end.

(** *** fbuf_ptr (lines 1197-1210)

    [want_buf] and [want_len] say whether [ppbuf] and [plen] are
    non-null; the result is the returned pointer with what was stored
    through each of them. *)
Definition fbuf_ptr (vfb : handle) (pos : Z) (want_buf want_len : bool)
  : M (ptr * option ptr * option Z) :=
  match vfb with
  | H_NULL => ret (NULL, None, None)
  | H_FBUF =>
      r <- fbuf_mmap H_FBUF pos ;;
      if r <? 0 then ret (NULL, None, None)
      else
        fbf <- get_buf ;;
        let p := ptr_add (pbyte fbf) (int64 (pos - mapoff fbf)) in
        let n := int32 (int64 (maplen fbf - int64 (pos - mapoff fbf))) in
        ret (p,
             if want_buf then Some p else None,
             if want_len then Some n else None)
  end.

(** *** fbuf_read (lines 1212-1231)

    [pbuf_ok] says whether the destination is non-null; the result is
    the returned count with the bytes copied to the destination. *)
Definition fbuf_read (vfb : handle) (pos : Z) (pbuf_ok : bool) (len : Z)
  : M (Z * list Z) :=
  match vfb with
  | H_NULL => ret (-1, [])
  | H_FBUF =>
      if negb pbuf_ok || (len <=? 0) then ret (-1, [])
      else
        r <- fbuf_mmap H_FBUF pos ;;
        if r <? 0 then ret (-2, [])
        else
          fbf <- get_buf ;;
          let alen := int32 (int64 (maplen fbf - int64 (pos - mapoff fbf))) in
          let len' := if len >? alen then alen else len in
          (if len' <? 0 then fault else ret tt) ;;;
          bs <- read_bytes (pbyte fbf) (int64 (pos - mapoff fbf)) (Z.to_nat len') ;;
          ret (len', bs)
  end.

(** *** The delimiter set

    [vpat] is null or an array of bytes, [patlen] the length the
    caller announces.  [in_pat] is the inner loop
    [for (j = 0; j < patlen; j++) if (pat[j] == fch) ...]; it has no
    result when it would read past the end of the array. *)
Fixpoint pat_has (pat : list byte) (n : nat) (fch : Z) : option bool :=
  match n with
  | O => Some false
  | S n' =>
      match pat with
      | [] => None
      | c :: pat' =>
          if byte_val c =? fch then Some true else pat_has pat' n' fch
      end
  end.

Definition in_pat (pat : list byte) (patlen : Z) (fch : Z) : M bool :=
  match pat_has pat (Z.to_nat patlen) fch with
  | Some b => ret b
  | None => fault
  end.

(** The bound every forward scanner computes first:
    [fsize = fbf->fsize - pos; if (skiplimit >= 0 && skiplimit < fsize) fsize = skiplimit;] *)
Definition scan_span (fbf : fbuf_t) (pos skiplimit : Z) : Z :=
  let fsize0 := int64 (fsize fbf - pos) in
  if (skiplimit >=? 0) && (skiplimit <? fsize0) then skiplimit else fsize0.

(** *** fbuf_skip_to (lines 1234-1258) *)
Fixpoint skip_to_loop (fuel : nat) (pos span : Z) (pat : list byte) (patlen : Z)
         (i : Z) : M Z :=
  if i <? span then
    match fuel with
    | O => fault
    | S fuel' =>
        fch <- fbuf_at H_FBUF (int64 (pos + i)) ;;
        if fch <? 0 then ret (int64 (pos + i))
        else
          hit <- in_pat pat patlen fch ;;
          if hit then ret (int64 (pos + i))
          else skip_to_loop fuel' pos span pat patlen (int64 (i + 1))
    end
  else ret (int64 (pos + i)).

Definition fbuf_skip_to (vfb : handle) (pos skiplimit : Z)
           (vpat : option (list byte)) (patlen : Z) : M Z :=
  match vfb, vpat with
  | H_NULL, _ => ret (-1)
  | H_FBUF, None => ret pos
  | H_FBUF, Some pat =>
      if patlen <=? 0 then ret pos
      else
        fbf <- get_buf ;;
        let span := scan_span fbf pos skiplimit in
        skip_to_loop (Z.to_nat span) pos span pat patlen 0
  end.

(** *** fbuf_rskip_to (lines 1260-1286) *)
Fixpoint rskip_to_loop (fuel : nat) (pos skiplimit : Z) (pat : list byte)
         (patlen : Z) (i : Z) : M Z :=
  if i <=? pos then
    if (skiplimit >=? 0) && (i >=? skiplimit) then ret (int64 (pos - i))
    else
      match fuel with
      | O => fault
      | S fuel' =>
          fch <- fbuf_at H_FBUF (int64 (pos - i)) ;;
          if fch <? 0 then ret (int64 (pos - i))
          else
            hit <- in_pat pat patlen fch ;;
            if hit then ret (int64 (pos - i))
            else rskip_to_loop fuel' pos skiplimit pat patlen (int64 (i + 1))
      end
  else ret (int64 (pos - i)).

Definition fbuf_rskip_to (vfb : handle) (pos skiplimit : Z)
           (vpat : option (list byte)) (patlen : Z) : M Z :=
  match vfb, vpat with
  | H_NULL, _ => ret (-1)
  | H_FBUF, None => ret pos
  | H_FBUF, Some pat =>
      if patlen <=? 0 then ret pos
      else if pos <? 0 then ret 0
      else
        fbf <- get_buf ;;
        let pos' := if pos >=? fsize fbf then int64 (fsize fbf - 1) else pos in
        rskip_to_loop (Z.to_nat (pos' + 1)) pos' skiplimit pat patlen 0
  end.

(** *** fbuf_skip_over (lines 1288-1315) *)
Fixpoint skip_over_loop (fuel : nat) (pos span : Z) (pat : list byte) (patlen : Z)
         (i : Z) : M Z :=
  if i <? span then
    match fuel with
    | O => fault
    | S fuel' =>
        fch <- fbuf_at H_FBUF (int64 (pos + i)) ;;
        if fch <? 0 then ret (int64 (pos + i))
        else
          hit <- in_pat pat patlen fch ;;
          if negb hit then ret (int64 (pos + i))
          else skip_over_loop fuel' pos span pat patlen (int64 (i + 1))
    end
  else ret (int64 (pos + i)).

Definition fbuf_skip_over (vfb : handle) (pos skiplimit : Z)
           (vpat : option (list byte)) (patlen : Z) : M Z :=
  match vfb, vpat with
  | H_NULL, _ => ret (-1)
  | H_FBUF, None => ret pos
  | H_FBUF, Some pat =>
      if patlen <=? 0 then ret pos
      else
        fbf <- get_buf ;;
        let span := scan_span fbf pos skiplimit in
        skip_over_loop (Z.to_nat span) pos span pat patlen 0
  end.

(** *** fbuf_rskip_over (lines 1317-1345) *)
Fixpoint rskip_over_loop (fuel : nat) (pos skiplimit : Z) (pat : list byte)
         (patlen : Z) (i : Z) : M Z :=
  if i <=? pos then
    if (skiplimit >=? 0) && (i >=? skiplimit) then ret (int64 (pos - i))
    else
      match fuel with
      | O => fault
      | S fuel' =>
          fch <- fbuf_at H_FBUF (int64 (pos - i)) ;;
          if fch <? 0 then ret (int64 (pos - i))
          else
            hit <- in_pat pat patlen fch ;;
            if negb hit then ret (int64 (pos - i))
            else rskip_over_loop fuel' pos skiplimit pat patlen (int64 (i + 1))
      end
  else ret (int64 (pos - i)).

Definition fbuf_rskip_over (vfb : handle) (pos skiplimit : Z)
           (vpat : option (list byte)) (patlen : Z) : M Z :=
  match vfb, vpat with
  | H_NULL, _ => ret (-1)
  | H_FBUF, None => ret pos
  | H_FBUF, Some pat =>
      if patlen <=? 0 then ret pos
      else if pos <=? 0 then ret pos
      else
        fbf <- get_buf ;;
        let pos' := if pos >=? fsize fbf then int64 (fsize fbf - 1) else pos in
        rskip_over_loop (Z.to_nat (pos' + 1)) pos' skiplimit pat patlen 0
  end.

(** *** fbuf_quotedstrlen (lines 1347-1372) *)
Definition is_quote (c : Z) : bool := (c =? ch_dquote) || (c =? ch_squote).

Fixpoint quoted_loop (fuel : nat) (pos skiplimit fsz quote : Z) (i : Z) : M Z :=
  if (i <? skiplimit) && (i <? int64 (fsz - pos)) then
    match fuel with
    | O => fault
    | S fuel' =>
        fch <- fbuf_at H_FBUF (int64 (pos + i)) ;;
        if fch <? 0 then ret i
        else if fch =? ch_backslash then
          quoted_loop fuel' pos skiplimit fsz quote (int64 (int64 (i + 1) + 1))
        else if fch =? quote then ret (int64 (i + 1))
        else quoted_loop fuel' pos skiplimit fsz quote (int64 (i + 1))
    end
  else ret 1.

Definition fbuf_quotedstrlen (vfb : handle) (pos skiplimit : Z) : M Z :=
  match vfb with
  | H_NULL => ret 0
  | H_FBUF =>
      fbf <- get_buf ;;
      if pos >=? fsize fbf then ret 0
      else
        quote <- fbuf_at H_FBUF pos ;;
        if negb (is_quote quote) then ret 0
        else quoted_loop (Z.to_nat skiplimit) pos skiplimit (fsize fbf) quote 1
  end.

(** *** fbuf_skip_quote_to (lines 1374-1412)

    The third argument of [fbuf_quotedstrlen] is an [int]: the [long]
    value [fsize - i] is converted on the call. *)
Fixpoint skip_quote_to_loop (fuel : nat) (pos span : Z) (pat : list byte)
         (patlen : Z) (i : Z) : M Z :=
  if i <? span then
    match fuel with
    | O => fault
    | S fuel' =>
        fch <- fbuf_at H_FBUF (int64 (pos + i)) ;;
        if fch <? 0 then ret (int64 (pos + i))
        else if (fch =? ch_backslash) && (int64 (i + 1) <? span) then
          skip_quote_to_loop fuel' pos span pat patlen (int64 (i + 2))
        else
          hit <- in_pat pat patlen fch ;;
          if hit then ret (int64 (pos + i))
          else if is_quote fch then
            qlen <- fbuf_quotedstrlen H_FBUF (int64 (pos + i)) (int32 (int64 (span - i))) ;;
            skip_quote_to_loop fuel' pos span pat patlen (int64 (i + qlen))
          else skip_quote_to_loop fuel' pos span pat patlen (int64 (i + 1))
    end
  else ret (int64 (pos + i)).

Definition fbuf_skip_quote_to (vfb : handle) (pos skiplimit : Z)
           (vpat : option (list byte)) (patlen : Z) : M Z :=
  match vfb, vpat with
  | H_NULL, _ => ret (-1)
  | H_FBUF, None => ret pos
  | H_FBUF, Some pat =>
      if patlen <=? 0 then ret pos
      else
        fbf <- get_buf ;;
        let span := scan_span fbf pos skiplimit in
        skip_quote_to_loop (Z.to_nat span) pos span pat patlen 0
  end.

(** *** fbuf_skip_esc_to (lines 1414-1444) *)
Fixpoint skip_esc_to_loop (fuel : nat) (pos span : Z) (pat : list byte)
         (patlen : Z) (i : Z) : M Z :=
  if i <? span then
    match fuel with
    | O => fault
    | S fuel' =>
        fch <- fbuf_at H_FBUF (int64 (pos + i)) ;;
        if fch <? 0 then ret (int64 (pos + i))
        else if fch =? ch_backslash then
          skip_esc_to_loop fuel' pos span pat patlen (int64 (int64 (i + 1) + 1))
        else
          hit <- in_pat pat patlen fch ;;
          if hit then ret (int64 (pos + i))
          else skip_esc_to_loop fuel' pos span pat patlen (int64 (i + 1))
    end
  else ret (int64 (pos + i)).

Definition fbuf_skip_esc_to (vfb : handle) (pos skiplimit : Z)
           (vpat : option (list byte)) (patlen : Z) : M Z :=
  match vfb, vpat with
  | H_NULL, _ => ret (-1)
  | H_FBUF, None => ret pos
  | H_FBUF, Some pat =>
      if patlen <=? 0 then ret pos
      else
        fbf <- get_buf ;;
        let span := scan_span fbf pos skiplimit in
        skip_esc_to_loop (Z.to_nat span) pos span pat patlen 0
  end.

End Environment.

(** * Specification-level definitions *)

(** ** What one call of [fbuf_mmap] does, in closed form *)

Definition in_file (b : fbuf_t) (pos : Z) : bool :=
  negb ((pos <? 0) || (pos >=? fsize b)).

Definition in_window (b : fbuf_t) (pos : Z) : bool :=
  negb ((pos <? mapoff b) || (pos >=? int64 (mapoff b + maplen b))).

Definition new_offset (b : fbuf_t) (pos : Z) : Z :=
  int64 (int64 (Z.quot pos (pagesize b)) * pagesize b).

Definition new_length (b : fbuf_t) (pos : Z) : Z :=
  let len0 := int64 (fsize b - new_offset b pos) in
  if len0 >? mapsize b then mapsize b else len0.

Section Remap.

Variable mmap_ok : list syscall -> Z -> Z -> bool.

(** The kernel log after the unmap that precedes a remap. *)
Definition unmapped_log (s : machine) : list syscall :=
  if is_null (pbyte (buf s)) then klog s
  else Munmap (pbyte (buf s)) (maplen (buf s)) :: klog s.

Definition mmap_result (s : machine) (pos : Z) : ptr :=
  if mmap_ok (unmapped_log s) (new_length (buf s) pos) (new_offset (buf s) pos)
  then Mapping (new_offset (buf s) pos) (new_length (buf s) pos) 0
  else MAP_FAILED.

(** Does the kernel grant the request a remap for [pos] makes? *)
Definition granted (s : machine) (pos : Z) : bool :=
  mmap_ok (unmapped_log s) (new_length (buf s) pos) (new_offset (buf s) pos).

Definition remapped (s : machine) (pos : Z) : machine :=
  let b := buf s in
  mk_machine
    (mk_fbuf (fd b) (fsize b) (pagecount b) (pagesize b) (mapsize b)
             (new_offset b pos) (new_length b pos) (mmap_result s pos))
    (Mmap (pbyte b) (new_length b pos) (new_offset b pos) (mmap_result s pos)
       :: unmapped_log s).

End Remap.

(** ** Accesses and reachable states *)

(** One call of an accessor or scanner on the open buffer. *)
Inductive access : Type :=
  | Acc_mmap (pos : Z)
  | Acc_at (pos : Z)
  | Acc_ptr (pos : Z) (want_buf want_len : bool)
  | Acc_read (pos : Z) (pbuf_ok : bool) (len : Z)
  | Acc_skip_to (pos skiplimit : Z) (vpat : option (list byte)) (patlen : Z)
  | Acc_rskip_to (pos skiplimit : Z) (vpat : option (list byte)) (patlen : Z)
  | Acc_skip_over (pos skiplimit : Z) (vpat : option (list byte)) (patlen : Z)
  | Acc_rskip_over (pos skiplimit : Z) (vpat : option (list byte)) (patlen : Z)
  | Acc_skip_quote_to (pos skiplimit : Z) (vpat : option (list byte)) (patlen : Z)
  | Acc_skip_esc_to (pos skiplimit : Z) (vpat : option (list byte)) (patlen : Z).

Section Reachability.

Variable file : list byte.
Variable mmap_ok : list syscall -> Z -> Z -> bool.
Variable sys_pagesize : Z.

Definition perform (a : access) : M unit :=
  match a with
  | Acc_mmap pos => fbuf_mmap mmap_ok H_FBUF pos ;;; ret tt
  | Acc_at pos => fbuf_at file mmap_ok H_FBUF pos ;;; ret tt
  | Acc_ptr pos wb wl => fbuf_ptr mmap_ok H_FBUF pos wb wl ;;; ret tt
  | Acc_read pos ok len => fbuf_read file mmap_ok H_FBUF pos ok len ;;; ret tt
  | Acc_skip_to pos l p n => fbuf_skip_to file mmap_ok H_FBUF pos l p n ;;; ret tt
  | Acc_rskip_to pos l p n => fbuf_rskip_to file mmap_ok H_FBUF pos l p n ;;; ret tt
  | Acc_skip_over pos l p n => fbuf_skip_over file mmap_ok H_FBUF pos l p n ;;; ret tt
  | Acc_rskip_over pos l p n => fbuf_rskip_over file mmap_ok H_FBUF pos l p n ;;; ret tt
  | Acc_skip_quote_to pos l p n =>
      fbuf_skip_quote_to file mmap_ok H_FBUF pos l p n ;;; ret tt
  | Acc_skip_esc_to pos l p n =>
      fbuf_skip_esc_to file mmap_ok H_FBUF pos l p n ;;; ret tt
  end.

(** The states a program can be in after opening [file] and calling
    the accessors and scanners any number of times. *)
Inductive reachable : machine -> Prop :=
  | reach_open (open_fd pagecount0 : Z) (b : fbuf_t) :
      fbuf_init file sys_pagesize open_fd true pagecount0 = Some b ->
      reachable (mk_machine b [])
  | reach_access (s s' : machine) (a : access) :
      reachable s ->
      state_of (perform a s) = Some s' ->
      reachable s'.

(** What holds of the fields in every reachable state. *)
Definition fields_ok (b : fbuf_t) : Prop :=
  fsize b = Z.of_nat (length file) /\
  512 <= pagesize b <= INT_MAX /\
  mapsize b = int32 (pagesize b * pagecount b) /\
  0 <= mapoff b /\
  mapoff b mod pagesize b = 0 /\
  - 2 ^ 31 <= maplen b <= INT_MAX /\
  mapoff b + maplen b <= fsize b /\
  8 <= pagecount b.

(** The window is closed, or [pbyte] is the mapping the fields describe. *)
Definition window_live (b : fbuf_t) : Prop :=
  (pbyte b = NULL /\ mapoff b = 0 /\ maplen b = 0) \/
  (pbyte b = Mapping (mapoff b) (maplen b) 0 /\ 0 <= maplen b).

(** The state of a buffer whose window capacity did not overflow and
    whose mapping requests were all granted. *)
Definition live (s : machine) : Prop :=
  fields_ok (buf s) /\ pagesize (buf s) <= mapsize (buf s) /\ window_live (buf s).

(** The bytes of the file at positions [a], [a+1], ..., [a+n-1]. *)
Definition file_bytes (a n : Z) : list byte :=
  firstn (Z.to_nat n) (skipn (Z.to_nat a) file).

End Reachability.

(** A computation keeps a property of the state whenever it returns. *)
Definition preserves {A} (P : machine -> Prop) (m : M A) : Prop :=
  forall s a s', P s -> m s = Some (a, s') -> P s'.

(** ** Delimiter sets and scans over a list of bytes *)



(** The bound of a forward scan in the words of the specification:
    [min scan_limit (file_size - start_pos)], a negative limit meaning
    no limit. *)
Definition scan_bound (file_size start_pos scan_limit : Z) : Z :=
  if scan_limit <? 0 then file_size - start_pos
  else Z.min scan_limit (file_size - start_pos).









(** ** Sample files and kernels *)

Definition grant_all : list syscall -> Z -> Z -> bool := fun _ _ _ => true.
Definition grant_none : list syscall -> Z -> Z -> bool := fun _ _ _ => false.

(** The state right after [fbuf_init] on a system with 4096-byte pages. *)
Definition opened (file : list byte) (pagecount0 : Z) : option machine :=
  option_map (fun b => mk_machine b []) (fbuf_init file 4096 3 true pagecount0).

(** The same state written out: descriptor 3, eight pages of 4096
    bytes, no window. *)
Definition fresh (file : list byte) : machine :=
  mk_machine (mk_fbuf 3 (Z.of_nat (length file)) 8 4096 32768 0 0 NULL) [].

(** The state of the five-byte sample after its first byte was read:
    one window over the whole file. *)
Definition windowed_abcd : machine :=
  mk_machine (mk_fbuf 3 5 8 4096 32768 0 5 (Mapping 0 5 0))
             [Mmap NULL 5 0 (Mapping 0 5 0)].

Definition comma : list byte := [x2c].

(** The five bytes [a b , c d]. *)
Definition file_abcd : list byte := [x61; x62; x2c; x63; x64].

(** The six bytes [a \ , b , c]. *)
Definition file_escaped : list byte := [x61; x5c; x2c; x62; x2c; x63].



(** * Further code of [fileop.c] *)

(** ** fbuf_fd and fbuf_free (lines 1105-1137) *)

Definition set_fd (v : Z) (b : fbuf_t) : fbuf_t :=
  mk_fbuf v (fsize b) (pagecount b) (pagesize b) (mapsize b) (mapoff b) (maplen b) (pbyte b).

(** *** fbuf_fd (lines 1130-1137) *)
Definition fbuf_fd (vfb : handle) : M Z :=
  match vfb with
  | H_NULL => ret (-1)
  | H_FBUF => fbf <- get_buf ;; ret (fd fbf)
  end.

(** *** fbuf_free (lines 1105-1128), the UNIX build

    The result is the descriptor handed to close(2), if any; the state
    is the one at the moment the structure itself is given back to the
    allocator. *)
Definition fbuf_free (vfb : handle) : M (option Z) :=
  match vfb with
  | H_NULL => ret None
  | H_FBUF =>
      fbf <- get_buf ;;
      (if is_null (pbyte fbf) then ret tt
       else sys_munmap (pbyte fbf) (maplen fbf)) ;;;
      if fd fbf >=? 0 then
        modify_buf (set_fd (-1)) ;;; ret (Some (fd fbf))
      else ret None
  end.

(** ** The mappings the kernel holds *)

Definition mapping_length (p : ptr) : option Z :=
  match p with
  | Mapping _ len _ => Some len
  | _ => None
  end.

Definition same_ptr (p q : ptr) : bool :=
  match p, q with
  | NULL, NULL => true
  | MAP_FAILED, MAP_FAILED => true
  | Mapping o l d, Mapping o' l' d' => (o =? o') && (l =? l') && (d =? d')
  | _, _ => false
  end.

(** munmap(2) of [len] bytes at [p] removes the mapping that starts at
    [p] and is [len] bytes long; any other call removes nothing. *)
Fixpoint release (p : ptr) (len : Z) (maps : list ptr) : list ptr :=
  match maps with
  | [] => []
  | q :: rest =>
      if same_ptr p q && match mapping_length q with
                         | Some l => l =? len
                         | None => false
                         end
      then rest
      else q :: release p len rest
  end.

(** The mappings alive after the calls of a log (most recent first). *)
Fixpoint live_maps (l : list syscall) : list ptr :=
  match l with
  | [] => []
  | Munmap p len :: older => release p len (live_maps older)
  | Mmap _ _ _ res :: older =>
      match res with
      | Mapping _ _ _ => res :: live_maps older
      | _ => live_maps older
      end
  end.

(** The one mapping a buffer may hold: the one [pbyte] points to. *)
Definition held_mapping (b : fbuf_t) : list ptr :=
  match pbyte b with
  | Mapping _ _ _ => [pbyte b]
  | _ => []
  end.

(** The kernel holds the mapping [pbyte] points to and no other, and
    [maplen] is its length. *)
Definition holds_one (s : machine) : Prop :=
  live_maps (klog s) = held_mapping (buf s) /\
  match pbyte (buf s) with Mapping _ l _ => l = maplen (buf s) | _ => True end.

(** ** More scans over a list of bytes *)




(** ** Path separators (lines 842-869)

    A [char *] argument is null or the array it points to; reading or
    writing past the end of the array has no result. *)

Definition ch_slash : Z := 47.

Definition byte_slash : byte := x2f.
Definition byte_backslash : byte := x5c.

(** [strlen]: the index of the first zero byte. *)
Fixpoint strlen (l : list byte) : option nat :=
  match l with
  | [] => None
  | c :: r => if byte_val c =? 0 then Some O else option_map S (strlen r)
  end.

(** [path[i] = c] for [i] inside the array. *)
Definition store (path : list byte) (i : nat) (c : byte) : list byte :=
  firstn i path ++ c :: skipn (S i) path.

(** [for (i = 0; i < len; i++) if (path[i] == from) path[i] = to;]
    followed by [return i]. *)
Fixpoint separator_loop (from : Z) (to : byte) (fuel : nat) (len i : Z)
         (path : list byte) : option (Z * list byte) :=
  if i <? len then
    match fuel with
    | O => None
    | S fuel' =>
        match nth_error path (Z.to_nat i) with
        | None => None
        | Some c =>
            let path' := if byte_val c =? from then store path (Z.to_nat i) to else path in
            separator_loop from to fuel' len (int32 (i + 1)) path'
        end
    end
  else Some (i, path).

Definition convert_separators (from : Z) (to : byte)
           (path : option (list byte)) (len : Z) : option (Z * option (list byte)) :=
  match path with
  | None => Some (-1, None)
  | Some p =>
      match (if len <? 0 then option_map (fun n => int32 (Z.of_nat n)) (strlen p)
             else Some len) with
      | None => None
      | Some len' =>
          if len' <=? 0 then Some (-2, Some p)
          else
            match separator_loop from to (Z.to_nat len') len' 0 p with
            | Some (r, p') => Some (r, Some p')
            | None => None
            end
      end
  end.

(** *** WinPath2UnixPath (lines 842-854) *)
Definition WinPath2UnixPath (path : option (list byte)) (len : Z)
  : option (Z * option (list byte)) :=
  convert_separators ch_backslash byte_slash path len.

(** *** UnixPath2WinPath (lines 857-869) *)
Definition UnixPath2WinPath (path : option (list byte)) (len : Z)
  : option (Z * option (list byte)) :=
  convert_separators ch_slash byte_backslash path len.

(** One byte with the separator [from] replaced by [to]. *)
Definition swap_separator (from : Z) (to : byte) (c : byte) : byte :=
  if byte_val c =? from then to else c.

(** The first [n] bytes of [p] with [from] replaced by [to], the rest
    as it is. *)
Definition with_separators (from : Z) (to : byte) (n : nat) (p : list byte) : list byte :=
  map (swap_separator from to) (firstn n p) ++ skipn n p.

(** The length a conversion works with: [len] itself, or the length of
    the string when [len] is negative. *)
Definition path_len (p : list byte) (len n : Z) : Prop :=
  (0 <= len /\ n = len) \/ (len < 0 /\ 0 <= n /\ strlen p = Some (Z.to_nat n)).

(** ** file_mmap (lines 1009-1040)

    [off_t] is a signed and [size_t] an unsigned 64-bit integer.  The
    environment is what [sysconf(_SC_PAGE_SIZE)] and [fstat] answer
    ([None] for a failed [fstat]) and whether the kernel grants a
    mapping of a length at an offset.  The result is the returned
    pointer with what was stored through [ppmap], [pmaplen] and
    [pmapoff], each of which may be null. *)

Definition uint64 (z : Z) : Z := z mod 2 ^ 64.

Definition file_mmap (sys_pagesize : Z) (fstat_size : option Z)
           (grant : Z -> Z -> bool)
           (fd offset length : Z) (want_pmap want_len want_off : bool)
  : ptr * option ptr * option Z * option Z :=
  let pagesize := int64 sys_pagesize in
  let nothing := (NULL, None, None, None) in
  if fd =? 0 then nothing
  else
    match fstat_size with
    | None => nothing
    | Some st_size =>
        if length <=? 0 then nothing
        else if offset >=? st_size then nothing
        else
          let pa_off := Z.land offset (Z.lnot (int64 (pagesize - 1))) in
          let maplen0 := uint64 (length + offset - pa_off) in
          let maplen :=
            if uint64 (pa_off + maplen0) >? uint64 st_size
            then uint64 (st_size - pa_off) else maplen0 in
          if grant maplen pa_off then
            let pmap := Mapping pa_off maplen 0 in
            (ptr_add pmap (offset - pa_off),
             if want_pmap then Some pmap else None,
             if want_len then Some maplen else None,
             if want_off then Some pa_off else None)
          else nothing
    end.

(** ** The kernel's access check

    [fbuf_init] opens the file with [O_RDONLY] (line 1074) and
    [fbuf_mmap] asks for [PROT_READ | PROT_WRITE] and [MAP_SHARED]
    (lines 1172-1174).  mmap(2) fails with [EACCES] when [MAP_SHARED]
    is requested and [PROT_WRITE] is set but the descriptor is not
    open for reading and writing. *)

Definition O_RDONLY : Z := 0.
Definition O_RDWR : Z := 2.
Definition O_ACCMODE : Z := 3.
Definition PROT_READ : Z := 1.
Definition PROT_WRITE : Z := 2.
Definition MAP_SHARED : Z := 1.

(** The flags of the [open] in [fbuf_init] and of the [mmap] in
    [fbuf_mmap]. *)
Definition fbuf_open_flags : Z := O_RDONLY.
Definition fbuf_mmap_prot : Z := Z.lor PROT_READ PROT_WRITE.
Definition fbuf_mmap_flags : Z := MAP_SHARED.

Definition mmap_eacces (oflag prot flags : Z) : bool :=
  (Z.land flags MAP_SHARED =? MAP_SHARED)
  && (Z.land prot PROT_WRITE =? PROT_WRITE)
  && negb (Z.land oflag O_ACCMODE =? O_RDWR).

(** A kernel that makes this check refuses what [fbuf_mmap] asks for. *)
Definition kernel_checks_access (mmap_ok : list syscall -> Z -> Z -> bool) : Prop :=
  mmap_eacces fbuf_open_flags fbuf_mmap_prot fbuf_mmap_flags = true ->
  forall l len off, mmap_ok l len off = false.



(** The state right after [fbuf_init] on an empty file. *)
Definition fresh_empty : machine := fresh [].

(** The seven bytes: a double quote, [a , b], a double quote, [, c]. *)
Definition file_quoted : list byte := [x22; x61; x2c; x62; x22; x2c; x63].

(** The path [a \ b / c] with its terminating zero. *)
Definition path_mixed : list byte := [x61; x5c; x62; x2f; x63; x00].


(** The state of the five-byte sample after a first access that the
    kernel refused: the window fields name the whole file and [pbyte]
    is [MAP_FAILED]. *)
Definition refused_abcd : machine :=
  mk_machine (mk_fbuf 3 5 8 4096 32768 0 5 MAP_FAILED)
             [Mmap NULL 5 0 MAP_FAILED].

(** ** Descriptor input and output (lines 29-235)

    The kernel's side of [read], [write], [writev] and [sendfile] is
    the list of its replies to the successive calls of one run:
    [Ready n] is a call that succeeds and moves [n] bytes, cut to what
    was asked for and to what there is, possibly nothing; [Errno e] is
    a call that moves nothing and fails with that error number.

    The loops of the C functions call the kernel until a reply lets
    them stop, so they are written by recursion on the replies: a loop
    that needs one more reply when the list is used up is still
    running, and the result is [None].  [None] therefore says that the
    function has not returned after the replies given; a function
    whose result is [None] for every list of replies of some kind
    never returns against a kernel that goes on replying so. *)

Inductive reply : Type :=
| Ready (n : Z)
| Errno (e : Z).

Definition EINTR : Z := 4.
Definition EAGAIN : Z := 11.

(** What a call answered by [Ready n] moves, for a request of
    [request] bytes when [avail] can be moved. *)
Definition moved (n request avail : Z) : Z :=
  Z.max 0 (Z.min n (Z.min request avail)).

(** [memcpy]-like effect of the kernel filling [pbuf + k]. *)
Definition store_at (pbuf : list byte) (k : Z) (data : list byte) : list byte :=
  firstn (Z.to_nat k) pbuf ++ data
  ++ skipn (Z.to_nat k + List.length data) pbuf.

(** The result of a descriptor read: the value returned, the caller's
    buffer, the input not yet consumed and the replies left. *)
Definition read_result : Type := Z * option (list byte) * list byte * list reply.

(** The loop of [filefd_read] (lines 38-52); the delay before a retry
    changes nothing that is modelled. *)
Fixpoint filefd_read_loop (size : Z) (script : list reply) (len : Z)
         (pbuf input : list byte) {struct script} : option read_result :=
  if len <? size then
    match script with
    | [] => None
    | Errno e :: rest =>
        if (e =? EINTR) || (e =? EAGAIN)
        then filefd_read_loop size rest len pbuf input
        else Some (-100, Some pbuf, input, rest)
    | Ready n :: rest =>
        let m := moved n (size - len) (Z.of_nat (List.length input)) in
        let ret := int32 m in
        let pbuf' := store_at pbuf len (firstn (Z.to_nat m) input) in
        let input' := skipn (Z.to_nat m) input in
        if ret =? 0 then Some (len, Some pbuf', input', rest)
        else filefd_read_loop size rest (int32 (len + ret)) pbuf' input'
    end
  else Some (len, Some pbuf, input, script).

(** [filefd_read] (lines 29-55); [pbuf] is [None] for a null
    pointer. *)
Definition filefd_read (fd : Z) (pbuf : option (list byte)) (size : Z)
           (input : list byte) (script : list reply) : option read_result :=
  if fd <? 0 then Some (-1, pbuf, input, script)
  else
    match pbuf with
    | None => Some (-2, pbuf, input, script)
    | Some b =>
        if size <? 0 then Some (-3, pbuf, input, script)
        else filefd_read_loop size script 0 b input
    end.

(** The result of a descriptor write: the value returned, what the
    descriptor has received and the replies left. *)
Definition write_result : Type := Z * list byte * list reply.

(** The loop of [filefd_write] (lines 66-76): a count of 0 is added
    like any other and the loop calls again. *)
Fixpoint filefd_write_loop (size : Z) (script : list reply) (len : Z)
         (pbuf sink : list byte) {struct script} : option write_result :=
  if len <? size then
    match script with
    | [] => None
    | Errno e :: rest =>
        if (e =? EINTR) || (e =? EAGAIN)
        then filefd_write_loop size rest len pbuf sink
        else Some (-100, sink, rest)
    | Ready n :: rest =>
        let m := moved n (size - len) (size - len) in
        let ret := int32 m in
        filefd_write_loop size rest (int32 (len + ret)) pbuf
                          (sink ++ file_bytes pbuf len m)
    end
  else Some (len, sink, script).

(** [filefd_write] (lines 57-79). *)
Definition filefd_write (fd : Z) (pbuf : option (list byte)) (size : Z)
           (sink : list byte) (script : list reply) : option write_result :=
  if fd <? 0 then Some (-1, sink, script)
  else
    match pbuf with
    | None => Some (-2, sink, script)
    | Some b =>
        if size <? 0 then Some (-3, sink, script)
        else filefd_write_loop size script 0 b sink
    end.

(** The result of a descriptor copy: the value returned, what
    [*actnum] holds ([None] for a null [actnum]), what the output
    descriptor has received and the replies left. *)
Definition copy_result : Type := Z * option Z * list byte * list reply.

(** The [sendfile] loop of [filefd_copy] (lines 192-211).
    [SENDFILE_MAXSIZE] comes from a header and is a parameter here;
    [sendfile] moves bytes of the input file from [offset] on and
    advances [offset] by what it moved. *)
Fixpoint filefd_copy_loop (SENDFILE_MAXSIZE : Z) (file : list byte)
         (size : Z) (script : list reply) (offset length toread : Z)
         (act : option Z) (sink : list byte) {struct script}
  : option copy_result :=
  if uint64 offset <? size then
    match script with
    | [] => None
    | Errno e :: rest =>
        if (e =? EINTR) || (e =? EAGAIN)
        then filefd_copy_loop SENDFILE_MAXSIZE file size rest offset
                              length toread act sink
        else Some (-400, act, sink, rest)
    | Ready n :: rest =>
        let m := moved n toread
                       (Z.max 0 (Z.of_nat (List.length file) - offset)) in
        let ret := int64 m in
        if ret =? 0 then Some (-500, act, sink, rest)
        else
          let length' := uint64 (length - ret) in
          filefd_copy_loop SENDFILE_MAXSIZE file size rest
                           (int64 (offset + m)) length'
                           (Z.min length' SENDFILE_MAXSIZE)
                           (option_map (fun a => int64 (a + ret)) act)
                           (sink ++ file_bytes file offset m)
    end
  else Some (0, act, sink, script).

(** [filefd_copy] (lines 157-235, the branch with [sendfile]).
    [length] is a [size_t], so the test [length < 0] never holds;
    [offset] is compared with the size as an unsigned number. *)
Definition filefd_copy (SENDFILE_MAXSIZE : Z) (file : list byte) (stat_ok : bool)
           (fdin offset length fdout : Z) (want_act : bool)
           (sink : list byte) (script : list reply) : option copy_result :=
  let act := if want_act then Some 0 else None in
  if fdin <? 0 then Some (-1, act, sink, script)
  else if fdout <? 0 then Some (-2, act, sink, script)
  else if negb stat_ok then Some (-10, act, sink, script)
  else
    let size := uint64 (Z.of_nat (List.length file)) in
    let offset := if offset <? 0 then 0 else offset in
    if uint64 offset >=? size then Some (-100, act, sink, script)
    else
      let length :=
        if length >? uint64 (size - offset) then uint64 (size - offset)
        else length in
      filefd_copy_loop SENDFILE_MAXSIZE file size script offset length
                       (Z.min length SENDFILE_MAXSIZE) act sink.

(** ** filefd_writev (lines 81-120, the branch with [writev])

    The array of [struct iovec] is a list whose entries are the bytes
    each [iov_base], [iov_len] pair designates; advancing [iov_base]
    by [wlen] and taking [wlen] off [iov_len] drops the first [wlen]
    bytes of the entry.  [EWOULDBLOCK] is the same number as
    [EAGAIN]. *)








(** ** Kinds of kernel replies *)

(** A kernel that fails only with the errors [filefd_read],
    [filefd_write] and [filefd_copy] retry. *)
Definition benign (r : reply) : Prop :=
  match r with
  | Ready _ => True
  | Errno e => e = EINTR \/ e = EAGAIN
  end.


(** A kernel that, when it succeeds, moves at least one byte if one is
    asked for and there is one. *)
Definition productive (r : reply) : Prop :=
  match r with
  | Ready n => 1 <= n
  | Errno _ => True
  end.

(** A kernel that only tells to try again. *)
Definition busy (r : reply) : Prop :=
  match r with
  | Ready _ => False
  | Errno e => e = EINTR \/ e = EAGAIN
  end.

(** A kernel that tells to try again or takes nothing. *)
Definition stalled (r : reply) : Prop :=
  match r with
  | Ready n => n <= 0
  | Errno e => e = EINTR \/ e = EAGAIN
  end.


(** How many of the replies are successes. *)
Fixpoint answers (script : list reply) : Z :=
  match script with
  | [] => 0
  | Ready _ :: rest => 1 + answers rest
  | Errno _ :: rest => answers rest
  end.

(** ** Samples of replies *)

(** A kernel that is interrupted once, hands over two bytes, would
    block once, hands over one byte and then all that is asked for,
    twice. *)
Definition script_pieces : list reply :=
  [Errno EINTR; Ready 2; Errno EAGAIN; Ready 1; Ready 100; Ready 100].



(** A buffer of four zero bytes. *)
Definition buf_zero4 : list byte := [x00; x00; x00; x00].

(** * Properties *)

(** ** Delimiter sets *)

Lemma byte_val_inj (a b : byte) : byte_val a = byte_val b -> a = b.
Proof.
  unfold byte_val. intro H. apply N2Z.inj in H.
  pose proof (Byte.of_to_N a) as Ha. rewrite H, Byte.of_to_N in Ha.
  congruence.
Qed.




(** ** Scans over a list *)





(** ** Quoted runs over a list *)





(** ** The quote-aware scan over a list *)






(** ** Wrap-around is the identity on representable values *)

Lemma int64_id (z : Z) : - 2 ^ 63 <= z <= INT64_MAX -> int64 z = z.
Proof.
  unfold int64, wrap, INT64_MAX.
  change (2 ^ (64 - 1)) with (2 ^ 63); change (2 ^ 64) with (2 * 2 ^ 63).
  assert (0 < 2 ^ 63) by reflexivity.
  intros; rewrite Z.mod_small; lia.
Qed.

Lemma int32_id (z : Z) : - 2 ^ 31 <= z <= INT_MAX -> int32 z = z.
Proof.
  unfold int32, wrap, INT_MAX.
  change (2 ^ (32 - 1)) with (2 ^ 31); change (2 ^ 32) with (2 * 2 ^ 31).
  assert (0 < 2 ^ 31) by reflexivity.
  intros; rewrite Z.mod_small; lia.
Qed.

Lemma int32_range (z : Z) : - 2 ^ 31 <= int32 z <= INT_MAX.
Proof.
  unfold int32, wrap, INT_MAX.
  change (2 ^ (32 - 1)) with (2 ^ 31); change (2 ^ 32) with (2 * 2 ^ 31).
  assert (0 < 2 ^ 31) by reflexivity.
  pose proof (Z.mod_pos_bound (z + 2 ^ 31) (2 * 2 ^ 31)); lia.
Qed.

Lemma INT_MAX_lt_INT64_MAX : INT_MAX < INT64_MAX.
Proof. reflexivity. Qed.

(** Truncating division is flooring division on the values [fbuf_mmap]
    divides. *)
Lemma quot_floor (pos ps : Z) : 0 <= pos -> 0 < ps -> Z.quot pos ps = pos / ps.
Proof. intros; apply Z.quot_div_nonneg; lia. Qed.

Lemma page_floor_bounds (pos ps : Z) :
  0 <= pos -> 0 < ps ->
  0 <= pos / ps <= pos /\ 0 <= pos / ps * ps <= pos /\ pos < pos / ps * ps + ps.
Proof.
  intros Hpos Hps.
  pose proof (Z.div_pos pos ps Hpos Hps).
  pose proof (Z.mul_div_le pos ps Hps).
  pose proof (Z.mod_pos_bound pos ps Hps).
  pose proof (Z.div_mod pos ps ltac:(lia)).
  repeat split; try nia.
Qed.

Lemma in_file_iff (b : fbuf_t) (pos : Z) :
  in_file b pos = true <-> 0 <= pos < fsize b.
Proof. unfold in_file. rewrite negb_true_iff, orb_false_iff. lia. Qed.

Section RemapFacts.

Variable mmap_ok : list syscall -> Z -> Z -> bool.

Lemma fbuf_mmap_unfold (s : machine) (pos : Z) :
  fbuf_mmap mmap_ok H_FBUF pos s =
  if negb (in_file (buf s) pos) then Some (-2, s)
  else if in_window (buf s) pos then Some (0, s)
  else if pagesize (buf s) =? 0 then None
  else Some (if is_map_failed (mmap_result mmap_ok s pos) then -3 else 0, remapped mmap_ok s pos).
Proof.
  unfold fbuf_mmap, in_file, in_window, bind, get_buf.
  destruct ((pos <? 0) || (pos >=? fsize (buf s))); cbn [negb]; [reflexivity|].
  destruct ((pos <? mapoff (buf s)) || (pos >=? int64 (mapoff (buf s) + maplen (buf s))));
    cbn [negb]; [|reflexivity].
  unfold remapped, mmap_result, unmapped_log, new_length, new_offset.
  destruct s as [b l]; cbn [buf klog].
  destruct (is_null (pbyte b)); cbn;
    destruct (pagesize b =? 0); cbn; try reflexivity;
    match goal with |- context [mmap_ok ?a ?b ?c] => destruct (mmap_ok a b c) end;
    reflexivity.
Qed.

End RemapFacts.

(** ** Computations that keep a state property *)

Section Preservation.

Variable P : machine -> Prop.

Lemma preserves_ret {A} (a : A) : preserves P (ret a).
Proof. intros s x s' HP H; inversion H; subst; exact HP. Qed.

Lemma preserves_fault {A} : preserves P (@fault A).
Proof. intros s x s' _ H; discriminate H. Qed.

Lemma preserves_bind {A B} (m : M A) (k : A -> M B) :
  preserves P m -> (forall a, preserves P (k a)) -> preserves P (bind m k).
Proof.
  intros Hm Hk s b s' HP H. unfold bind in H.
  destruct (m s) as [[a s1]|] eqn:E; [|discriminate].
  eapply Hk; [eapply Hm; eassumption | eassumption].
Qed.

Lemma preserves_get_buf : preserves P get_buf.
Proof. intros s x s' HP H; inversion H; subst; exact HP. Qed.

Lemma preserves_if {A} (c : bool) (m1 m2 : M A) :
  preserves P m1 -> preserves P m2 -> preserves P (if c then m1 else m2).
Proof. destruct c; auto. Qed.

Lemma preserves_deref file p k : preserves P (deref file p k).
Proof.
  unfold deref. destruct p; try apply preserves_fault.
  destruct (_ && _); [|apply preserves_fault].
  destruct (nth_error _ _); [apply preserves_ret | apply preserves_fault].
Qed.

Lemma preserves_read_bytes file p n : forall k, preserves P (read_bytes file p k n).
Proof.
  induction n as [|n IH]; intro k; cbn [read_bytes].
  - apply preserves_ret.
  - apply preserves_bind; [apply preserves_deref|]; intro b.
    apply preserves_bind; [apply IH|]; intro bs. apply preserves_ret.
Qed.

Lemma preserves_in_pat pat patlen fch : preserves P (in_pat pat patlen fch).
Proof.
  unfold in_pat. destruct (pat_has _ _ _); [apply preserves_ret | apply preserves_fault].
Qed.

End Preservation.

(** Whatever [fbuf_mmap] keeps, every accessor and scanner keeps: they
    touch the structure through [fbuf_mmap] only. *)
Section PreservedByAll.

Variable file : list byte.
Variable mmap_ok : list syscall -> Z -> Z -> bool.
Variable P : machine -> Prop.
Hypothesis P_mmap : forall pos, preserves P (fbuf_mmap mmap_ok H_FBUF pos).

Ltac pres :=
  repeat first
    [ apply preserves_ret | apply preserves_fault | apply preserves_get_buf
    | apply preserves_deref | apply preserves_read_bytes | apply preserves_in_pat
    | apply P_mmap
    | apply preserves_bind; [|intro]
    | apply preserves_if ].

Lemma preserves_fbuf_at pos : preserves P (fbuf_at file mmap_ok H_FBUF pos).
Proof. unfold fbuf_at. pres. Qed.

Lemma preserves_fbuf_ptr pos wb wl : preserves P (fbuf_ptr mmap_ok H_FBUF pos wb wl).
Proof. unfold fbuf_ptr. pres. Qed.

Lemma preserves_fbuf_read pos ok len :
  preserves P (fbuf_read file mmap_ok H_FBUF pos ok len).
Proof. unfold fbuf_read. pres. Qed.

Ltac loop_pres IH :=
  repeat first
    [ apply IH | apply preserves_fbuf_at
    | apply preserves_ret | apply preserves_fault | apply preserves_get_buf
    | apply preserves_in_pat
    | apply preserves_bind; [|intro]
    | apply preserves_if ].

Lemma preserves_skip_to_loop pos span pat patlen fuel :
  forall i, preserves P (skip_to_loop file mmap_ok fuel pos span pat patlen i).
Proof.
  induction fuel as [|fuel IH]; intro i; cbn [skip_to_loop]; loop_pres IH.
Qed.

Lemma preserves_rskip_to_loop pos lim pat patlen fuel :
  forall i, preserves P (rskip_to_loop file mmap_ok fuel pos lim pat patlen i).
Proof.
  induction fuel as [|fuel IH]; intro i; cbn [rskip_to_loop]; loop_pres IH.
Qed.

Lemma preserves_skip_over_loop pos span pat patlen fuel :
  forall i, preserves P (skip_over_loop file mmap_ok fuel pos span pat patlen i).
Proof.
  induction fuel as [|fuel IH]; intro i; cbn [skip_over_loop]; loop_pres IH.
Qed.

Lemma preserves_rskip_over_loop pos lim pat patlen fuel :
  forall i, preserves P (rskip_over_loop file mmap_ok fuel pos lim pat patlen i).
Proof.
  induction fuel as [|fuel IH]; intro i; cbn [rskip_over_loop]; loop_pres IH.
Qed.

Lemma preserves_quoted_loop pos lim fsz quote fuel :
  forall i, preserves P (quoted_loop file mmap_ok fuel pos lim fsz quote i).
Proof.
  induction fuel as [|fuel IH]; intro i; cbn [quoted_loop]; loop_pres IH.
Qed.

Lemma preserves_fbuf_quotedstrlen pos lim :
  preserves P (fbuf_quotedstrlen file mmap_ok H_FBUF pos lim).
Proof.
  unfold fbuf_quotedstrlen.
  repeat first
    [ apply preserves_quoted_loop | apply preserves_fbuf_at
    | apply preserves_ret | apply preserves_get_buf
    | apply preserves_bind; [|intro]
    | apply preserves_if ].
Qed.

Lemma preserves_skip_quote_to_loop pos span pat patlen fuel :
  forall i, preserves P (skip_quote_to_loop file mmap_ok fuel pos span pat patlen i).
Proof.
  induction fuel as [|fuel IH]; intro i; cbn [skip_quote_to_loop];
    repeat first
      [ apply IH | apply preserves_fbuf_at | apply preserves_fbuf_quotedstrlen
      | apply preserves_ret | apply preserves_fault
      | apply preserves_in_pat
      | apply preserves_bind; [|intro]
      | apply preserves_if ].
Qed.

Lemma preserves_skip_esc_to_loop pos span pat patlen fuel :
  forall i, preserves P (skip_esc_to_loop file mmap_ok fuel pos span pat patlen i).
Proof.
  induction fuel as [|fuel IH]; intro i; cbn [skip_esc_to_loop]; loop_pres IH.
Qed.

Ltac scanner_pres L :=
  match goal with
  | |- preserves _ (match ?v with Some _ => _ | None => _ end) => destruct v
  end;
  repeat first
    [ apply L
    | apply preserves_ret | apply preserves_get_buf
    | apply preserves_bind; [|intro]
    | apply preserves_if ].

Lemma preserves_perform (a : access) : preserves P (perform file mmap_ok a).
Proof.
  destruct a; cbn [perform]; (apply preserves_bind; [|intro; apply preserves_ret]).
  - apply P_mmap.
  - apply preserves_fbuf_at.
  - apply preserves_fbuf_ptr.
  - apply preserves_fbuf_read.
  - unfold fbuf_skip_to; scanner_pres preserves_skip_to_loop.
  - unfold fbuf_rskip_to; scanner_pres preserves_rskip_to_loop.
  - unfold fbuf_skip_over; scanner_pres preserves_skip_over_loop.
  - unfold fbuf_rskip_over; scanner_pres preserves_rskip_over_loop.
  - unfold fbuf_skip_quote_to; scanner_pres preserves_skip_quote_to_loop.
  - unfold fbuf_skip_esc_to; scanner_pres preserves_skip_esc_to_loop.
Qed.

End PreservedByAll.

(** ** The window fields in reachable states *)

Section WindowFields.

Variable file : list byte.
Variable mmap_ok : list syscall -> Z -> Z -> bool.
Variable sys_pagesize : Z.

(** The size of the file is representable in the [int64] field. *)
Hypothesis file_fits : Z.of_nat (length file) <= INT64_MAX.

Lemma new_offset_floor (b : fbuf_t) (pos : Z) :
  fields_ok file b -> 0 <= pos < fsize b ->
  new_offset b pos = pos / pagesize b * pagesize b.
Proof.
  intros (Hsz & Hps & _) Hpos. unfold new_offset.
  rewrite quot_floor by lia.
  destruct (page_floor_bounds pos (pagesize b)) as (H1 & H2 & _); try lia.
  rewrite (int64_id (pos / pagesize b)) by lia.
  apply int64_id; lia.
Qed.

Lemma new_length_min (b : fbuf_t) (pos : Z) :
  fields_ok file b -> 0 <= pos < fsize b ->
  new_length b pos = Z.min (mapsize b) (fsize b - new_offset b pos).
Proof.
  intros Hok Hpos. unfold new_length.
  rewrite (new_offset_floor b pos Hok Hpos).
  destruct Hok as (Hsz & Hps & _).
  destruct (page_floor_bounds pos (pagesize b)) as (_ & H2 & _); try lia.
  rewrite int64_id by lia.
  destruct (Z.gtb_spec (fsize b - pos / pagesize b * pagesize b) (mapsize b)); lia.
Qed.

Lemma fields_ok_init open_fd pagecount0 b :
  fbuf_init file sys_pagesize open_fd true pagecount0 = Some b -> fields_ok file b.
Proof.
  unfold fbuf_init. destruct (open_fd <? 0); [discriminate|]. cbn [negb].
  intro H; inversion H; subst; clear H.
  unfold fields_ok; cbn [fsize pagesize mapsize pagecount mapoff maplen].
  pose proof (int32_range sys_pagesize) as Hr.
  assert (0 <= Z.of_nat (length file)) by lia.
  assert (Hps : 512 <= (if int32 sys_pagesize <? 512 then 4096 else int32 sys_pagesize)
                <= INT_MAX).
  { destruct (Z.ltb_spec (int32 sys_pagesize) 512); unfold INT_MAX in *; lia. }
  rewrite int64_id by lia.
  unfold INT_MAX in *.
  assert (8 <= (if pagecount0 <? 8 then 8 else pagecount0))
    by (destruct (Z.ltb_spec pagecount0 8); lia).
  split; [lia|]. split; [lia|]. split; [reflexivity|]. split; [lia|].
  split; [apply Z.mod_0_l; lia|]. split; [lia|]. split; [lia|]. assumption.
Qed.

Lemma fields_ok_remapped (s : machine) (pos : Z) :
  fields_ok file (buf s) -> 0 <= pos < fsize (buf s) ->
  fields_ok file (buf (remapped mmap_ok s pos)).
Proof.
  intros Hok Hpos.
  pose proof (new_offset_floor _ _ Hok Hpos) as Hoff.
  pose proof (new_length_min _ _ Hok Hpos) as Hlen.
  destruct Hok as (Hsz & Hps & Hms & Hmo & Hmod & Hml & Hle).
  pose proof (int32_range (pagesize (buf s) * pagecount (buf s))) as Hr.
  destruct (page_floor_bounds pos (pagesize (buf s))) as (_ & H2 & _); try lia.
  unfold fields_ok, remapped; cbn [buf fsize pagesize mapsize pagecount mapoff maplen].
  rewrite Hlen, Hoff.
  repeat split; try lia.
  apply Z.mod_mul; lia.
Qed.

Lemma preserves_fields_ok_mmap pos :
  preserves (fun s => fields_ok file (buf s)) (fbuf_mmap mmap_ok H_FBUF pos).
Proof.
  intros s r s' Hok H. rewrite fbuf_mmap_unfold in H.
  destruct (in_file (buf s) pos) eqn:Hin; cbn [negb] in H.
  2:{ inversion H; subst; exact Hok. }
  destruct (in_window (buf s) pos); [inversion H; subst; exact Hok|].
  destruct (pagesize (buf s) =? 0); [discriminate|].
  inversion H; subst. apply fields_ok_remapped; [exact Hok|].
  unfold in_file in Hin. lia.
Qed.

Lemma reachable_fields_ok (s : machine) :
  reachable file mmap_ok sys_pagesize s -> fields_ok file (buf s).
Proof.
  induction 1 as [fd0 pc b Hb | s s' a _ IH Hstep].
  - cbn. eapply fields_ok_init; eassumption.
  - unfold state_of in Hstep.
    destruct (perform file mmap_ok a s) as [[u s1]|] eqn:E; [|discriminate].
    cbn in Hstep; inversion Hstep; subst.
    eapply (preserves_perform file mmap_ok _ preserves_fields_ok_mmap a); eassumption.
Qed.

(** C6: in every state reached by opening the buffer and performing
    any sequence of accesses (window requests, byte and slice
    accesses, bulk reads, scans), [mapoff] is a multiple of
    [pagesize] and [mapoff + maplen <= fsize]. *)
Theorem window_aligned_and_within_file (s : machine) :
  reachable file mmap_ok sys_pagesize s ->
  mapoff (buf s) mod pagesize (buf s) = 0 /\
  mapoff (buf s) + maplen (buf s) <= fsize (buf s).
Proof.
  intro Hr. destruct (reachable_fields_ok s Hr) as (_ & _ & _ & _ & Hmod & _ & Hle & _).
  split; assumption.
Qed.

Lemma in_window_iff (b : fbuf_t) (pos : Z) :
  fields_ok file b ->
  in_window b pos = true <-> mapoff b <= pos < mapoff b + maplen b.
Proof.
  intros (Hsz & Hps & Hms & Hmo & Hmod & Hml & Hle). unfold in_window.
  rewrite int64_id by (unfold INT64_MAX in *; lia).
  rewrite negb_true_iff, orb_false_iff. lia.
Qed.

Lemma pagesize_nonzero (b : fbuf_t) : fields_ok file b -> (pagesize b =? 0) = false.
Proof. intros (_ & Hps & _). apply Z.eqb_neq. lia. Qed.

Lemma fbuf_mmap_inside (s : machine) (pos : Z) :
  fields_ok file (buf s) ->
  mapoff (buf s) <= pos < mapoff (buf s) + maplen (buf s) ->
  fbuf_mmap mmap_ok H_FBUF pos s = Some (0, s).
Proof.
  intros Hok Hin. rewrite fbuf_mmap_unfold.
  assert (Hf : in_file (buf s) pos = true).
  { apply in_file_iff. destruct Hok as (_ & _ & _ & Hmo & _ & _ & Hle). lia. }
  rewrite Hf; cbn [negb].
  apply (in_window_iff _ pos Hok) in Hin. rewrite Hin. reflexivity.
Qed.

Lemma fbuf_mmap_outside (s : machine) (pos : Z) :
  fields_ok file (buf s) ->
  0 <= pos < fsize (buf s) ->
  ~ (mapoff (buf s) <= pos < mapoff (buf s) + maplen (buf s)) ->
  fbuf_mmap mmap_ok H_FBUF pos s =
  Some (if is_map_failed (mmap_result mmap_ok s pos) then -3 else 0,
        remapped mmap_ok s pos).
Proof.
  intros Hok Hpos Hout. rewrite fbuf_mmap_unfold.
  apply in_file_iff in Hpos. rewrite Hpos; cbn [negb].
  destruct (in_window (buf s) pos) eqn:E.
  - apply (in_window_iff _ pos Hok) in E. contradiction.
  - rewrite (pagesize_nonzero _ Hok). reflexivity.
Qed.

(** C2: on an open buffer, [fbuf_mmap] answers -2 exactly for the
    positions outside [0, fsize); for a position in range and
    outside the window it asks for the window that starts at
    [pos / pagesize * pagesize] and is
    [min mapsize (fsize - start)] bytes long, and records it in
    [mapoff] and [maplen]; [mapsize], the capacity of a window, is
    [pagesize * pagecount] whenever that product fits an [int]. *)
Theorem fbuf_mmap_range_and_new_window (s : machine) (pos : Z) :
  reachable file mmap_ok sys_pagesize s ->
  (value_of (fbuf_mmap mmap_ok H_FBUF pos s) = Some (-2)
     <-> ~ (0 <= pos < fsize (buf s))) /\
  (0 <= pos < fsize (buf s) ->
   ~ (mapoff (buf s) <= pos < mapoff (buf s) + maplen (buf s)) ->
   let off := pos / pagesize (buf s) * pagesize (buf s) in
   let len := Z.min (mapsize (buf s)) (fsize (buf s) - off) in
   exists r s' res,
     fbuf_mmap mmap_ok H_FBUF pos s = Some (r, s') /\
     mapoff (buf s') = off /\ maplen (buf s') = len /\
     hd_error (klog s') = Some (Mmap (pbyte (buf s)) len off res)) /\
  (pagesize (buf s) * pagecount (buf s) <= INT_MAX ->
   mapsize (buf s) = pagesize (buf s) * pagecount (buf s)).
Proof.
  intro Hr. pose proof (reachable_fields_ok s Hr) as Hok. split; [|split].
  3:{ destruct Hok as (_ & Hps & Hms & _ & _ & _ & _ & Hpc). intro Hno.
      rewrite Hms. apply int32_id. nia. }
  - rewrite fbuf_mmap_unfold, <- in_file_iff.
    destruct (in_file (buf s) pos); cbn [negb].
    + destruct (in_window (buf s) pos); cbn.
      * split; [discriminate | intro H; exfalso; apply H; reflexivity].
      * rewrite (pagesize_nonzero _ Hok). cbn.
        split; [|intro H; exfalso; apply H; reflexivity].
        destruct (is_map_failed _); discriminate.
    + cbn. split; [discriminate | reflexivity].
  - intros Hpos Hout off len.
    rewrite (fbuf_mmap_outside s pos Hok Hpos Hout).
    pose proof (new_offset_floor _ _ Hok Hpos) as Hoff.
    pose proof (new_length_min _ _ Hok Hpos) as Hlen.
    rewrite Hoff in Hlen. fold off in Hoff, Hlen. fold len in Hlen.
    eexists _, _, (mmap_result mmap_ok s pos). split; [reflexivity|].
    unfold remapped; cbn [buf klog mapoff maplen hd_error].
    rewrite Hoff, Hlen. auto.
Qed.

(** What a refused request leaves behind, for any position that
    triggers a remap: the error pointer in [pbyte], and in [mapoff]
    and [maplen] the window that was asked for. *)
Lemma fbuf_mmap_refused (s : machine) (pos : Z) :
  fields_ok file (buf s) ->
  0 <= pos < fsize (buf s) ->
  ~ (mapoff (buf s) <= pos < mapoff (buf s) + maplen (buf s)) ->
  mmap_ok (unmapped_log s) (new_length (buf s) pos) (new_offset (buf s) pos) = false ->
  exists s',
    fbuf_mmap mmap_ok H_FBUF pos s = Some (-3, s') /\
    pbyte (buf s') = MAP_FAILED /\
    mapoff (buf s') = pos / pagesize (buf s) * pagesize (buf s) /\
    maplen (buf s') = Z.min (mapsize (buf s)) (fsize (buf s) - mapoff (buf s')).
Proof.
  intros Hok Hpos Hout Hno.
  assert (Hres : mmap_result mmap_ok s pos = MAP_FAILED)
    by (unfold mmap_result; rewrite Hno; reflexivity).
  exists (remapped mmap_ok s pos).
  rewrite (fbuf_mmap_outside s pos Hok Hpos Hout), Hres.
  split; [reflexivity|].
  unfold remapped; cbn [buf pbyte mapoff maplen].
  rewrite Hres, (new_length_min _ _ Hok Hpos), (new_offset_floor _ _ Hok Hpos).
  repeat split.
Qed.

Lemma fbuf_at_inside_state (s : machine) (pos : Z) :
  fields_ok file (buf s) ->
  mapoff (buf s) <= pos < mapoff (buf s) + maplen (buf s) ->
  fbuf_at file mmap_ok H_FBUF pos s =
  deref file (pbyte (buf s)) (int64 (pos - mapoff (buf s))) s.
Proof.
  intros Hok Hin. unfold fbuf_at, bind.
  rewrite (fbuf_mmap_inside s pos Hok Hin). reflexivity.
Qed.

Lemma deref_state (p : ptr) (k : Z) (s : machine) r s' :
  deref file p k s = Some (r, s') -> s' = s.
Proof.
  unfold deref. destruct p; try discriminate.
  destruct (_ && _); [|discriminate].
  destruct (nth_error _ _); [|discriminate].
  intro H; inversion H; reflexivity.
Qed.

Lemma read_bytes_state (p : ptr) (n : nat) :
  forall k s r s', read_bytes file p k n s = Some (r, s') -> s' = s.
Proof.
  induction n as [|n IH]; intros k s r s'; cbn [read_bytes].
  - intro H; inversion H; reflexivity.
  - unfold bind. destruct (deref file p k s) as [[b s1]|] eqn:E; [|discriminate].
    apply deref_state in E; subst s1.
    destruct (read_bytes file p (k + 1) n s) as [[bs s2]|] eqn:E2; [|discriminate].
    apply IH in E2; subst s2. intro H; inversion H; reflexivity.
Qed.

Lemma deref_live (s : machine) (pos : Z) :
  fields_ok file (buf s) ->
  pbyte (buf s) = Mapping (mapoff (buf s)) (maplen (buf s)) 0 ->
  mapoff (buf s) <= pos < mapoff (buf s) + maplen (buf s) ->
  exists b,
    nth_error file (Z.to_nat pos) = Some b /\
    deref file (pbyte (buf s)) (int64 (pos - mapoff (buf s))) s = Some (byte_val b, s).
Proof.
  intros Hok Hp Hin.
  destruct Hok as (Hsz & Hps & Hms & Hmo & Hmod & Hml & Hle).
  rewrite Hp. unfold deref.
  rewrite int64_id by (unfold INT64_MAX in *; lia).
  replace ((0 <=? 0 + (pos - mapoff (buf s))) && (0 + (pos - mapoff (buf s)) <? maplen (buf s))
           && (0 <=? mapoff (buf s))) with true
    by (symmetry; rewrite !andb_true_iff; lia).
  replace (mapoff (buf s) + (0 + (pos - mapoff (buf s)))) with pos by lia.
  destruct (nth_error file (Z.to_nat pos)) as [b|] eqn:E.
  - exists b. split; reflexivity.
  - apply nth_error_None in E. lia.
Qed.

(** C5: a call that changes the state or issues a mapping request was
    made for a position outside [mapoff, mapoff + maplen); for a
    position inside the window [fbuf_mmap] and the slice accessor
    [fbuf_ptr] return with the very same state (same [mapoff], same
    [maplen], same kernel log), and so do [fbuf_at] and [fbuf_read]
    whenever they return, which [fbuf_at] does when [pbyte] is the
    mapping the fields describe. *)
Theorem no_remap_inside_window (s : machine) (pos : Z) :
  reachable file mmap_ok sys_pagesize s ->
  (forall r s', fbuf_mmap mmap_ok H_FBUF pos s = Some (r, s') ->
                s' <> s ->
                ~ (mapoff (buf s) <= pos < mapoff (buf s) + maplen (buf s))) /\
  (mapoff (buf s) <= pos < mapoff (buf s) + maplen (buf s) ->
   fbuf_mmap mmap_ok H_FBUF pos s = Some (0, s) /\
   (forall wb wl, state_of (fbuf_ptr mmap_ok H_FBUF pos wb wl s) = Some s) /\
   (forall r s', fbuf_at file mmap_ok H_FBUF pos s = Some (r, s') -> s' = s) /\
   (forall ok len r s', fbuf_read file mmap_ok H_FBUF pos ok len s = Some (r, s') -> s' = s) /\
   (pbyte (buf s) = Mapping (mapoff (buf s)) (maplen (buf s)) 0 ->
    state_of (fbuf_at file mmap_ok H_FBUF pos s) = Some s)).
Proof.
  intro Hr. pose proof (reachable_fields_ok s Hr) as Hok. split.
  - intros r s' H Hne Hin.
    rewrite (fbuf_mmap_inside s pos Hok Hin) in H. inversion H; subst. congruence.
  - intro Hin. pose proof (fbuf_mmap_inside s pos Hok Hin) as Hm.
    split; [exact Hm|]. split; [|split; [|split]].
    + intros wb wl. unfold fbuf_ptr, bind. rewrite Hm. reflexivity.
    + intros r s'. rewrite (fbuf_at_inside_state s pos Hok Hin). apply deref_state.
    + intros ok len r s'. unfold fbuf_read, bind.
      destruct (negb ok || (len <=? 0)); [intro H; inversion H; reflexivity|].
      rewrite Hm. cbn.
      destruct (_ <? 0); cbn; [discriminate|].
      match goal with |- context [read_bytes ?f ?p ?k ?n s] =>
        destruct (read_bytes f p k n s) as [[bs s1]|] eqn:E end; [|discriminate].
      apply read_bytes_state in E; subst s1. intro H; inversion H; reflexivity.
    + intro Hp. rewrite (fbuf_at_inside_state s pos Hok Hin).
      destruct (deref_live s pos Hok Hp Hin) as (b & _ & Hd). rewrite Hd. reflexivity.
Qed.

End WindowFields.


(** ** Buffers with a closed or a mapped window, whatever the kernel answers *)

Section LiveWindow.

Variable file : list byte.
Variable mmap_ok : list syscall -> Z -> Z -> bool.

Hypothesis file_fits : Z.of_nat (length file) <= INT64_MAX.

Lemma skipn_nth_error {A} (l : list A) :
  forall n x, nth_error l n = Some x -> skipn n l = x :: skipn (S n) l.
Proof.
  induction l as [|y l IH]; intros [|n] x H; try discriminate.
  - inversion H; reflexivity.
  - cbn in H. rewrite (skipn_cons n y l). apply IH. exact H.
Qed.

Lemma file_bytes_cons (a n : Z) :
  0 <= a -> 0 < n -> a < Z.of_nat (length file) ->
  exists b, nth_error file (Z.to_nat a) = Some b /\
            file_bytes file a n = b :: file_bytes file (a + 1) (n - 1).
Proof.
  intros Ha Hn Hlt. unfold file_bytes.
  destruct (nth_error file (Z.to_nat a)) as [b|] eqn:E.
  2:{ apply nth_error_None in E. lia. }
  exists b. split; [reflexivity|].
  replace (Z.to_nat n) with (S (Z.to_nat (n - 1))) by lia.
  replace (Z.to_nat (a + 1)) with (S (Z.to_nat a)) by lia.
  rewrite (skipn_nth_error file _ _ E). reflexivity.
Qed.

Lemma file_bytes_nil (a n : Z) : n <= 0 -> file_bytes file a n = [].
Proof. intro H. unfold file_bytes. replace (Z.to_nat n) with O by lia. reflexivity. Qed.


(** A granted request leaves the window it asked for, mapped. *)
Lemma live_remapped (s : machine) (pos : Z) :
  live file s -> 0 <= pos < fsize (buf s) ->
  granted mmap_ok s pos = true ->
  let s' := remapped mmap_ok s pos in
  live file s' /\
  pbyte (buf s') = Mapping (mapoff (buf s')) (maplen (buf s')) 0 /\
  mapoff (buf s') <= pos < mapoff (buf s') + maplen (buf s').
Proof.
  intros (Hok & Hcap & Hwin) Hpos Hgrant s'.
  pose proof (fields_ok_remapped file mmap_ok file_fits s pos Hok Hpos) as Hok'.
  pose proof (new_offset_floor file file_fits _ _ Hok Hpos) as Hoff.
  pose proof (new_length_min file file_fits _ _ Hok Hpos) as Hlen.
  destruct Hok as (Hsz & Hps & Hms & Hmo & Hmod & Hml & Hle).
  destruct (page_floor_bounds pos (pagesize (buf s))) as (_ & H2 & H3); try lia.
  assert (Hres : mmap_result mmap_ok s pos
                 = Mapping (new_offset (buf s) pos) (new_length (buf s) pos) 0).
  { unfold mmap_result. unfold granted in Hgrant. rewrite Hgrant. reflexivity. }
  subst s'. unfold live, window_live.
  split; [split; [exact Hok' | split]|split].
  - unfold remapped; cbn [buf pagesize mapsize]. exact Hcap.
  - right. unfold remapped; cbn [buf pbyte mapoff maplen]. split; [exact Hres | lia].
  - unfold remapped; cbn [buf pbyte mapoff maplen]. exact Hres.
  - unfold remapped; cbn [buf pbyte mapoff maplen]. lia.
Qed.

(** The window a remap records holds the position, granted or not. *)
Lemma remapped_window (s : machine) (pos : Z) :
  live file s -> 0 <= pos < fsize (buf s) ->
  let s' := remapped mmap_ok s pos in
  fields_ok file (buf s') /\
  (mapoff (buf s') <= pos < mapoff (buf s') + maplen (buf s')) /\
  fsize (buf s') = fsize (buf s).
Proof.
  intros (Hok & Hcap & Hwin) Hpos s'.
  pose proof (fields_ok_remapped file mmap_ok file_fits s pos Hok Hpos) as Hok'.
  pose proof (new_offset_floor file file_fits _ _ Hok Hpos) as Hoff.
  pose proof (new_length_min file file_fits _ _ Hok Hpos) as Hlen.
  destruct Hok as (Hsz & Hps & Hms & Hmo & Hmod & Hml & Hle).
  destruct (page_floor_bounds pos (pagesize (buf s))) as (_ & H2 & H3); try lia.
  subst s'. split; [exact Hok'|].
  unfold remapped; cbn [buf pbyte mapoff maplen fsize]. split; [lia | reflexivity].
Qed.

(** A refused request leaves the error pointer. *)
Lemma refused_remapped (s : machine) (pos : Z) :
  granted mmap_ok s pos = false ->
  pbyte (buf (remapped mmap_ok s pos)) = MAP_FAILED /\
  mmap_result mmap_ok s pos = MAP_FAILED.
Proof.
  intro Hno. unfold remapped; cbn [buf pbyte]. unfold mmap_result.
  unfold granted in Hno. rewrite Hno. split; reflexivity.
Qed.

(** One call of [fbuf_mmap] on a live buffer, for a position inside
    the file: it answers 0 with the position inside a mapped window,
    the one there was or a new one the kernel granted, or the kernel
    refused the new one and it answers -3 leaving the error pointer. *)
Lemma fbuf_mmap_any (s : machine) (pos : Z) :
  live file s -> 0 <= pos < fsize (buf s) ->
  (exists s',
     fbuf_mmap mmap_ok H_FBUF pos s = Some (0, s') /\
     live file s' /\
     pbyte (buf s') = Mapping (mapoff (buf s')) (maplen (buf s')) 0 /\
     mapoff (buf s') <= pos < mapoff (buf s') + maplen (buf s') /\
     (s' = s \/ (s' = remapped mmap_ok s pos /\ granted mmap_ok s pos = true))) \/
  (fbuf_mmap mmap_ok H_FBUF pos s = Some (-3, remapped mmap_ok s pos) /\
   pbyte (buf (remapped mmap_ok s pos)) = MAP_FAILED /\
   granted mmap_ok s pos = false /\
   ~ (mapoff (buf s) <= pos < mapoff (buf s) + maplen (buf s))).
Proof.
  intros Hlive Hpos. pose proof Hlive as (Hok & Hcap & Hwin).
  destruct (Z_le_dec (mapoff (buf s)) pos) as [H1|H1];
    [destruct (Z_lt_dec pos (mapoff (buf s) + maplen (buf s))) as [H2|H2]|].
  - left. exists s. rewrite (fbuf_mmap_inside file mmap_ok file_fits s pos Hok) by lia.
    split; [reflexivity|]. split; [exact Hlive|].
    split; [|split; [lia | left; reflexivity]].
    destruct Hwin as [(_ & Ho & Hl) | (Hp & _)]; [lia | exact Hp].
  - rewrite (fbuf_mmap_outside file mmap_ok file_fits s pos Hok Hpos) by lia.
    destruct (granted mmap_ok s pos) eqn:G.
    + left. destruct (live_remapped s pos Hlive Hpos G) as (Hl' & Hp' & Hin').
      exists (remapped mmap_ok s pos).
      split; [|split; [exact Hl'|split; [exact Hp'|split;
        [exact Hin' | right; split; reflexivity]]]].
      change (mmap_result mmap_ok s pos) with (pbyte (buf (remapped mmap_ok s pos))).
      rewrite Hp'. reflexivity.
    + right. destruct (refused_remapped s pos G) as (Hp' & Hres).
      rewrite Hres. split; [reflexivity|]. split; [exact Hp'|]. split; [reflexivity|lia].
  - rewrite (fbuf_mmap_outside file mmap_ok file_fits s pos Hok Hpos) by lia.
    destruct (granted mmap_ok s pos) eqn:G.
    + left. destruct (live_remapped s pos Hlive Hpos G) as (Hl' & Hp' & Hin').
      exists (remapped mmap_ok s pos).
      split; [|split; [exact Hl'|split; [exact Hp'|split;
        [exact Hin' | right; split; reflexivity]]]].
      change (mmap_result mmap_ok s pos) with (pbyte (buf (remapped mmap_ok s pos))).
      rewrite Hp'. reflexivity.
    + right. destruct (refused_remapped s pos G) as (Hp' & Hres).
      rewrite Hres. split; [reflexivity|]. split; [exact Hp'|]. split; [reflexivity|lia].
Qed.

Lemma live_fsize (s : machine) : live file s -> fsize (buf s) = Z.of_nat (length file).
Proof. intros ((H & _) & _). exact H. Qed.


Lemma fbuf_at_outside_file (s : machine) (pos : Z) :
  ~ (0 <= pos < fsize (buf s)) ->
  fbuf_at file mmap_ok H_FBUF pos s = Some (-2, s).
Proof.
  intro H. unfold fbuf_at, bind. rewrite fbuf_mmap_unfold.
  destruct (in_file (buf s) pos) eqn:E; [apply in_file_iff in E; exfalso; exact (H E)|].
  reflexivity.
Qed.

Lemma byte_val_range (b : byte) : 0 <= byte_val b < 256.
Proof. destruct b; cbv; split; congruence. Qed.

Lemma read_bytes_mapping (off len : Z) (n : nat) :
  forall k s,
    0 <= off -> 0 <= k -> k + Z.of_nat n <= len ->
    off + len <= Z.of_nat (length file) ->
    read_bytes file (Mapping off len 0) k n s
    = Some (map byte_val (file_bytes file (off + k) (Z.of_nat n)), s).
Proof.
  induction n as [|n IH]; intros k s Hoff Hk Hn Hlen.
  - reflexivity.
  - cbn [read_bytes]. unfold bind at 1. unfold deref.
    replace ((0 <=? 0 + k) && (0 + k <? len) && (0 <=? off)) with true
      by (symmetry; rewrite !andb_true_iff; lia).
    destruct (file_bytes_cons (off + k) (Z.of_nat (S n))) as (b & Hb & Hc); try lia.
    replace (off + (0 + k)) with (off + k) by lia. rewrite Hb. cbn [ret].
    unfold bind. rewrite IH by lia.
    rewrite Hc. cbn [map ret].
    replace (off + k + 1) with (off + (k + 1)) by lia.
    replace (Z.of_nat (S n) - 1) with (Z.of_nat n) by lia.
    reflexivity.
Qed.

Lemma mmap_calls_remapped (s : machine) (pos : Z) :
  mmap_calls (klog (remapped mmap_ok s pos)) = S (mmap_calls (klog s)).
Proof.
  unfold remapped, unmapped_log, mmap_calls. cbn [klog filter is_mmap_call length].
  destruct (is_null (pbyte (buf s))); reflexivity.
Qed.

(** *** The bound of a forward scan *)

Lemma scan_span_bound (s : machine) (pos skiplimit : Z) :
  live file s -> 0 <= pos <= fsize (buf s) ->
  scan_span (buf s) pos skiplimit = scan_bound (fsize (buf s)) pos skiplimit /\
  0 <= scan_span (buf s) pos skiplimit <= fsize (buf s) - pos.
Proof.
  intros Hlive Hpos. pose proof (live_fsize s Hlive) as Hsz.
  unfold scan_span, scan_bound.
  rewrite int64_id by (unfold INT64_MAX in *; lia).
  destruct (Z.geb_spec skiplimit 0), (Z.ltb_spec skiplimit (fsize (buf s) - pos)),
    (Z.ltb_spec skiplimit 0); cbn [andb]; lia.
Qed.




End LiveWindow.

(** ** An empty delimiter set *)

(** C10: with a null [pat] or with [patlen <= 0] each of the six
    scanners that take a delimiter set returns [pos] at once, in the
    state it was called in: no byte is read and no mapping is
    requested, whatever the file, the start position and the limit. *)
Theorem empty_set_returns_start
  (file : list byte) (mmap_ok : list syscall -> Z -> Z -> bool)
  (s : machine) (pos skiplimit : Z) (vpat : option (list byte)) (patlen : Z) :
  vpat = None \/ patlen <= 0 ->
  fbuf_skip_to file mmap_ok H_FBUF pos skiplimit vpat patlen s = Some (pos, s) /\
  fbuf_rskip_to file mmap_ok H_FBUF pos skiplimit vpat patlen s = Some (pos, s) /\
  fbuf_skip_over file mmap_ok H_FBUF pos skiplimit vpat patlen s = Some (pos, s) /\
  fbuf_rskip_over file mmap_ok H_FBUF pos skiplimit vpat patlen s = Some (pos, s) /\
  fbuf_skip_quote_to file mmap_ok H_FBUF pos skiplimit vpat patlen s = Some (pos, s) /\
  fbuf_skip_esc_to file mmap_ok H_FBUF pos skiplimit vpat patlen s = Some (pos, s).
Proof.
  intros [-> | Hlen].
  - repeat split; reflexivity.
  - apply Z.leb_le in Hlen.
    unfold fbuf_skip_to, fbuf_rskip_to, fbuf_skip_over, fbuf_rskip_over,
      fbuf_skip_quote_to, fbuf_skip_esc_to.
    destruct vpat as [pat|]; rewrite ?Hlen; repeat split; reflexivity.
Qed.

(** ** A refused mapping request *)

(** C1 does not hold of the code.  Open the five-byte file, let the
    kernel refuse the mapping, and ask for position 3: [fbuf_mmap]
    answers -3 and leaves [pbyte = MAP_FAILED] with
    [mapoff = 0], [maplen = 5], the window it asked for.  The next
    request for position 3 finds it inside that window and answers 0
    without asking the kernel again, and [fbuf_at] then reads through
    [MAP_FAILED]. *)
Theorem refused_mapping_leaves_window_fields :
  exists s0 s1,
    opened file_abcd 8 = Some s0 /\
    fbuf_mmap grant_none H_FBUF 3 s0 = Some (-3, s1) /\
    pbyte (buf s1) = MAP_FAILED /\
    is_null (pbyte (buf s1)) = false /\
    mapoff (buf s1) = 0 /\ maplen (buf s1) = 5 /\
    fbuf_mmap grant_none H_FBUF 3 s1 = Some (0, s1) /\
    fbuf_at file_abcd grant_none H_FBUF 3 s1 = None.
Proof.
  eexists _, _. split; [reflexivity|].
  split; [vm_compute; reflexivity|].
  repeat split; reflexivity.
Qed.


(** * The scanners and the bulk read on the kernel the code meets

    [fbuf_init] opens the file with [O_RDONLY] and [fbuf_mmap] asks
    for a shared mapping with [PROT_WRITE]: mmap(2) refuses that with
    [EACCES], every time.  The first byte a scanner or a read wants is
    therefore never delivered.  The theorems below run the code on the
    sample files with the kernel that refuses, from the state
    [fbuf_init] leaves. *)

(** C4 does not hold of the code.  Over the bytes [a b , c d], from
    position 0 with no limit and the comma as the only delimiter, the
    claim gives 2, the position of the comma.  [fbuf_skip_to] asks for
    the first byte, the mapping is refused, [fbuf_at] answers -2 and
    the loop breaks at once: the result is 0, the start.  [pbyte] is
    left as [MAP_FAILED], and the same call made again reads through
    it. *)
Theorem fbuf_skip_to_blind_on_refused_mapping :
  mmap_eacces fbuf_open_flags fbuf_mmap_prot fbuf_mmap_flags = true /\
  exists s0 s1,
    opened file_abcd 8 = Some s0 /\
    nth_error file_abcd 2 = Some x2c /\
    fbuf_skip_to file_abcd grant_none H_FBUF 0 (-1) (Some [x2c]) 1 s0 = Some (0, s1) /\
    klog s1 = [Mmap NULL 5 0 MAP_FAILED] /\
    pbyte (buf s1) = MAP_FAILED /\
    fbuf_skip_to file_abcd grant_none H_FBUF 0 (-1) (Some [x2c]) 1 s1 = None.
Proof.
  split; [reflexivity|].
  eexists _, _. split; [reflexivity|]. split; [reflexivity|].
  split; [vm_compute; reflexivity|].
  repeat split; reflexivity.
Qed.

(** C8 does not hold of the code.  Over the bytes [a \ , b , c], from
    position 0 with no limit and the comma as the only delimiter, the
    claim gives 4, the position of the second comma.
    [fbuf_skip_esc_to] asks for the first byte, the mapping is
    refused, and the result is 0, the start. *)
Theorem fbuf_skip_esc_to_blind_on_refused_mapping :
  mmap_eacces fbuf_open_flags fbuf_mmap_prot fbuf_mmap_flags = true /\
  exists s0 s1,
    opened file_escaped 8 = Some s0 /\
    nth_error file_escaped 2 = Some x2c /\ nth_error file_escaped 4 = Some x2c /\
    fbuf_skip_esc_to file_escaped grant_none H_FBUF 0 (-1) (Some [x2c]) 1 s0
    = Some (0, s1) /\
    klog s1 = [Mmap NULL 6 0 MAP_FAILED] /\
    pbyte (buf s1) = MAP_FAILED /\
    fbuf_skip_esc_to file_escaped grant_none H_FBUF 0 (-1) (Some [x2c]) 1 s1 = None.
Proof.
  split; [reflexivity|].
  eexists _, _. split; [reflexivity|]. split; [reflexivity|]. split; [reflexivity|].
  split; [vm_compute; reflexivity|].
  repeat split; reflexivity.
Qed.


(** C7 does not hold of the code.  Over the bytes [a \ , b , c] the
    comma at 2 follows a backslash, and over the seven bytes that
    start with the quoted run of [a , b] the comma at 2 lies inside
    the run: from position 0 with no limit and the comma as the only
    delimiter the claim gives 4 and 5, the commas outside.
    [fbuf_skip_quote_to] asks for the first byte, the mapping is
    refused, and the result is 0 both times. *)
Theorem fbuf_skip_quote_to_blind_on_refused_mapping :
  mmap_eacces fbuf_open_flags fbuf_mmap_prot fbuf_mmap_flags = true /\
  (exists s0 s1,
      opened file_escaped 8 = Some s0 /\
      nth_error file_escaped 1 = Some x5c /\ nth_error file_escaped 4 = Some x2c /\
      fbuf_skip_quote_to file_escaped grant_none H_FBUF 0 (-1) (Some [x2c]) 1 s0
      = Some (0, s1) /\
      pbyte (buf s1) = MAP_FAILED /\
      fbuf_skip_quote_to file_escaped grant_none H_FBUF 0 (-1) (Some [x2c]) 1 s1 = None) /\
  (exists s0 s1,
      opened file_quoted 8 = Some s0 /\
      nth_error file_quoted 2 = Some x2c /\ nth_error file_quoted 5 = Some x2c /\
      fbuf_skip_quote_to file_quoted grant_none H_FBUF 0 (-1) (Some [x2c]) 1 s0
      = Some (0, s1) /\
      pbyte (buf s1) = MAP_FAILED /\
      fbuf_skip_quote_to file_quoted grant_none H_FBUF 0 (-1) (Some [x2c]) 1 s1 = None).
Proof.
  split; [reflexivity|]. split.
  - eexists _, _. split; [reflexivity|]. split; [reflexivity|]. split; [reflexivity|].
    split; [vm_compute; reflexivity|]. split; reflexivity.
  - eexists _, _. split; [reflexivity|]. split; [reflexivity|]. split; [reflexivity|].
    split; [vm_compute; reflexivity|]. split; reflexivity.
Qed.

(** C9 does not hold of the code.  On the five-byte file, a read of
    10 bytes at position 3 is a read past the end of the window: the
    claim gives the 2 bytes that remain, and no error.  [fbuf_read]
    asks for the window, the mapping is refused, and the answer is the
    error -2 with no byte copied.  [pbyte] is left as [MAP_FAILED],
    and the same read made again copies from it. *)
Theorem fbuf_read_fails_on_refused_mapping :
  mmap_eacces fbuf_open_flags fbuf_mmap_prot fbuf_mmap_flags = true /\
  exists s0 s1,
    opened file_abcd 8 = Some s0 /\
    fbuf_read file_abcd grant_none H_FBUF 3 true 10 s0 = Some ((-2, []), s1) /\
    klog s1 = [Mmap NULL 5 0 MAP_FAILED] /\
    pbyte (buf s1) = MAP_FAILED /\
    mapoff (buf s1) = 0 /\ maplen (buf s1) = 5 /\
    fbuf_read file_abcd grant_none H_FBUF 3 true 10 s1 = None.
Proof.
  split; [reflexivity|].
  eexists _, _. split; [reflexivity|].
  split; [vm_compute; reflexivity|].
  repeat split; reflexivity.
Qed.


(** ** The theorems at work on the sample files *)

Ltac by_computation :=
  vm_compute;
  repeat match goal with
         | |- _ /\ _ => split
         | |- _ = _ => reflexivity
         | |- _ -> False => discriminate
         | |- ~ _ => discriminate
         end.

Lemma abcd_fits : Z.of_nat (length file_abcd) <= INT64_MAX.
Proof. by_computation. Defined.

Lemma fresh_abcd_reachable : reachable file_abcd grant_all 4096 (fresh file_abcd).
Proof.
  exact (reach_open file_abcd grant_all 4096 3 8 (buf (fresh file_abcd)) eq_refl).
Defined.

Lemma windowed_abcd_reachable : reachable file_abcd grant_all 4096 windowed_abcd.
Proof.
  exact (reach_access file_abcd grant_all 4096 (fresh file_abcd) windowed_abcd
           (Acc_at 0) fresh_abcd_reachable eq_refl).
Defined.

Lemma fresh_abcd_live : live file_abcd (fresh file_abcd).
Proof. by_computation. left. by_computation. Defined.

Lemma fbuf_mmap_range_and_new_window_witness :
  reachable file_abcd grant_all 4096 (fresh file_abcd) /\
  exists r s' res,
    fbuf_mmap grant_all H_FBUF 3 (fresh file_abcd) = Some (r, s') /\
    mapoff (buf s') = 0 /\ maplen (buf s') = 5 /\
    hd_error (klog s') = Some (Mmap NULL 5 0 res).
Proof.
  split; [exact fresh_abcd_reachable|].
  apply (proj1 (proj2 (fbuf_mmap_range_and_new_window file_abcd grant_all 4096 abcd_fits
                         (fresh file_abcd) 3 fresh_abcd_reachable))).
  - by_computation.
  - intros [_ H]. vm_compute in H. discriminate H.
Defined.

Lemma no_remap_inside_window_witness :
  reachable file_abcd grant_all 4096 windowed_abcd /\
  mapoff (buf windowed_abcd) <= 3 < mapoff (buf windowed_abcd) + maplen (buf windowed_abcd) /\
  fbuf_mmap grant_all H_FBUF 3 windowed_abcd = Some (0, windowed_abcd).
Proof.
  split; [exact windowed_abcd_reachable|].
  assert (Hin : mapoff (buf windowed_abcd) <= 3
                < mapoff (buf windowed_abcd) + maplen (buf windowed_abcd)) by by_computation.
  split; [exact Hin|].
  exact (proj1 (proj2 (no_remap_inside_window file_abcd grant_all 4096 abcd_fits
                         windowed_abcd 3 windowed_abcd_reachable) Hin)).
Defined.

Lemma window_aligned_and_within_file_witness :
  reachable file_abcd grant_all 4096 windowed_abcd /\
  mapoff (buf windowed_abcd) mod pagesize (buf windowed_abcd) = 0 /\
  mapoff (buf windowed_abcd) + maplen (buf windowed_abcd) <= fsize (buf windowed_abcd).
Proof.
  split; [exact windowed_abcd_reachable|].
  exact (window_aligned_and_within_file file_abcd grant_all 4096 abcd_fits
           windowed_abcd windowed_abcd_reachable).
Defined.

Lemma empty_set_returns_start_witness :
  (0 <= 0) /\
  fbuf_skip_to file_abcd grant_all H_FBUF 0 (-1) (Some comma) 0 (fresh file_abcd)
  = Some (0, fresh file_abcd).
Proof.
  assert (H : 0 <= 0) by by_computation.
  split; [exact H|].
  exact (proj1 (empty_set_returns_start file_abcd grant_all (fresh file_abcd) 0 (-1)
                  (Some comma) 0 (or_intror H))).
Defined.



(** * Further properties of the buffer *)

(** ** The mappings a buffer holds *)

Lemma same_ptr_refl (p : ptr) : same_ptr p p = true.
Proof. destruct p; cbn; rewrite ?Z.eqb_refl; reflexivity. Qed.

Lemma release_held (b : fbuf_t) :
  match pbyte b with Mapping _ l _ => l = maplen b | _ => True end ->
  release (pbyte b) (maplen b) (held_mapping b) = [].
Proof.
  unfold held_mapping. destruct (pbyte b) as [| |o l d] eqn:E; intro H; try reflexivity.
  cbn [release]. rewrite same_ptr_refl. cbn [mapping_length andb]. subst l.
  rewrite Z.eqb_refl. reflexivity.
Qed.

Lemma preserves_holds_one_mmap (mmap_ok : list syscall -> Z -> Z -> bool) (pos : Z) :
  preserves holds_one (fbuf_mmap mmap_ok H_FBUF pos).
Proof.
  intros s r s' (Hmaps & Hlen) H. rewrite fbuf_mmap_unfold in H.
  destruct (negb (in_file (buf s) pos)); [inversion H; subst; split; assumption|].
  destruct (in_window (buf s) pos); [inversion H; subst; split; assumption|].
  destruct (pagesize (buf s) =? 0); [discriminate|].
  inversion H; subst; clear H.
  assert (Hun : live_maps (unmapped_log s) = []).
  { unfold unmapped_log. destruct (is_null (pbyte (buf s))) eqn:En.
    - rewrite Hmaps. unfold held_mapping. destruct (pbyte (buf s)); try reflexivity; discriminate.
    - cbn [live_maps]. rewrite Hmaps. apply release_held. exact Hlen. }
  unfold holds_one, remapped, held_mapping. cbn [buf klog pbyte maplen live_maps].
  rewrite Hun. unfold mmap_result.
  destruct (mmap_ok _ _ _); split; reflexivity.
Qed.

Lemma reachable_holds_one (file : list byte) (mmap_ok : list syscall -> Z -> Z -> bool)
      (sys_pagesize : Z) (s : machine) :
  reachable file mmap_ok sys_pagesize s -> holds_one s.
Proof.
  induction 1 as [fd0 pc b Hb | s s' a _ IH Hstep].
  - unfold fbuf_init in Hb. destruct (fd0 <? 0); [discriminate|].
    cbn [negb] in Hb. inversion Hb; subst. split; reflexivity.
  - unfold state_of in Hstep.
    destruct (perform file mmap_ok a s) as [[u s1]|] eqn:E; [|discriminate].
    cbn in Hstep; inversion Hstep; subst.
    exact (preserves_perform file mmap_ok _ (preserves_holds_one_mmap mmap_ok) a s u s' IH E).
Qed.

(** X1: however the kernel answers, after opening the file and any
    sequence of accesses the kernel holds at most one mapping for the
    buffer: the one [pbyte] points to when it is a mapping, none
    otherwise.  Every window is unmapped before the next is mapped. *)
Theorem at_most_one_live_mapping
  (file : list byte) (mmap_ok : list syscall -> Z -> Z -> bool)
  (sys_pagesize : Z) (s : machine) :
  reachable file mmap_ok sys_pagesize s ->
  live_maps (klog s) = held_mapping (buf s) /\
  (length (live_maps (klog s)) <= 1)%nat.
Proof.
  intro Hr. destruct (reachable_holds_one file mmap_ok sys_pagesize s Hr) as (Hm & _).
  split; [exact Hm|]. rewrite Hm. unfold held_mapping.
  destruct (pbyte (buf s)); cbn; lia.
Qed.

Lemma preserves_fd_mmap (mmap_ok : list syscall -> Z -> Z -> bool) (pos : Z) :
  preserves (fun s => 0 <= fd (buf s)) (fbuf_mmap mmap_ok H_FBUF pos).
Proof.
  intros s r s' Hg H. rewrite fbuf_mmap_unfold in H.
  destruct (negb (in_file (buf s) pos)); [inversion H; subst; exact Hg|].
  destruct (in_window (buf s) pos); [inversion H; subst; exact Hg|].
  destruct (pagesize (buf s) =? 0); [discriminate|].
  inversion H; subst. exact Hg.
Qed.

Lemma reachable_fd (file : list byte) (mmap_ok : list syscall -> Z -> Z -> bool)
      (sys_pagesize : Z) (s : machine) :
  reachable file mmap_ok sys_pagesize s -> 0 <= fd (buf s).
Proof.
  induction 1 as [fd0 pc b Hb | s s' a _ IH Hstep].
  - unfold fbuf_init in Hb. destruct (Z.ltb_spec fd0 0); [discriminate|].
    cbn [negb] in Hb. inversion Hb; subst. cbn. lia.
  - unfold state_of in Hstep.
    destruct (perform file mmap_ok a s) as [[u s1]|] eqn:E; [|discriminate].
    cbn in Hstep; inversion Hstep; subst.
    exact (preserves_perform file mmap_ok _ (preserves_fd_mmap mmap_ok) a s u s' IH E).
Qed.

(** X2: [fbuf_free] on a buffer in any reachable state, whatever the
    kernel answered before, leaves no mapping alive and hands the
    descriptor that open(2) gave, which is not negative, to close(2);
    the field [fd] is -1 afterwards.  On a null handle it does
    nothing. *)
Theorem fbuf_free_releases
  (file : list byte) (mmap_ok : list syscall -> Z -> Z -> bool)
  (sys_pagesize : Z) (s : machine) :
  reachable file mmap_ok sys_pagesize s ->
  (exists s',
     fbuf_free H_FBUF s = Some (Some (fd (buf s)), s') /\
     0 <= fd (buf s) /\
     live_maps (klog s') = [] /\
     fd (buf s') = -1) /\
  fbuf_free H_NULL s = Some (None, s).
Proof.
  intro Hr. split; [|reflexivity].
  destruct (reachable_holds_one file mmap_ok sys_pagesize s Hr) as (Hm & Hl).
  pose proof (reachable_fd file mmap_ok sys_pagesize s Hr) as Hfd.
  unfold fbuf_free, bind, get_buf, sys_munmap.
  replace (fd (buf s) >=? 0) with true by (symmetry; rewrite Z.geb_leb; apply Z.leb_le; lia).
  destruct (is_null (pbyte (buf s))) eqn:En; cbn.
  - eexists. split; [reflexivity|]. split; [exact Hfd|]. split; [|reflexivity].
    cbn. rewrite Hm. unfold held_mapping.
    destruct (pbyte (buf s)); try reflexivity; discriminate.
  - eexists. split; [reflexivity|]. split; [exact Hfd|]. split; [|reflexivity].
    cbn. rewrite Hm. apply release_held. exact Hl.
Qed.

(** ** What no access changes *)

Lemma preserves_shape_mmap (mmap_ok : list syscall -> Z -> Z -> bool)
      (b0 : fbuf_t) (l0 : list syscall) (pos : Z) :
  preserves (fun s => fd (buf s) = fd b0 /\ fsize (buf s) = fsize b0 /\
                      pagecount (buf s) = pagecount b0 /\ pagesize (buf s) = pagesize b0 /\
                      mapsize (buf s) = mapsize b0 /\
                      exists newer, klog s = newer ++ l0)
            (fbuf_mmap mmap_ok H_FBUF pos).
Proof.
  intros s r s' Hg H. rewrite fbuf_mmap_unfold in H.
  destruct (negb (in_file (buf s) pos)); [inversion H; subst; exact Hg|].
  destruct (in_window (buf s) pos); [inversion H; subst; exact Hg|].
  destruct (pagesize (buf s) =? 0); [discriminate|].
  inversion H; subst. destruct Hg as (H1 & H2 & H3 & H4 & H5 & newer & H6).
  unfold remapped, unmapped_log; cbn [buf klog fd fsize pagecount pagesize mapsize].
  repeat (split; [assumption|]).
  destruct (is_null (pbyte (buf s))); rewrite H6.
  - eexists (_ :: newer). reflexivity.
  - eexists (_ :: _ :: newer). reflexivity.
Qed.

(** X3: no accessor and no scanner changes the descriptor, the file
    size, the page count, the page size or the window capacity of the
    buffer, and none removes an entry from the record of kernel calls:
    whatever call returns, these fields are what they were and the log
    has only grown. *)
Theorem accesses_keep_geometry
  (file : list byte) (mmap_ok : list syscall -> Z -> Z -> bool)
  (a : access) (s s' : machine) :
  state_of (perform file mmap_ok a s) = Some s' ->
  fd (buf s') = fd (buf s) /\ fsize (buf s') = fsize (buf s) /\
  pagecount (buf s') = pagecount (buf s) /\ pagesize (buf s') = pagesize (buf s) /\
  mapsize (buf s') = mapsize (buf s) /\
  exists newer, klog s' = newer ++ klog s.
Proof.
  intro Hstep. unfold state_of in Hstep.
  destruct (perform file mmap_ok a s) as [[u s1]|] eqn:E; [|discriminate].
  cbn in Hstep; inversion Hstep; subst.
  apply (preserves_perform file mmap_ok _ (preserves_shape_mmap mmap_ok (buf s) (klog s))
           a s u s'); [|exact E].
  repeat (split; [reflexivity|]). exists []. reflexivity.
Qed.

(** ** An empty file *)

Lemma preserves_empty_mmap (mmap_ok : list syscall -> Z -> Z -> bool) (pos : Z) :
  preserves (fun s => fsize (buf s) = 0 /\ klog s = [] /\ pbyte (buf s) = NULL)
            (fbuf_mmap mmap_ok H_FBUF pos).
Proof.
  intros s r s' (Hsz & Hg) H. rewrite fbuf_mmap_unfold in H.
  replace (in_file (buf s) pos) with false in H
    by (symmetry; unfold in_file; rewrite Hsz; apply negb_false_iff, orb_true_iff; lia).
  cbn [negb] in H. inversion H; subst. split; assumption.
Qed.

(** X4: a file of no bytes opens like any other, and from then on no
    access maps anything: in every reachable state the record of
    kernel calls is empty, [pbyte] is null, and [fbuf_at] answers -2
    for every position. *)
Theorem empty_file_never_maps
  (mmap_ok : list syscall -> Z -> Z -> bool) (sys_pagesize : Z) :
  (forall open_fd pagecount0,
      0 <= open_fd ->
      exists b, fbuf_init [] sys_pagesize open_fd true pagecount0 = Some b /\ fsize b = 0) /\
  (forall s,
      reachable [] mmap_ok sys_pagesize s ->
      klog s = [] /\ pbyte (buf s) = NULL /\
      forall pos, fbuf_at [] mmap_ok H_FBUF pos s = Some (-2, s)).
Proof.
  split.
  - intros fd0 pc Hfd. unfold fbuf_init.
    replace (fd0 <? 0) with false by (symmetry; apply Z.ltb_ge; lia).
    cbn [negb]. eexists. split; reflexivity.
  - intros s Hr.
    assert (Hinv : fsize (buf s) = 0 /\ klog s = [] /\ pbyte (buf s) = NULL).
    { induction Hr as [fd0 pc b Hb | s s' a _ IH Hstep].
      - unfold fbuf_init in Hb. destruct (fd0 <? 0); [discriminate|].
        cbn [negb] in Hb. inversion Hb; subst. repeat split.
      - unfold state_of in Hstep.
        destruct (perform [] mmap_ok a s) as [[u s1]|] eqn:E; [|discriminate].
        cbn in Hstep; inversion Hstep; subst.
        exact (preserves_perform [] mmap_ok _ (preserves_empty_mmap mmap_ok) a s u s' IH E). }
    destruct Hinv as (Hsz & Hlog & Hp). split; [exact Hlog|]. split; [exact Hp|].
    intro pos. apply fbuf_at_outside_file. rewrite Hsz. lia.
Qed.

(** X6: for a position outside [0, fsize) every accessor fails
    without touching the buffer or the kernel: [fbuf_at] answers -2,
    [fbuf_ptr] answers null and stores nothing through [ppbuf] and
    [plen], [fbuf_read] called with a destination that is not null
    and a positive length answers -2 and copies nothing, and the state
    is the one before the call. *)
Theorem accessors_reject_outside_file
  (file : list byte) (mmap_ok : list syscall -> Z -> Z -> bool)
  (s : machine) (pos : Z) :
  ~ (0 <= pos < fsize (buf s)) ->
  fbuf_at file mmap_ok H_FBUF pos s = Some (-2, s) /\
  (forall wb wl, fbuf_ptr mmap_ok H_FBUF pos wb wl s = Some ((NULL, None, None), s)) /\
  (forall len, 0 < len ->
               fbuf_read file mmap_ok H_FBUF pos true len s = Some ((-2, []), s)).
Proof.
  intro Hout.
  assert (Hm : fbuf_mmap mmap_ok H_FBUF pos s = Some (-2, s)).
  { rewrite fbuf_mmap_unfold.
    destruct (in_file (buf s) pos) eqn:E; [apply in_file_iff in E; contradiction|].
    reflexivity. }
  split; [apply fbuf_at_outside_file; exact Hout|]. split.
  - intros wb wl. unfold fbuf_ptr, bind. rewrite Hm. reflexivity.
  - intros len Hlen. unfold fbuf_read. cbn [negb orb].
    replace (len <=? 0) with false by (symmetry; apply Z.leb_gt; lia).
    unfold bind. rewrite Hm. reflexivity.
Qed.


Lemma firstn_add_split {A} (n m : nat) :
  forall l : list A, firstn (n + m) l = firstn n l ++ firstn m (skipn n l).
Proof.
  induction n as [|n IH]; intro l; [reflexivity|].
  destruct l as [|x l]; [cbn; rewrite firstn_nil; reflexivity|].
  cbn. rewrite IH. reflexivity.
Qed.

Lemma file_bytes_app (file : list byte) (a n m : Z) :
  0 <= a -> 0 <= n -> 0 <= m ->
  file_bytes file a (n + m) = file_bytes file a n ++ file_bytes file (a + n) m.
Proof.
  intros Ha Hn Hm. unfold file_bytes.
  replace (Z.to_nat (n + m)) with (Z.to_nat n + Z.to_nat m)%nat by lia.
  rewrite firstn_add_split, skipn_skipn.
  replace (Z.to_nat n + Z.to_nat a)%nat with (Z.to_nat (a + n)) by lia. reflexivity.
Qed.

Lemma deref_disp (file : list byte) (off len d j : Z) (s : machine) :
  deref file (Mapping off len d) j s = deref file (Mapping off len 0) (d + j) s.
Proof. unfold deref. replace (0 + (d + j)) with (d + j) by lia. reflexivity. Qed.

Lemma read_bytes_disp (file : list byte) (off len d : Z) (n : nat) :
  forall j s,
    read_bytes file (Mapping off len d) j n s
    = read_bytes file (Mapping off len 0) (d + j) n s.
Proof.
  induction n as [|n IH]; intros j s; [reflexivity|].
  cbn [read_bytes]. unfold bind. rewrite deref_disp.
  destruct (deref file (Mapping off len 0) (d + j) s) as [[b s1]|]; [|reflexivity].
  rewrite IH. replace (d + (j + 1)) with (d + j + 1) by lia. reflexivity.
Qed.


(** ** Reading through the window *)

Section Accessors.

Variable file : list byte.
Variable mmap_ok : list syscall -> Z -> Z -> bool.
Hypothesis file_fits : Z.of_nat (length file) <= INT64_MAX.

(** The position is in the window, or the kernel grants the request
    for the window that holds it. *)
Lemma fbuf_mmap_served (s : machine) (pos : Z) :
  live file s -> 0 <= pos < fsize (buf s) ->
  (mapoff (buf s) <= pos < mapoff (buf s) + maplen (buf s))
  \/ granted mmap_ok s pos = true ->
  exists s',
    fbuf_mmap mmap_ok H_FBUF pos s = Some (0, s') /\
    live file s' /\
    pbyte (buf s') = Mapping (mapoff (buf s')) (maplen (buf s')) 0 /\
    mapoff (buf s') <= pos < mapoff (buf s') + maplen (buf s') /\
    (s' = s \/ s' = remapped mmap_ok s pos).
Proof.
  intros Hlive Hpos Hserved.
  destruct (fbuf_mmap_any file mmap_ok file_fits s pos Hlive Hpos)
    as [(s' & Hm & Hl' & Hp' & Hin' & Hs') | (_ & _ & Hno & Hout)].
  - exists s'. split; [exact Hm|]. split; [exact Hl'|]. split; [exact Hp'|].
    split; [exact Hin'|]. destruct Hs' as [E|[E _]]; [left|right]; exact E.
  - destruct Hserved as [Hin|Hyes]; [contradiction|congruence].
Qed.

(** The position is outside the window and the kernel refuses the
    request: the error pointer stays in [pbyte] with the window that
    was asked for, and the next call for this position is served
    from it. *)
Lemma fbuf_mmap_denied (s : machine) (pos : Z) :
  live file s -> 0 <= pos < fsize (buf s) ->
  ~ (mapoff (buf s) <= pos < mapoff (buf s) + maplen (buf s)) ->
  granted mmap_ok s pos = false ->
  let s' := remapped mmap_ok s pos in
  fbuf_mmap mmap_ok H_FBUF pos s = Some (-3, s') /\
  pbyte (buf s') = MAP_FAILED /\
  fbuf_mmap mmap_ok H_FBUF pos s' = Some (0, s') /\
  (mapoff (buf s') <= pos < mapoff (buf s') + maplen (buf s')) /\
  fields_ok file (buf s').
Proof.
  intros Hlive Hpos Hout Hno s'. pose proof Hlive as (Hok & _).
  destruct (refused_remapped mmap_ok s pos Hno) as (Hp' & Hres).
  destruct (remapped_window file mmap_ok file_fits s pos Hlive Hpos) as (Hok' & Hin' & _).
  split; [|split; [exact Hp'|split; [|split; assumption]]].
  - rewrite (fbuf_mmap_outside file mmap_ok file_fits s pos Hok Hpos Hout), Hres.
    reflexivity.
  - apply (fbuf_mmap_inside file mmap_ok file_fits); assumption.
Qed.

End Accessors.


(** X5: what [fbuf_at] answers on a live buffer for a position inside
    the file is decided by the window and the kernel.  When the
    position is in the window, or the kernel grants the window that
    holds it, the answer is the byte of the file at that position and
    the buffer stays live.  When the position is outside the window
    and the kernel refuses, the answer is -2, [pbyte] is left as
    [MAP_FAILED] with the refused window recorded, and the same call
    made again has no result: it reads through [MAP_FAILED]. *)
Theorem fbuf_at_byte_or_refused
  (file : list byte) (mmap_ok : list syscall -> Z -> Z -> bool)
  (s : machine) (pos : Z) :
  Z.of_nat (length file) <= INT64_MAX ->
  live file s ->
  0 <= pos < Z.of_nat (length file) ->
  ((mapoff (buf s) <= pos < mapoff (buf s) + maplen (buf s))
   \/ granted mmap_ok s pos = true ->
   exists b s',
     nth_error file (Z.to_nat pos) = Some b /\
     fbuf_at file mmap_ok H_FBUF pos s = Some (byte_val b, s') /\
     0 <= byte_val b < 256 /\
     live file s') /\
  (~ (mapoff (buf s) <= pos < mapoff (buf s) + maplen (buf s)) ->
   granted mmap_ok s pos = false ->
   let s' := remapped mmap_ok s pos in
   fbuf_at file mmap_ok H_FBUF pos s = Some (-2, s') /\
   pbyte (buf s') = MAP_FAILED /\
   fbuf_at file mmap_ok H_FBUF pos s' = None).
Proof.
  intros Hfit Hlive Hpos. pose proof (live_fsize file s Hlive) as Hsz.
  split.
  - intro Hserved.
    destruct (fbuf_mmap_served file mmap_ok Hfit s pos Hlive ltac:(lia) Hserved)
      as (s' & Hm & Hl' & Hp' & Hin' & _).
    pose proof Hl' as (Hok' & _).
    destruct (deref_live file Hfit s' pos Hok' Hp' Hin') as (b & Hb & Hd).
    exists b, s'. split; [exact Hb|]. split; [|split; [apply byte_val_range | exact Hl']].
    unfold fbuf_at, bind. rewrite Hm. cbn. exact Hd.
  - intros Hout Hno s'.
    destruct (fbuf_mmap_denied file mmap_ok Hfit s pos Hlive ltac:(lia) Hout Hno)
      as (Hm & Hp' & Hm' & _).
    fold s' in Hm, Hp', Hm'.
    split; [|split; [exact Hp'|]].
    + unfold fbuf_at, bind. rewrite Hm. reflexivity.
    + unfold fbuf_at, bind. rewrite Hm'. cbn [Z.ltb Z.compare get_buf].
      rewrite Hp'. reflexivity.
Qed.

(** X7: [fbuf_ptr] on a live buffer at a position inside the file.
    When the position is in the window, or the kernel grants the
    window that holds it, the pointer returned is [pos - mapoff] bytes
    into the window that the one call of [fbuf_mmap] leaves, and the
    count is [n = maplen - (pos - mapoff)], the bytes up to the end of
    that window; [n] is positive, [pos + n] does not pass the end of
    the file, and the [n] bytes behind the pointer are the bytes of
    the file from [pos] on.  When the position is outside the window
    and the kernel refuses, the answer is null with nothing stored and
    [pbyte] is left as [MAP_FAILED]; the same call made again then
    hands out the pointer [MAP_FAILED + (pos - mapoff)] and the
    positive count [n], as if the window were mapped. *)
Theorem fbuf_ptr_view_or_refused
  (file : list byte) (mmap_ok : list syscall -> Z -> Z -> bool)
  (s : machine) (pos : Z) (wb wl : bool) :
  Z.of_nat (length file) <= INT64_MAX ->
  live file s ->
  0 <= pos < fsize (buf s) ->
  ((mapoff (buf s) <= pos < mapoff (buf s) + maplen (buf s))
   \/ granted mmap_ok s pos = true ->
   exists s',
     let k := pos - mapoff (buf s') in
     let n := maplen (buf s') - k in
     let p := Mapping (mapoff (buf s')) (maplen (buf s')) k in
     fbuf_ptr mmap_ok H_FBUF pos wb wl s
     = Some ((p, if wb then Some p else None, if wl then Some n else None), s') /\
     fbuf_mmap mmap_ok H_FBUF pos s = Some (0, s') /\
     live file s' /\
     0 < n <= INT_MAX /\
     pos + n <= fsize (buf s) /\
     read_bytes file p 0 (Z.to_nat n) s'
     = Some (map byte_val (file_bytes file pos n), s')) /\
  (~ (mapoff (buf s) <= pos < mapoff (buf s) + maplen (buf s)) ->
   granted mmap_ok s pos = false ->
   let s' := remapped mmap_ok s pos in
   let n := maplen (buf s') - (pos - mapoff (buf s')) in
   let p := ptr_add MAP_FAILED (pos - mapoff (buf s')) in
   fbuf_ptr mmap_ok H_FBUF pos wb wl s = Some ((NULL, None, None), s') /\
   pbyte (buf s') = MAP_FAILED /\
   fbuf_ptr mmap_ok H_FBUF pos wb wl s'
   = Some ((p, if wb then Some p else None, if wl then Some n else None), s') /\
   0 < n).
Proof.
  intros Hfit Hlive Hpos. pose proof (live_fsize file s Hlive) as Hsz.
  split.
  - intro Hserved.
    destruct (fbuf_mmap_served file mmap_ok Hfit s pos Hlive Hpos Hserved)
      as (s' & Hm & Hl' & Hp' & Hin' & Hs').
    exists s'. cbv zeta.
    pose proof (live_fsize file s' Hl') as Hsz'.
    pose proof Hl' as ((_ & Hps & Hms & Hmo & Hmod & Hml & Hle & _) & Hcap & Hwin).
    split; [|split; [exact Hm|split; [exact Hl'|split; [lia|split; [lia|]]]]].
    + unfold fbuf_ptr, bind. rewrite Hm. cbn [Z.ltb Z.compare get_buf].
      rewrite (int64_id (pos - mapoff (buf s'))) by (unfold INT64_MAX in *; lia).
      rewrite (int64_id (maplen (buf s') - _)) by (unfold INT64_MAX, INT_MAX in *; lia).
      rewrite int32_id by (unfold INT_MAX in *; lia).
      rewrite Hp'. cbn [ptr_add]. rewrite Z.add_0_l. reflexivity.
    + rewrite read_bytes_disp, read_bytes_mapping by lia.
      rewrite Z.add_0_r, Z2Nat.id by lia.
      replace (mapoff (buf s') + (pos - mapoff (buf s'))) with pos by lia. reflexivity.
  - intros Hout Hno s' n p.
    destruct (fbuf_mmap_denied file mmap_ok Hfit s pos Hlive Hpos Hout Hno)
      as (Hm & Hp' & Hm' & Hin' & Hok').
    fold s' in Hm, Hp', Hm', Hin', Hok'.
    destruct Hok' as (_ & Hps & Hms & Hmo & Hmod & Hml & Hle & _).
    assert (Hn : 0 < n) by (subst n; lia).
    split; [|split; [exact Hp'|split; [|exact Hn]]].
    + unfold fbuf_ptr, bind. rewrite Hm. reflexivity.
    + unfold fbuf_ptr, bind. rewrite Hm'. cbn [Z.ltb Z.compare get_buf].
      rewrite (int64_id (pos - mapoff (buf s'))) by (unfold INT64_MAX, INT_MAX in *; lia).
      fold n.
      rewrite (int64_id n) by (unfold INT64_MAX, INT_MAX in *; subst n; lia).
      rewrite int32_id by (unfold INT_MAX in *; subst n; lia).
      rewrite Hp'. reflexivity.
Qed.

Lemma fbuf_read_served
  (file : list byte) (mmap_ok : list syscall -> Z -> Z -> bool)
  (s : machine) (pos len : Z) :
  Z.of_nat (length file) <= INT64_MAX ->
  live file s -> 0 <= pos < fsize (buf s) -> 0 < len ->
  (mapoff (buf s) <= pos < mapoff (buf s) + maplen (buf s))
  \/ granted mmap_ok s pos = true ->
  exists s' n,
    fbuf_read file mmap_ok H_FBUF pos true len s
    = Some ((n, map byte_val (file_bytes file pos n)), s') /\
    live file s' /\
    n = Z.min len (maplen (buf s') - (pos - mapoff (buf s'))) /\
    0 < n <= len /\ pos + n <= fsize (buf s) /\
    fbuf_mmap mmap_ok H_FBUF pos s = Some (0, s') /\
    (mmap_calls (klog s') <= S (mmap_calls (klog s)))%nat.
Proof.
  intros Hfit Hlive Hpos Hlen Hserved.
  destruct (fbuf_mmap_served file mmap_ok Hfit s pos Hlive Hpos Hserved)
    as (s' & Hm & Hl' & Hp' & Hin' & Hs').
  pose proof (live_fsize file s Hlive) as Hsz. pose proof (live_fsize file s' Hl') as Hsz'.
  set (k := pos - mapoff (buf s')) in *.
  set (avail := maplen (buf s') - k) in *.
  pose proof Hl' as ((_ & Hps & Hms & Hmo & Hmod & Hml & Hle & _) & Hcap & Hwin).
  assert (Hn : 0 < avail <= INT_MAX) by (subst avail k; lia).
  assert (Hend : pos + avail <= fsize (buf s)) by (subst avail k; lia).
  exists s', (Z.min len avail).
  split; [|split; [exact Hl' | split; [reflexivity|split; [lia|split; [lia|split;
    [exact Hm|]]]]]].
  - unfold fbuf_read. cbn [negb orb].
    replace (len <=? 0) with false by (symmetry; apply Z.leb_gt; lia).
    unfold bind at 1. rewrite Hm. cbn [Z.ltb Z.compare].
    unfold bind at 1. cbn [get_buf]. fold k.
    assert (Hk : 0 <= k) by (subst k avail; unfold INT_MAX in *; lia).
    rewrite (int64_id k) by (unfold INT64_MAX, INT_MAX in *; subst avail; lia).
    fold avail.
    rewrite (int64_id avail) by (unfold INT64_MAX, INT_MAX in *; lia).
    rewrite int32_id by (unfold INT_MAX in *; lia).
    replace (if len >? avail then avail else len) with (Z.min len avail)
      by (destruct (Z.gtb_spec len avail); lia).
    unfold bind at 1.
    replace (Z.min len avail <? 0) with false by (symmetry; apply Z.ltb_ge; lia).
    cbn [ret]. unfold bind. rewrite Hp'.
    rewrite read_bytes_mapping by (subst k avail; lia).
    rewrite Z2Nat.id by lia.
    replace (mapoff (buf s') + k) with pos by (subst k; lia). reflexivity.
  - destruct Hs' as [->| ->]; [lia|]. rewrite mmap_calls_remapped. lia.
Qed.

Lemma fbuf_read_denied
  (file : list byte) (mmap_ok : list syscall -> Z -> Z -> bool)
  (s : machine) (pos len : Z) :
  Z.of_nat (length file) <= INT64_MAX ->
  live file s -> 0 <= pos < fsize (buf s) -> 0 < len ->
  ~ (mapoff (buf s) <= pos < mapoff (buf s) + maplen (buf s)) ->
  granted mmap_ok s pos = false ->
  let s' := remapped mmap_ok s pos in
  fbuf_read file mmap_ok H_FBUF pos true len s = Some ((-2, []), s') /\
  pbyte (buf s') = MAP_FAILED /\
  fbuf_read file mmap_ok H_FBUF pos true len s' = None.
Proof.
  intros Hfit Hlive Hpos Hlen Hout Hno s'.
  destruct (fbuf_mmap_denied file mmap_ok Hfit s pos Hlive Hpos Hout Hno)
    as (Hm & Hp' & Hm' & Hin' & Hok').
  fold s' in Hm, Hp', Hm', Hin', Hok'.
  destruct Hok' as (_ & Hps & Hms & Hmo & Hmod & Hml & Hle & _).
  split; [|split; [exact Hp'|]].
  - unfold fbuf_read. cbn [negb orb].
    replace (len <=? 0) with false by (symmetry; apply Z.leb_gt; lia).
    unfold bind. rewrite Hm. reflexivity.
  - unfold fbuf_read. cbn [negb orb].
    replace (len <=? 0) with false by (symmetry; apply Z.leb_gt; lia).
    unfold bind at 1. rewrite Hm'. cbn [Z.ltb Z.compare].
    unfold bind at 1. cbn [get_buf].
    set (k := pos - mapoff (buf s')) in *.
    set (avail := maplen (buf s') - k) in *.
    rewrite (int64_id k) by (unfold INT64_MAX, INT_MAX in *; subst k; lia).
    fold avail.
    rewrite (int64_id avail) by (unfold INT64_MAX, INT_MAX in *; subst avail k; lia).
    rewrite int32_id by (unfold INT_MAX in *; subst avail k; lia).
    replace (if len >? avail then avail else len) with (Z.min len avail)
      by (destruct (Z.gtb_spec len avail); lia).
    unfold bind at 1.
    replace (Z.min len avail <? 0) with false
      by (symmetry; apply Z.ltb_ge; subst avail k; lia).
    cbn [ret]. unfold bind. rewrite Hp'.
    replace (Z.to_nat (Z.min len avail)) with (S (Z.to_nat (Z.min len avail - 1)))
      by (subst avail k; lia).
    reflexivity.
Qed.

(** X8: [fbuf_read] of a positive length on a live buffer at a
    position inside the file.  When the position is in the window, or
    the kernel grants the window that holds it, the read returns
    [n1 = min len1 (maplen - (pos - mapoff))] bytes, counted in the
    window the one call of [fbuf_mmap] leaves; they are the bytes of
    the file from [pos] on, and at most one mapping request was made.
    A read at [pos + n1] that is served in the same way returns the
    bytes that come next, so reads follow one another without gap or
    overlap, also across the end of a window.  When the position is
    outside the window and the kernel refuses, the read answers -2
    with no byte, [pbyte] is left as [MAP_FAILED], and the same read
    made again has no result: it copies from [MAP_FAILED].  A read of
    a length of 0 or less, or into a null destination, answers -1 and
    touches nothing, in any state. *)
Theorem fbuf_read_continues_or_refused
  (file : list byte) (mmap_ok : list syscall -> Z -> Z -> bool)
  (s : machine) (pos len1 len2 : Z) :
  Z.of_nat (length file) <= INT64_MAX ->
  live file s -> 0 <= pos < fsize (buf s) -> 0 < len1 -> 0 < len2 ->
  ((mapoff (buf s) <= pos < mapoff (buf s) + maplen (buf s))
   \/ granted mmap_ok s pos = true ->
   exists s1 n1,
     fbuf_read file mmap_ok H_FBUF pos true len1 s
     = Some ((n1, map byte_val (file_bytes file pos n1)), s1) /\
     live file s1 /\
     n1 = Z.min len1 (maplen (buf s1) - (pos - mapoff (buf s1))) /\
     0 < n1 <= len1 /\ pos + n1 <= fsize (buf s) /\
     (mmap_calls (klog s1) <= S (mmap_calls (klog s)))%nat /\
     (pos + n1 < fsize (buf s) ->
      (mapoff (buf s1) <= pos + n1 < mapoff (buf s1) + maplen (buf s1))
      \/ granted mmap_ok s1 (pos + n1) = true ->
      exists s2 n2,
        fbuf_read file mmap_ok H_FBUF (pos + n1) true len2 s1
        = Some ((n2, map byte_val (file_bytes file (pos + n1) n2)), s2) /\
        0 < n2 <= len2 /\
        map byte_val (file_bytes file pos n1)
        ++ map byte_val (file_bytes file (pos + n1) n2)
        = map byte_val (file_bytes file pos (n1 + n2)))) /\
  (~ (mapoff (buf s) <= pos < mapoff (buf s) + maplen (buf s)) ->
   granted mmap_ok s pos = false ->
   let s' := remapped mmap_ok s pos in
   fbuf_read file mmap_ok H_FBUF pos true len1 s = Some ((-2, []), s') /\
   pbyte (buf s') = MAP_FAILED /\
   fbuf_read file mmap_ok H_FBUF pos true len1 s' = None) /\
  (forall len st, len <= 0 ->
     fbuf_read file mmap_ok H_FBUF pos true len st = Some ((-1, []), st)) /\
  (forall len st,
     fbuf_read file mmap_ok H_FBUF pos false len st = Some ((-1, []), st)).
Proof.
  intros Hfit Hlive Hpos Hl1 Hl2. split; [|split; [|split]].
  - intro Hserved.
    destruct (fbuf_read_served file mmap_ok s pos len1 Hfit Hlive Hpos Hl1 Hserved)
      as (s1 & n1 & Hr1 & Hlive1 & Hmin & Hn1 & He1 & _ & Hcalls).
    exists s1, n1.
    split; [exact Hr1|]. split; [exact Hlive1|]. split; [exact Hmin|].
    split; [exact Hn1|]. split; [exact He1|]. split; [exact Hcalls|].
    intros Hmore Hserved2.
    pose proof (live_fsize file s Hlive) as Hsz.
    pose proof (live_fsize file s1 Hlive1) as Hsz1.
    destruct (fbuf_read_served file mmap_ok s1 (pos + n1) len2 Hfit Hlive1
                ltac:(lia) Hl2 Hserved2)
      as (s2 & n2 & Hr2 & _ & _ & Hn2 & _).
    exists s2, n2. split; [exact Hr2|]. split; [exact Hn2|].
    rewrite <- map_app, <- file_bytes_app by lia. reflexivity.
  - intros Hout Hno.
    exact (fbuf_read_denied file mmap_ok s pos len1 Hfit Hlive Hpos Hl1 Hout Hno).
  - intros len st Hlen. unfold fbuf_read.
    replace (len <=? 0) with true by (symmetry; apply Z.leb_le; exact Hlen).
    reflexivity.
  - intros len st. reflexivity.
Qed.

(** * Further properties of the scanners *)
















(** ** The scanners, whatever the kernel answers

    A scan on a live buffer reads the file byte by byte through
    [fbuf_at].  As long as the kernel grants the windows it needs, it
    goes the way a scan over the bytes of the file goes; the first
    refused window ends it where it stands, with the error pointer
    left in [pbyte]. *)

Section AnyKernelScans.

Variable file : list byte.
Variable mmap_ok : list syscall -> Z -> Z -> bool.
Hypothesis file_fits : Z.of_nat (length file) <= INT64_MAX.

(** *** fbuf_skip_to *)


(** *** fbuf_skip_over *)


(** *** fbuf_skip_esc_to *)



(** *** fbuf_rskip_to *)


(** *** fbuf_rskip_over *)


End AnyKernelScans.






(** ** The quote scanners, whatever the kernel answers

    [fbuf_quotedstrlen] stops at the first byte it cannot read and
    answers the count it had reached; [fbuf_skip_quote_to] adds that
    count to its index and goes on, so that it asks for the refused
    byte again. *)

Section AnyKernelQuotes.

Variable file : list byte.
Variable mmap_ok : list syscall -> Z -> Z -> bool.
Hypothesis file_fits : Z.of_nat (length file) <= INT64_MAX.


(** *** fbuf_quotedstrlen *)



(** *** fbuf_skip_quote_to *)





End AnyKernelQuotes.




(** ** Forward scans started outside the file *)

Section OutsideFile.

Variable file : list byte.
Variable mmap_ok : list syscall -> Z -> Z -> bool.
Variable s : machine.
Variable pos : Z.

Hypothesis pos_outside : ~ (0 <= pos < fsize (buf s)).
Hypothesis pos_long : - 2 ^ 63 <= pos <= INT64_MAX.

Lemma at_fails : fbuf_at file mmap_ok H_FBUF (int64 (pos + 0)) s = Some (-2, s).
Proof.
  rewrite Z.add_0_r, int64_id by exact pos_long.
  apply fbuf_at_outside_file. exact pos_outside.
Qed.

Lemma back_at_start : int64 (pos + 0) = pos.
Proof. rewrite Z.add_0_r. apply int64_id. exact pos_long. Qed.

Lemma skip_to_loop_outside (span : Z) (pat : list byte) (patlen : Z) :
  skip_to_loop file mmap_ok (Z.to_nat span) pos span pat patlen 0 s = Some (pos, s).
Proof.
  destruct (Z.to_nat span) eqn:E; cbn [skip_to_loop];
    destruct (Z.ltb_spec 0 span); try lia;
    unfold bind, ret; rewrite ?at_fails, ?back_at_start; reflexivity.
Qed.

Lemma skip_over_loop_outside (span : Z) (pat : list byte) (patlen : Z) :
  skip_over_loop file mmap_ok (Z.to_nat span) pos span pat patlen 0 s = Some (pos, s).
Proof.
  destruct (Z.to_nat span) eqn:E; cbn [skip_over_loop];
    destruct (Z.ltb_spec 0 span); try lia;
    unfold bind, ret; rewrite ?at_fails, ?back_at_start; reflexivity.
Qed.

Lemma skip_quote_to_loop_outside (span : Z) (pat : list byte) (patlen : Z) :
  skip_quote_to_loop file mmap_ok (Z.to_nat span) pos span pat patlen 0 s = Some (pos, s).
Proof.
  destruct (Z.to_nat span) eqn:E; cbn [skip_quote_to_loop];
    destruct (Z.ltb_spec 0 span); try lia;
    unfold bind, ret; rewrite ?at_fails, ?back_at_start; reflexivity.
Qed.

Lemma skip_esc_to_loop_outside (span : Z) (pat : list byte) (patlen : Z) :
  skip_esc_to_loop file mmap_ok (Z.to_nat span) pos span pat patlen 0 s = Some (pos, s).
Proof.
  destruct (Z.to_nat span) eqn:E; cbn [skip_esc_to_loop];
    destruct (Z.ltb_spec 0 span); try lia;
    unfold bind, ret; rewrite ?at_fails, ?back_at_start; reflexivity.
Qed.

End OutsideFile.

(** X12: a forward scanner started at a position outside [0, fsize),
    the end of the file included, returns that position at once and
    leaves the buffer and the kernel alone, whatever the delimiter set
    and the limit, in any state of the buffer. *)
Theorem forward_scans_outside_file
  (file : list byte) (mmap_ok : list syscall -> Z -> Z -> bool)
  (s : machine) (pos skiplimit : Z) (vpat : option (list byte)) (patlen : Z) :
  ~ (0 <= pos < fsize (buf s)) ->
  - 2 ^ 63 <= pos <= INT64_MAX ->
  fbuf_skip_to file mmap_ok H_FBUF pos skiplimit vpat patlen s = Some (pos, s) /\
  fbuf_skip_over file mmap_ok H_FBUF pos skiplimit vpat patlen s = Some (pos, s) /\
  fbuf_skip_quote_to file mmap_ok H_FBUF pos skiplimit vpat patlen s = Some (pos, s) /\
  fbuf_skip_esc_to file mmap_ok H_FBUF pos skiplimit vpat patlen s = Some (pos, s).
Proof.
  intros Hout Hlong.
  unfold fbuf_skip_to, fbuf_skip_over, fbuf_skip_quote_to, fbuf_skip_esc_to.
  destruct vpat as [pat|]; [|repeat split; reflexivity].
  destruct (patlen <=? 0); [repeat split; reflexivity|].
  unfold bind, get_buf.
  rewrite skip_to_loop_outside, skip_over_loop_outside, skip_quote_to_loop_outside,
    skip_esc_to_loop_outside by assumption.
  repeat split; reflexivity.
Qed.


(** * Path separators *)

Lemma strlen_lt (p : list byte) (n : nat) : strlen p = Some n -> (n < length p)%nat.
Proof.
  revert n. induction p as [|c r IH]; intros n H; [discriminate|].
  cbn [strlen] in H. destruct (byte_val c =? 0).
  - inversion H. cbn. lia.
  - destruct (strlen r) as [k|]; [|discriminate]. inversion H; subst.
    specialize (IH k eq_refl). cbn. lia.
Qed.

Lemma separator_loop_inv (from : Z) (to : byte) :
  forall (k : nat) (A B : list byte) (fuel : nat),
    (k <= length B)%nat -> (k <= fuel)%nat ->
    Z.of_nat (length A + k) <= INT_MAX ->
    separator_loop from to fuel (Z.of_nat (length A + k)) (Z.of_nat (length A)) (A ++ B)
    = Some (Z.of_nat (length A + k),
            A ++ map (swap_separator from to) (firstn k B) ++ skipn k B).
Proof.
  induction k as [|k IH]; intros A B fuel Hk Hfuel Hmax.
  - rewrite Nat.add_0_r.
    destruct fuel; cbn [separator_loop]; rewrite Z.ltb_irrefl; reflexivity.
  - destruct B as [|c X]; [cbn in Hk; lia|].
    destruct fuel as [|fuel]; [lia|].
    cbn [separator_loop].
    replace (Z.of_nat (length A) <? Z.of_nat (length A + S k)) with true
      by (symmetry; apply Z.ltb_lt; lia).
    rewrite Nat2Z.id, nth_error_app2, Nat.sub_diag by lia. cbn [nth_error].
    assert (Hst : (if byte_val c =? from then store (A ++ c :: X) (length A) to
                   else A ++ c :: X)
                  = (A ++ [swap_separator from to c]) ++ X).
    { unfold swap_separator, store. destruct (byte_val c =? from).
      - rewrite firstn_app, Nat.sub_diag, firstn_all, skipn_app.
        replace (S (length A) - length A)%nat with 1%nat by lia.
        rewrite skipn_all2 by lia. cbn. rewrite app_nil_r, <- app_assoc. reflexivity.
      - rewrite <- app_assoc. reflexivity. }
    rewrite Hst.
    rewrite int32_id by (unfold INT_MAX in *; lia).
    replace (Z.of_nat (length A) + 1) with (Z.of_nat (length (A ++ [swap_separator from to c])))
      by (rewrite length_app; cbn; lia).
    replace (Z.of_nat (length A + S k))
      with (Z.of_nat (length (A ++ [swap_separator from to c]) + k))
      by (rewrite length_app; cbn; lia).
    cbn [length] in Hk.
    rewrite IH by (try rewrite length_app; cbn [length]; lia).
    rewrite <- app_assoc. reflexivity.
Qed.

Lemma convert_separators_run (from : Z) (to : byte) (p : list byte) (len n : Z) :
  path_len p len n -> 0 < n <= Z.of_nat (length p) -> n <= INT_MAX ->
  convert_separators from to (Some p) len
  = Some (n, Some (with_separators from to (Z.to_nat n) p)).
Proof.
  intros Hlen Hn Hmax. unfold convert_separators.
  assert (Heff : (if len <? 0 then option_map (fun k => int32 (Z.of_nat k)) (strlen p)
                  else Some len) = Some n).
  { destruct Hlen as [(H0 & ->) | (Hneg & H0 & Hs)].
    - replace (len <? 0) with false by (symmetry; apply Z.ltb_ge; lia). reflexivity.
    - replace (len <? 0) with true by (symmetry; apply Z.ltb_lt; lia).
      rewrite Hs. cbn [option_map]. rewrite Z2Nat.id by lia.
      rewrite int32_id by (unfold INT_MAX in *; lia). reflexivity. }
  rewrite Heff.
  replace (n <=? 0) with false by (symmetry; apply Z.leb_gt; lia).
  pose proof (separator_loop_inv from to (Z.to_nat n) [] p (Z.to_nat n)) as H.
  cbn [length Nat.add app] in H. change (Z.of_nat 0) with 0 in H.
  rewrite Z2Nat.id in H by lia.
  rewrite H by lia. cbn [firstn app]. reflexivity.
Qed.

Lemma with_separators_length (from : Z) (to : byte) (n : nat) (p : list byte) :
  length (with_separators from to n p) = length p.
Proof.
  unfold with_separators. rewrite length_app, length_map, <- length_app, firstn_skipn.
  reflexivity.
Qed.

Lemma with_separators_strlen (from : Z) (to : byte) :
  from <> 0 -> byte_val to <> 0 ->
  forall (n : nat) (p : list byte),
    strlen (with_separators from to n p) = strlen p.
Proof.
  intros Hf Ht. unfold with_separators.
  induction n as [|n IH]; intro p; [reflexivity|].
  destruct p as [|c r]; [reflexivity|].
  cbn [firstn skipn map app strlen]. rewrite IH.
  unfold swap_separator. destruct (Z.eqb_spec (byte_val c) from) as [E|E].
  - replace (byte_val to =? 0) with false by (symmetry; apply Z.eqb_neq; exact Ht).
    replace (byte_val c =? 0) with false by (symmetry; apply Z.eqb_neq; lia).
    reflexivity.
  - reflexivity.
Qed.

Lemma with_separators_twice (f1 f2 : Z) (t1 t2 : byte) (n : nat) (p : list byte) :
  (n <= length p)%nat ->
  with_separators f2 t2 n (with_separators f1 t1 n p)
  = map (fun c => swap_separator f2 t2 (swap_separator f1 t1 c)) (firstn n p) ++ skipn n p.
Proof.
  intro Hn. unfold with_separators.
  assert (Hl : length (map (swap_separator f1 t1) (firstn n p)) = n)
    by (rewrite length_map, length_firstn; lia).
  assert (E1 : firstn n (map (swap_separator f1 t1) (firstn n p))
               = map (swap_separator f1 t1) (firstn n p))
    by (apply firstn_all2; rewrite Hl; lia).
  assert (E2 : skipn n (map (swap_separator f1 t1) (firstn n p)) = [])
    by (apply skipn_all2; rewrite Hl; lia).
  rewrite firstn_app, skipn_app, Hl, Nat.sub_diag, E1, E2.
  cbn [firstn skipn app]. rewrite app_nil_r, map_map. reflexivity.
Qed.

Lemma in_firstn_in {A} (n : nat) (l : list A) (x : A) : In x (firstn n l) -> In x l.
Proof. intro H. rewrite <- (firstn_skipn n l). apply in_or_app. left; exact H. Qed.

Lemma with_separators_clean (from : Z) (to : byte) (n : nat) (p : list byte) :
  byte_val to <> from ->
  forall c, In c (firstn n (with_separators from to n p)) -> byte_val c <> from.
Proof.
  intros Hto c Hin. unfold with_separators in Hin.
  destruct (Nat.le_gt_cases n (length p)) as [Hn|Hn].
  - rewrite firstn_app in Hin.
    assert (Hl : length (map (swap_separator from to) (firstn n p)) = n)
      by (rewrite length_map, length_firstn; lia).
    rewrite Hl, Nat.sub_diag in Hin. cbn [firstn] in Hin. rewrite app_nil_r in Hin.
    apply in_firstn_in in Hin. apply in_map_iff in Hin. destruct Hin as (d & <- & _).
    unfold swap_separator. destruct (Z.eqb_spec (byte_val d) from); assumption.
  - rewrite skipn_all2, app_nil_r in Hin by lia.
    apply in_firstn_in in Hin. apply in_map_iff in Hin. destruct Hin as (d & <- & _).
    unfold swap_separator. destruct (Z.eqb_spec (byte_val d) from); assumption.
Qed.

(** X13: [WinPath2UnixPath] answers -1 for a null path and -2, leaving
    the path alone, when the length it works with is 0 (an explicit 0,
    or an empty string with a negative [len]).  Otherwise, with [n] that
    length, it returns [n] and has replaced every backslash among the
    first [n] bytes by a slash and nothing else: the array keeps its
    length, the string keeps its length, and no backslash is left among
    the first [n] bytes. *)
Theorem WinPath2UnixPath_effect (p : list byte) (len n : Z) :
  WinPath2UnixPath None len = Some (-1, None) /\
  (path_len p len 0 -> WinPath2UnixPath (Some p) len = Some (-2, Some p)) /\
  (path_len p len n -> 0 < n <= Z.of_nat (length p) -> n <= INT_MAX ->
   let q := with_separators ch_backslash byte_slash (Z.to_nat n) p in
   WinPath2UnixPath (Some p) len = Some (n, Some q) /\
   length q = length p /\
   strlen q = strlen p /\
   (forall c, In c (firstn (Z.to_nat n) q) -> byte_val c <> ch_backslash) /\
   (forall j c, nth_error p j = Some c -> byte_val c <> ch_backslash ->
                nth_error q j = Some c)).
Proof.
  split; [reflexivity|]. split.
  - intros [(H0 & Hn) | (Hneg & _ & Hs)]; unfold WinPath2UnixPath, convert_separators.
    + subst len. reflexivity.
    + replace (len <? 0) with true by (symmetry; apply Z.ltb_lt; lia).
      rewrite Hs. reflexivity.
  - intros Hlen Hn Hmax q.
    split; [apply convert_separators_run; assumption|].
    split; [apply with_separators_length|].
    split; [apply with_separators_strlen; discriminate|].
    split; [apply with_separators_clean; discriminate|].
    intros j c Hj Hc. subst q. unfold with_separators.
    destruct (Nat.lt_ge_cases j (Z.to_nat n)) as [Hlt|Hge].
    + rewrite nth_error_app1 by (rewrite length_map, length_firstn; lia).
      rewrite nth_error_map, nth_error_firstn.
      replace (j <? Z.to_nat n)%nat with true by (symmetry; apply Nat.ltb_lt; lia).
      rewrite Hj. cbn [option_map]. unfold swap_separator.
      replace (byte_val c =? ch_backslash) with false by (symmetry; apply Z.eqb_neq; exact Hc).
      reflexivity.
    + rewrite nth_error_app2 by (rewrite length_map, length_firstn; lia).
      rewrite length_map, length_firstn, nth_error_skipn.
      replace (Z.to_nat n + (j - Nat.min (Z.to_nat n) (length p)))%nat with j by lia.
      exact Hj.
Qed.


Lemma with_separators_nth (from : Z) (to : byte) (n : nat) (p : list byte) (j : nat) :
  (n <= length p)%nat ->
  nth_error (with_separators from to n p) j
  = if (j <? n)%nat then option_map (swap_separator from to) (nth_error p j)
    else nth_error p j.
Proof.
  intro Hn. unfold with_separators.
  destruct (Nat.ltb_spec j n) as [Hlt|Hge].
  - rewrite nth_error_app1 by (rewrite length_map, length_firstn; lia).
    rewrite nth_error_map, nth_error_firstn.
    replace (j <? n)%nat with true by (symmetry; apply Nat.ltb_lt; lia). reflexivity.
  - rewrite nth_error_app2 by (rewrite length_map, length_firstn; lia).
    rewrite length_map, length_firstn, nth_error_skipn. f_equal. lia.
Qed.

(** X14: the two conversions undo each other only in part.  With [n]
    the length they work with, [WinPath2UnixPath] leaves [q], the path
    with every backslash among the first [n] bytes replaced by a
    slash, and [UnixPath2WinPath] leaves [w], the path with every
    slash among them replaced by a backslash: no slash is left among
    the first [n] bytes of [w], each slash there has become a
    backslash, every other byte is in its place and the bytes from
    the [n]-th on are as they were.
    [UnixPath2WinPath] after [WinPath2UnixPath] gives [w] as well, and
    [w] is the original path if and only if there was no slash among
    its first [n] bytes.  Either conversion done twice is the
    conversion done once. *)
Theorem separators_round_trip (p : list byte) (len n : Z) :
  path_len p len n -> 0 < n <= Z.of_nat (length p) -> n <= INT_MAX ->
  let q := with_separators ch_backslash byte_slash (Z.to_nat n) p in
  let w := with_separators ch_slash byte_backslash (Z.to_nat n) p in
  WinPath2UnixPath (Some p) len = Some (n, Some q) /\
  UnixPath2WinPath (Some p) len = Some (n, Some w) /\
  (forall c, In c (firstn (Z.to_nat n) w) -> byte_val c <> ch_slash) /\
  (forall j c, (j < Z.to_nat n)%nat -> nth_error p j = Some c ->
               byte_val c = ch_slash -> nth_error w j = Some byte_backslash) /\
  (forall j c, nth_error p j = Some c -> byte_val c <> ch_slash ->
               nth_error w j = Some c) /\
  (forall j, (Z.to_nat n <= j)%nat -> nth_error w j = nth_error p j) /\
  length w = length p /\
  UnixPath2WinPath (Some q) len = Some (n, Some w) /\
  WinPath2UnixPath (Some q) len = Some (n, Some q) /\
  UnixPath2WinPath (Some w) len = Some (n, Some w) /\
  (w = p <-> forall c, In c (firstn (Z.to_nat n) p) -> byte_val c <> ch_slash).
Proof.
  intros Hlen Hn Hmax q w.
  assert (Hlq : path_len q len n).
  { destruct Hlen as [H|(H1 & H2 & H3)]; [left; exact H|]. right. split; [exact H1|].
    split; [exact H2|]. subst q. rewrite with_separators_strlen by discriminate. exact H3. }
  assert (Hlw : path_len w len n).
  { destruct Hlen as [H|(H1 & H2 & H3)]; [left; exact H|]. right. split; [exact H1|].
    split; [exact H2|]. subst w. rewrite with_separators_strlen by discriminate. exact H3. }
  assert (Hq : length q = length p) by apply with_separators_length.
  assert (Hw : length w = length p) by apply with_separators_length.
  assert (Hclean : forall c, In c (firstn (Z.to_nat n) w) -> byte_val c <> ch_slash)
    by (apply with_separators_clean; discriminate).
  assert (Hmap : forall f g : byte -> byte,
             (forall c, In c (firstn (Z.to_nat n) p) -> f c = g c) ->
             map f (firstn (Z.to_nat n) p) = map g (firstn (Z.to_nat n) p))
    by (intros f g H; apply map_ext_in; exact H).
  assert (Hsame : (forall c, In c (firstn (Z.to_nat n) p) -> byte_val c <> ch_slash) ->
                  w = p).
  { intro Hno. subst w. unfold with_separators.
    rewrite <- (firstn_skipn (Z.to_nat n) p) at 3. f_equal.
    rewrite <- (map_id (firstn (Z.to_nat n) p)) at 2. apply Hmap. intros c Hc.
    unfold swap_separator.
    replace (byte_val c =? ch_slash) with false
      by (symmetry; apply Z.eqb_neq, Hno; exact Hc).
    reflexivity. }
  split; [apply convert_separators_run; assumption|].
  split; [apply convert_separators_run; assumption|].
  split; [exact Hclean|].
  split.
  { intros j c Hj Hc Hs. subst w. rewrite with_separators_nth by lia.
    replace (j <? Z.to_nat n)%nat with true by (symmetry; apply Nat.ltb_lt; lia).
    rewrite Hc. cbn [option_map]. unfold swap_separator.
    apply Z.eqb_eq in Hs. rewrite Hs. reflexivity. }
  split.
  { intros j c Hc Hs. subst w. rewrite with_separators_nth by lia.
    destruct (j <? Z.to_nat n)%nat; [|exact Hc].
    rewrite Hc. cbn [option_map]. unfold swap_separator.
    replace (byte_val c =? ch_slash) with false by (symmetry; apply Z.eqb_neq; exact Hs).
    reflexivity. }
  split.
  { intros j Hj. subst w. rewrite with_separators_nth by lia.
    replace (j <? Z.to_nat n)%nat with false by (symmetry; apply Nat.ltb_ge; lia).
    reflexivity. }
  split; [exact Hw|].
  unfold WinPath2UnixPath, UnixPath2WinPath.
  rewrite (convert_separators_run ch_slash byte_backslash q len n Hlq) by lia.
  rewrite (convert_separators_run ch_backslash byte_slash q len n Hlq) by lia.
  rewrite (convert_separators_run ch_slash byte_backslash w len n Hlw) by lia.
  split; [|split; [|split]].
  - subst q w. rewrite !with_separators_twice by lia.
    do 3 f_equal. unfold with_separators. f_equal. apply Hmap. intros c _.
    unfold swap_separator at 2.
    destruct (Z.eqb_spec (byte_val c) ch_backslash) as [E|E]; [|reflexivity].
    apply (byte_val_inj c byte_backslash) in E. subst c. reflexivity.
  - subst q. rewrite !with_separators_twice by lia.
    do 3 f_equal. unfold with_separators. f_equal. apply Hmap. intros c _.
    unfold swap_separator at 2.
    destruct (Z.eqb_spec (byte_val c) ch_backslash) as [E|E]; [|reflexivity].
    apply (byte_val_inj c byte_backslash) in E. subst c. reflexivity.
  - subst w. rewrite !with_separators_twice by lia.
    do 3 f_equal. unfold with_separators. f_equal. apply Hmap. intros c _.
    unfold swap_separator at 2.
    destruct (Z.eqb_spec (byte_val c) ch_slash) as [E|E]; [|reflexivity].
    apply (byte_val_inj c byte_slash) in E. subst c. reflexivity.
  - split; [|exact Hsame].
    intros E c Hc. apply Hclean. rewrite E. exact Hc.
Qed.

(** * file_mmap *)

Lemma uint64_id (z : Z) : 0 <= z < 2 ^ 64 -> uint64 z = z.
Proof. intro H. unfold uint64. apply Z.mod_small. exact H. Qed.

Lemma uint64_wrapped (z : Z) : 2 ^ 64 <= z < 2 * 2 ^ 64 -> uint64 z = z - 2 ^ 64.
Proof.
  intro H. unfold uint64.
  replace z with ((z - 2 ^ 64) + 1 * 2 ^ 64) at 1 by lia.
  rewrite Z.mod_add by (intro E; discriminate E). apply Z.mod_small. lia.
Qed.

(** Clearing the low bits of an offset rounds it down to a page. *)
Lemma page_align (a k : Z) :
  0 <= k -> Z.land a (Z.lnot (2 ^ k - 1)) = a / 2 ^ k * 2 ^ k.
Proof.
  intro Hk. rewrite <- Z.ldiff_land.
  replace (2 ^ k - 1) with (Z.ones k) by (rewrite Z.ones_equiv; lia).
  rewrite Z.ldiff_ones_r, Z.shiftl_mul_pow2, Z.shiftr_div_pow2 by lia. reflexivity.
Qed.

(** What [file_mmap] asks the kernel for and answers, once the guards
    are passed and the page is computed: [maplen0] is the length
    before the comparison with the file size. *)
Lemma file_mmap_request
  (size k : Z) (grant : Z -> Z -> bool) (fd offset length : Z) (wp wl wo : bool) :
  0 <= k < 62 -> fd <> 0 -> 0 <= offset < size -> size <= INT64_MAX -> 0 < length ->
  let ps := 2 ^ k in
  let pa := offset / ps * ps in
  let maplen0 := uint64 (length + offset - pa) in
  let maplen := if uint64 (pa + maplen0) >? size then size - pa else maplen0 in
  (pa mod ps = 0 /\ 0 <= pa <= offset /\ offset < pa + ps) /\
  file_mmap ps (Some size) grant fd offset length wp wl wo
  = if grant maplen pa
    then (Mapping pa maplen (offset - pa),
          if wp then Some (Mapping pa maplen 0) else None,
          if wl then Some maplen else None,
          if wo then Some pa else None)
    else (NULL, None, None, None).
Proof.
  intros Hk Hfd Hoff Hfit Hlen ps pa maplen0 maplen.
  assert (Hps : 0 < ps) by (subst ps; apply Z.pow_pos_nonneg; lia).
  assert (Hps62 : ps < 2 ^ 62) by (subst ps; apply Z.pow_lt_mono_r; lia).
  destruct (page_floor_bounds offset ps) as (_ & Hpa & Hpa2); try lia. fold pa in Hpa, Hpa2.
  assert (Hmod : pa mod ps = 0) by (subst pa; apply Z.mod_mul; lia).
  assert (H62 : 2 ^ 62 < 2 ^ 63) by reflexivity.
  assert (H64 : 2 ^ 64 = 2 * 2 ^ 63) by reflexivity.
  assert (H63 : 0 < 2 ^ 63) by reflexivity.
  unfold INT64_MAX in *.
  split; [split; [exact Hmod|lia]|].
  unfold file_mmap.
  replace (fd =? 0) with false by (symmetry; apply Z.eqb_neq; exact Hfd).
  replace (length <=? 0) with false by (symmetry; apply Z.leb_gt; lia).
  replace (offset >=? size) with false
    by (symmetry; rewrite Z.geb_leb; apply Z.leb_gt; lia).
  rewrite (int64_id ps) by (unfold INT64_MAX; lia).
  rewrite (int64_id (ps - 1)) by (unfold INT64_MAX; lia).
  subst ps. rewrite page_align by lia. fold pa. fold maplen0.
  rewrite (uint64_id size) by lia.
  rewrite (uint64_id (size - pa)) by lia.
  fold maplen.
  destruct (grant maplen pa); [|reflexivity].
  cbn [ptr_add]. rewrite Z.add_0_l. reflexivity.
Qed.

(** X15: [file_mmap] for a page size [2 ^ k] with [k < 62], a
    descriptor other than 0, an offset inside the file and a length
    [0 < length < 2 ^ 64], the range of [size_t].  The window starts
    at [pa], the offset rounded down to a page.  When
    [offset + length < 2 ^ 64], the window asked for ends where the
    requested range ends or the file ends, whichever comes first, and
    never passes the end of the file; when it is granted the pointer
    returned shows the file from [offset] on: the
    [min length (size - offset)] bytes behind it are the bytes of the
    file.  When [offset + length] reaches [2 ^ 64] the unsigned
    arithmetic wraps: the length asked for is [length + offset - pa]
    taken modulo [2 ^ 64], which either passes the end of the file or
    is shorter than [offset - pa], so that the pointer returned lies
    past the window.  With descriptor 0, a failed [fstat], a length of
    0, an offset at or past the end, or a refused request the answer
    is null and nothing is stored. *)
Theorem file_mmap_window
  (file : list byte) (k : Z) (grant : Z -> Z -> bool)
  (fd offset length : Z) (wp wl wo : bool) :
  0 <= k < 62 ->
  fd <> 0 ->
  Z.of_nat (List.length file) <= INT64_MAX ->
  0 <= offset < Z.of_nat (List.length file) ->
  0 < length < 2 ^ 64 ->
  let size := Z.of_nat (List.length file) in
  let ps := 2 ^ k in
  let pa := offset / ps * ps in
  let answer (maplen : Z) :=
    if grant maplen pa
    then (Mapping pa maplen (offset - pa),
          if wp then Some (Mapping pa maplen 0) else None,
          if wl then Some maplen else None,
          if wo then Some pa else None)
    else (NULL, None, None, None) in
  (pa mod ps = 0 /\ 0 <= pa <= offset /\ offset < pa + ps) /\
  (offset + length < 2 ^ 64 ->
   let n := Z.min length (size - offset) in
   let maplen := n + (offset - pa) in
   0 < n /\ pa + maplen <= size /\
   file_mmap ps (Some size) grant fd offset length wp wl wo = answer maplen /\
   forall s, read_bytes file (Mapping pa maplen (offset - pa)) 0 (Z.to_nat n) s
             = Some (map byte_val (file_bytes file offset n), s)) /\
  (2 ^ 64 <= offset + length ->
   let sum := length + offset - pa in
   let maplen := if sum <? 2 ^ 64 then sum else sum - 2 ^ 64 in
   file_mmap ps (Some size) grant fd offset length wp wl wo = answer maplen /\
   (sum < 2 ^ 64 -> size < pa + maplen) /\
   (2 ^ 64 <= sum -> maplen < offset - pa)) /\
  file_mmap ps (Some size) grant 0 offset length wp wl wo = (NULL, None, None, None) /\
  file_mmap ps None grant fd offset length wp wl wo = (NULL, None, None, None) /\
  file_mmap ps (Some size) grant fd offset 0 wp wl wo = (NULL, None, None, None) /\
  (forall beyond, size <= beyond ->
     file_mmap ps (Some size) grant fd beyond length wp wl wo = (NULL, None, None, None)).
Proof.
  intros Hk Hfd Hfit Hoff Hlen size ps pa answer.
  destruct (file_mmap_request size k grant fd offset length wp wl wo Hk Hfd Hoff Hfit
              ltac:(lia)) as ((Hmod & Hpa) & Hrun).
  fold ps pa in Hmod, Hpa, Hrun.
  assert (H64 : 2 ^ 64 = 2 * 2 ^ 63) by reflexivity.
  assert (H63 : 0 < 2 ^ 63) by reflexivity.
  unfold INT64_MAX in *.
  split; [split; [exact Hmod|lia]|].
  split; [|split; [|split; [|split; [|split]]]].
  - intros Hsum.
    set (n := Z.min length (size - offset)). set (maplen := n + (offset - pa)).
    assert (Hm : (if uint64 (pa + uint64 (length + offset - pa)) >? size
                  then size - pa else uint64 (length + offset - pa)) = maplen).
    { rewrite (uint64_id (length + offset - pa)) by lia.
      rewrite (uint64_id (pa + (length + offset - pa))) by lia.
      subst maplen n.
      destruct (Z.gtb_spec (pa + (length + offset - pa)) size); lia. }
    rewrite Hm in Hrun.
    split; [subst n size; lia|]. split; [subst maplen n; lia|].
    split; [exact Hrun|].
    intro s. rewrite read_bytes_disp, read_bytes_mapping by (subst maplen n size; lia).
    rewrite Z.add_0_r, Z2Nat.id by (subst n size; lia).
    replace (pa + (offset - pa)) with offset by lia. reflexivity.
  - intros Hsum.
    set (sum := length + offset - pa).
    set (maplen := if sum <? 2 ^ 64 then sum else sum - 2 ^ 64).
    destruct (Z.ltb_spec sum (2 ^ 64)) as [Hlt|Hge].
    + assert (Hm : (if uint64 (pa + uint64 (length + offset - pa)) >? size
                    then size - pa else uint64 (length + offset - pa)) = maplen).
      { fold sum. rewrite (uint64_id sum) by (subst sum; lia).
        rewrite (uint64_wrapped (pa + sum)) by (subst sum; lia).
        subst maplen.
        destruct (Z.gtb_spec (pa + sum - 2 ^ 64) size); [subst sum; lia|reflexivity]. }
      rewrite Hm in Hrun. split; [exact Hrun|]. split; [subst maplen sum; lia|lia].
    + assert (Hm : (if uint64 (pa + uint64 (length + offset - pa)) >? size
                    then size - pa else uint64 (length + offset - pa)) = maplen).
      { fold sum. rewrite (uint64_wrapped sum) by (subst sum; lia).
        rewrite (uint64_id (pa + (sum - 2 ^ 64))) by (subst sum; lia).
        subst maplen.
        destruct (Z.gtb_spec (pa + (sum - 2 ^ 64)) size); [subst sum; lia|reflexivity]. }
      rewrite Hm in Hrun. split; [exact Hrun|]. split; [lia|subst maplen sum; lia].
  - reflexivity.
  - unfold file_mmap. destruct (fd =? 0); reflexivity.
  - unfold file_mmap. destruct (fd =? 0); reflexivity.
  - intros beyond Hb. unfold file_mmap. destruct (fd =? 0); [reflexivity|].
    destruct (length <=? 0); [reflexivity|].
    replace (beyond >=? size) with true
      by (symmetry; rewrite Z.geb_leb; apply Z.leb_le; lia).
    reflexivity.
Qed.

(** * Descriptor input and output *)

Lemma moved_bounds (n request avail : Z) :
  0 <= request -> 0 <= avail -> 0 <= moved n request avail <= Z.min request avail.
Proof. unfold moved. lia. Qed.

Lemma moved_productive (n request avail : Z) :
  1 <= n -> 0 < request -> 0 < avail -> 1 <= moved n request avail.
Proof. unfold moved. lia. Qed.

Lemma moved_stalled (n request avail : Z) : n <= 0 -> moved n request avail = 0.
Proof. unfold moved. lia. Qed.

Lemma retried_benign (e : Z) :
  (e =? EINTR) || (e =? EAGAIN) = false -> ~ benign (Errno e).
Proof.
  intros H [E|E]; subst e; discriminate H.
Qed.

Lemma busy_retried (e : Z) :
  e = EINTR \/ e = EAGAIN -> (e =? EINTR) || (e =? EAGAIN) = true.
Proof. intros [E|E]; subst e; reflexivity. Qed.

Lemma store_at_done (done tail data : list byte) :
  store_at (done ++ tail) (Z.of_nat (List.length done)) data
  = done ++ data ++ skipn (List.length data) tail.
Proof.
  unfold store_at. rewrite Nat2Z.id.
  rewrite firstn_app, Nat.sub_diag, firstn_all, firstn_O, app_nil_r.
  rewrite skipn_app, (skipn_all2 done) by lia.
  replace (List.length done + List.length data - List.length done)%nat
    with (List.length data) by lia.
  reflexivity.
Qed.

(** ** filefd_read *)

Lemma filefd_read_loop_run (size : Z) :
  0 <= size <= INT_MAX ->
  forall (script : list reply) (done tail input : list byte) (out : read_result),
    Z.of_nat (List.length done) <= size ->
    size - Z.of_nat (List.length done) <= Z.of_nat (List.length tail) ->
    filefd_read_loop size script (Z.of_nat (List.length done)) (done ++ tail) input
    = Some out ->
    exists (r : Z) (n : nat) (rest : list reply),
      out = (r, Some (done ++ firstn n input ++ skipn n tail), skipn n input, rest) /\
      (n <= List.length input)%nat /\
      Z.of_nat n <= size - Z.of_nat (List.length done) /\
      (r = -100 \/ r = Z.of_nat (List.length done) + Z.of_nat n) /\
      (Forall benign script -> r <> -100) /\
      (Forall productive script ->
       r = -100 \/
       Z.of_nat n = Z.min (size - Z.of_nat (List.length done))
                          (Z.of_nat (List.length input))).
Proof.
  intros Hsize. unfold INT_MAX in Hsize.
  assert (Hstop : forall (script : list reply) (done tail input : list byte) out,
             Z.of_nat (List.length done) <= size ->
             size <= Z.of_nat (List.length done) ->
             Some (Z.of_nat (List.length done), Some (done ++ tail), input, script)
             = Some out ->
             exists (r : Z) (n : nat) (rest : list reply),
               out = (r, Some (done ++ firstn n input ++ skipn n tail),
                      skipn n input, rest) /\
               (n <= List.length input)%nat /\
               Z.of_nat n <= size - Z.of_nat (List.length done) /\
               (r = -100 \/ r = Z.of_nat (List.length done) + Z.of_nat n) /\
               (Forall benign script -> r <> -100) /\
               (Forall productive script ->
                r = -100 \/
                Z.of_nat n = Z.min (size - Z.of_nat (List.length done))
                                   (Z.of_nat (List.length input)))).
  { intros script done tail input out Hle Hge E. inversion E; subst out.
    exists (Z.of_nat (List.length done)), 0%nat, script. cbn.
    repeat split; lia. }
  induction script as [|[n0|e] rest IH]; intros done tail input out Hlen Htail;
    cbn [filefd_read_loop];
    destruct (Z.ltb_spec (Z.of_nat (List.length done)) size) as [Hlt|Hge];
    try (apply Hstop; lia).
  - discriminate.
  - pose proof (moved_bounds n0 (size - Z.of_nat (List.length done))
                  (Z.of_nat (List.length input)) ltac:(lia) ltac:(lia)) as Hm.
    set (m := moved n0 (size - Z.of_nat (List.length done))
                (Z.of_nat (List.length input))) in *.
    rewrite (int32_id m) by (unfold INT_MAX; lia).
    assert (Hfl : List.length (firstn (Z.to_nat m) input) = Z.to_nat m)
      by (rewrite length_firstn; lia).
    destruct (Z.eqb_spec m 0) as [E0|Hne].
    + intro E. inversion E; subst out.
      exists (Z.of_nat (List.length done)), 0%nat, rest.
      rewrite store_at_done, E0. cbn.
      split; [reflexivity|]. split; [lia|]. split; [lia|]. split; [right; lia|].
      split; [lia|]. intro F. right. inversion F as [|? ? P _]; subst. cbn in P.
      destruct (Z.eq_dec (Z.of_nat (List.length input)) 0) as [Z0|Z0]; [lia|].
      pose proof (moved_productive n0 (size - Z.of_nat (List.length done))
                    (Z.of_nat (List.length input)) P ltac:(lia) ltac:(lia)).
      fold m in H. lia.
    + rewrite store_at_done, Hfl.
      rewrite (int32_id (Z.of_nat (List.length done) + m)) by (unfold INT_MAX; lia).
      replace (Z.of_nat (List.length done) + m)
        with (Z.of_nat (List.length (done ++ firstn (Z.to_nat m) input)))
        by (rewrite length_app, Hfl; lia).
      rewrite app_assoc. intro E.
      destruct (IH (done ++ firstn (Z.to_nat m) input)
                   (skipn (Z.to_nat m) tail) (skipn (Z.to_nat m) input) out)
        as (r & n & rest' & Hout & Hn & Hn2 & Hr & Hb & Hp).
      { rewrite length_app, Hfl. lia. }
      { rewrite length_app, Hfl, length_skipn. lia. }
      { exact E. }
      rewrite length_app, Hfl in Hn2, Hr, Hp. rewrite length_skipn in Hn, Hp.
      exists r, (Z.to_nat m + n)%nat, rest'.
      split.
      { rewrite Hout, firstn_add_split, !skipn_skipn, <- !app_assoc.
        rewrite (Nat.add_comm n). reflexivity. }
      split; [lia|]. split; [lia|]. split; [destruct Hr; [left; assumption|right; lia]|].
      split; [intro F; apply Hb; inversion F; assumption|].
      intro F. inversion F as [|? ? _ F']; subst.
      destruct (Hp F') as [Hp'|Hp']; [left; exact Hp'|right; lia].
  - destruct ((e =? EINTR) || (e =? EAGAIN)) eqn:R.
    + intro E. destruct (IH done tail input out Hlen Htail E)
        as (r & n & rest' & Hout & Hn & Hn2 & Hr & Hb & Hp).
      exists r, n, rest'. repeat split; auto.
      * intro F. inversion F. auto.
      * intro F. inversion F. auto.
    + intro E. inversion E; subst out. exists (-100), 0%nat, rest. cbn.
      split; [reflexivity|]. split; [lia|]. split; [lia|]. split; [left; reflexivity|].
      split; [|left; reflexivity].
      intro F. inversion F as [|? ? B]. exfalso. exact (retried_benign e R B).
Qed.

Lemma filefd_read_loop_returns (size : Z) :
  0 <= size <= INT_MAX ->
  forall (script : list reply) (len : Z) (pbuf input : list byte),
    0 <= len <= size ->
    Forall benign script -> Forall productive script ->
    Z.min (size - len) (Z.of_nat (List.length input)) < answers script ->
    filefd_read_loop size script len pbuf input <> None.
Proof.
  intros Hsize. unfold INT_MAX in Hsize.
  induction script as [|[n0|e] rest IH]; intros len pbuf input Hlen Fb Fp Hans;
    cbn [filefd_read_loop answers] in *;
    destruct (Z.ltb_spec len size) as [Hlt|Hge]; try discriminate.
  - lia.
  - inversion Fb as [|? ? _ Fb']; inversion Fp as [|? ? P Fp']; subst. cbn in P.
    pose proof (moved_bounds n0 (size - len) (Z.of_nat (List.length input))
                  ltac:(lia) ltac:(lia)) as Hm.
    set (m := moved n0 (size - len) (Z.of_nat (List.length input))) in *.
    rewrite (int32_id m) by (unfold INT_MAX; lia).
    destruct (Z.eqb_spec m 0) as [E0|Hne]; [discriminate|].
    rewrite (int32_id (len + m)) by (unfold INT_MAX; lia).
    apply IH; [lia|exact Fb'|exact Fp'|].
    rewrite length_skipn. lia.
  - inversion Fb as [|? ? B Fb']; inversion Fp as [|? ? _ Fp']; subst.
    destruct ((e =? EINTR) || (e =? EAGAIN)) eqn:R; [|discriminate].
    apply IH; assumption.
Qed.

Lemma filefd_read_loop_busy (size : Z) :
  forall (script : list reply) (len : Z) (pbuf input : list byte),
    len < size -> Forall busy script ->
    filefd_read_loop size script len pbuf input = None.
Proof.
  induction script as [|[n0|e] rest IH]; intros len pbuf input Hlen F;
    cbn [filefd_read_loop];
    replace (len <? size) with true by (symmetry; apply Z.ltb_lt; exact Hlen).
  - reflexivity.
  - inversion F as [|? ? B _]. destruct B.
  - inversion F as [|? ? B F']; subst. cbn in B. rewrite (busy_retried e B).
    apply IH; assumption.
Qed.

(** X16: [filefd_read] with a valid descriptor, a buffer of at least
    [size] bytes and [0 <= size], against any sequence of replies of
    [read].  Whenever it returns, what it consumed from the input is
    what it put at the start of the buffer, in order, leaving the rest
    of the buffer alone; the value is -100 or the number of bytes
    read, which is at most the smaller of [size] and what the input
    holds; it is not -100 when [read] fails only with [EINTR] or
    [EAGAIN], and it is that smaller number or -100 when [read] never
    answers 0 while input is left.  It returns only if the kernel lets
    it: as long as [read] fails with [EINTR] or [EAGAIN] the loop
    calls again, without any bound, so with [0 < size] it has not
    returned after any number of such replies.  When [read] fails
    only with [EINTR] or [EAGAIN], never answers 0 while input is
    left, and has succeeded more often than that smaller number, the
    function has returned, and the result is that number: a short
    count only means end of input. *)
Theorem filefd_read_fills_buffer
  (fd : Z) (b input : list byte) (size : Z) :
  0 <= fd -> 0 <= size <= INT_MAX -> size <= Z.of_nat (List.length b) ->
  let full := Z.min size (Z.of_nat (List.length input)) in
  (forall (script : list reply) (out : read_result),
     filefd_read fd (Some b) size input script = Some out ->
     exists (r : Z) (n : nat) (rest : list reply),
       out = (r, Some (firstn n input ++ skipn n b), skipn n input, rest) /\
       Z.of_nat n <= full /\
       (r = -100 \/ r = Z.of_nat n) /\
       (Forall benign script -> r = Z.of_nat n) /\
       (Forall productive script -> r = -100 \/ r = full)) /\
  (0 < size ->
   forall script : list reply,
     Forall busy script -> filefd_read fd (Some b) size input script = None) /\
  (forall script : list reply,
     Forall benign script -> Forall productive script -> full < answers script ->
     exists rest : list reply,
       filefd_read fd (Some b) size input script
       = Some (full,
               Some (firstn (Z.to_nat full) input ++ skipn (Z.to_nat full) b),
               skipn (Z.to_nat full) input, rest)).
Proof.
  intros Hfd Hsize Hb full.
  assert (Hrun : forall script,
             filefd_read fd (Some b) size input script
             = filefd_read_loop size script 0 b input).
  { intro script. unfold filefd_read.
    replace (fd <? 0) with false by (symmetry; apply Z.ltb_ge; exact Hfd).
    replace (size <? 0) with false by (symmetry; apply Z.ltb_ge; lia).
    reflexivity. }
  assert (Hsafe : forall (script : list reply) (out : read_result),
     filefd_read fd (Some b) size input script = Some out ->
     exists (r : Z) (n : nat) (rest : list reply),
       out = (r, Some (firstn n input ++ skipn n b), skipn n input, rest) /\
       Z.of_nat n <= full /\
       (r = -100 \/ r = Z.of_nat n) /\
       (Forall benign script -> r = Z.of_nat n) /\
       (Forall productive script -> r = -100 \/ r = full)).
  { intros script out E. rewrite Hrun in E.
    destruct (filefd_read_loop_run size Hsize script [] b input out)
      as (r & n & rest & Hout & Hn & Hn2 & Hr & Hben & Hp);
      cbn [List.length app Z.of_nat] in *; try lia; [exact E|].
    exists r, n, rest. split; [exact Hout|]. split; [subst full; lia|].
    split; [destruct Hr; [left; assumption|right; lia]|].
    split.
    - intro F. specialize (Hben F). destruct Hr; [contradiction|lia].
    - intro F. destruct (Hp F) as [Hp'|Hp']; [left; exact Hp'|].
      destruct Hr as [Hr|Hr]; [left; exact Hr|right; subst full; lia]. }
  split; [exact Hsafe|]. split.
  - intros Hpos script F. rewrite Hrun. apply filefd_read_loop_busy; assumption.
  - intros script Fb Fp Hans.
    destruct (filefd_read fd (Some b) size input script) as [out|] eqn:E.
    + destruct (Hsafe script out E) as (r & n & rest & Hout & Hn & Hr & Hben & Hp).
      specialize (Hben Fb). destruct (Hp Fp) as [Hp'|Hp'].
      * exfalso. lia.
      * exists rest. subst out. assert (n = Z.to_nat full) by lia. subst n.
        rewrite Hp'. reflexivity.
    + exfalso. rewrite Hrun in E. revert E.
      apply filefd_read_loop_returns; try assumption; [lia|].
      rewrite Z.sub_0_r. exact Hans.
Qed.

(** ** filefd_write *)

Lemma filefd_write_loop_run (size : Z) (pbuf : list byte) :
  0 <= size <= INT_MAX ->
  forall (script : list reply) (len : Z) (sink : list byte) (out : write_result),
    0 <= len <= size ->
    filefd_write_loop size script len pbuf sink = Some out ->
    exists (r n : Z) (rest : list reply),
      out = (r, sink ++ file_bytes pbuf len n, rest) /\
      0 <= n <= size - len /\
      (r = -100 \/ (r = size /\ n = size - len)) /\
      (Forall benign script -> r = size).
Proof.
  intros Hsize. unfold INT_MAX in Hsize.
  induction script as [|[n0|e] rest IH]; intros len sink out Hlen;
    cbn [filefd_write_loop];
    destruct (Z.ltb_spec len size) as [Hlt|Hge];
    try (intro E; inversion E; subst out;
         exists len, 0, (@nil reply); rewrite file_bytes_nil, app_nil_r by lia;
         repeat split; lia).
  - pose proof (moved_bounds n0 (size - len) (size - len) ltac:(lia) ltac:(lia)) as Hm.
    set (m := moved n0 (size - len) (size - len)) in *.
    rewrite (int32_id m) by (unfold INT_MAX; lia).
    rewrite (int32_id (len + m)) by (unfold INT_MAX; lia).
    intro E.
    destruct (IH (len + m) (sink ++ file_bytes pbuf len m) out ltac:(lia) E)
      as (r & n & rest' & Hout & Hn & Hr & Hb).
    exists r, (m + n), rest'.
    split; [rewrite Hout, file_bytes_app, app_assoc by lia; reflexivity|].
    split; [lia|]. split; [|intro F; apply Hb; inversion F; assumption].
    destruct Hr as [Hr|[Hr Hmin]]; [left; exact Hr|right; lia].
  - intro E; inversion E; subst out.
    exists len, 0, (Ready n0 :: rest). rewrite file_bytes_nil, app_nil_r by lia.
    repeat split; lia.
  - destruct ((e =? EINTR) || (e =? EAGAIN)) eqn:R.
    + intro E. destruct (IH len sink out Hlen E) as (r & n & rest' & Hout & Hn & Hr & Hb).
      exists r, n, rest'. repeat split; auto; try lia.
      intro F. inversion F. auto.
    + intro E. inversion E; subst out.
      exists (-100), 0, rest. rewrite file_bytes_nil, app_nil_r by lia.
      repeat split; try lia; auto.
      intro F. inversion F as [|? ? B]. exfalso. exact (retried_benign e R B).
  - intro E; inversion E; subst out.
    exists len, 0, (Errno e :: rest). rewrite file_bytes_nil, app_nil_r by lia.
    repeat split; lia.
Qed.

Lemma filefd_write_loop_returns (size : Z) (pbuf : list byte) :
  0 <= size <= INT_MAX ->
  forall (script : list reply) (len : Z) (sink : list byte),
    0 <= len <= size ->
    Forall benign script -> Forall productive script ->
    size - len <= answers script ->
    filefd_write_loop size script len pbuf sink <> None.
Proof.
  intros Hsize. unfold INT_MAX in Hsize.
  induction script as [|[n0|e] rest IH]; intros len sink Hlen Fb Fp Hans;
    cbn [filefd_write_loop answers] in *;
    destruct (Z.ltb_spec len size) as [Hlt|Hge]; try discriminate.
  - lia.
  - inversion Fb as [|? ? _ Fb']; inversion Fp as [|? ? P Fp']; subst. cbn in P.
    pose proof (moved_bounds n0 (size - len) (size - len) ltac:(lia) ltac:(lia)) as Hm.
    pose proof (moved_productive n0 (size - len) (size - len) P ltac:(lia) ltac:(lia))
      as Hm1.
    set (m := moved n0 (size - len) (size - len)) in *.
    rewrite (int32_id m) by (unfold INT_MAX; lia).
    rewrite (int32_id (len + m)) by (unfold INT_MAX; lia).
    apply IH; [lia|exact Fb'|exact Fp'|lia].
  - inversion Fb as [|? ? B Fb']; inversion Fp as [|? ? _ Fp']; subst.
    destruct ((e =? EINTR) || (e =? EAGAIN)) eqn:R; [|discriminate].
    apply IH; assumption.
Qed.

Lemma filefd_write_loop_stalled (size : Z) (pbuf : list byte) :
  forall (script : list reply) (len : Z) (sink : list byte),
    0 <= len < size -> len <= INT_MAX -> Forall stalled script ->
    filefd_write_loop size script len pbuf sink = None.
Proof.
  induction script as [|[n0|e] rest IH]; intros len sink Hlen Hmax F;
    cbn [filefd_write_loop];
    replace (len <? size) with true by (symmetry; apply Z.ltb_lt; lia).
  - reflexivity.
  - inversion F as [|? ? B F']; subst. cbn in B.
    rewrite (moved_stalled n0 _ _ B).
    change (int32 0) with 0. rewrite Z.add_0_r.
    rewrite (int32_id len) by lia.
    apply IH; assumption.
  - inversion F as [|? ? B F']; subst. cbn in B. rewrite (busy_retried e B).
    apply IH; assumption.
Qed.

(** X17: [filefd_write] with a valid descriptor, a buffer of at least
    [size] bytes and [0 <= size], against any sequence of replies of
    [write].  Whenever it returns, the value is either [size] with
    exactly the first [size] bytes of the buffer appended to the
    descriptor, or -100 with a prefix of them appended: it never
    reports a short count, and it is [size] when [write] fails only
    with [EINTR] or [EAGAIN].  It returns only if the kernel lets it:
    as long as [write] fails with [EINTR] or [EAGAIN] or takes 0 bytes
    the loop calls again, without any bound, so with [0 < size] it has
    not returned after any number of such replies.  When [write]
    fails only with [EINTR] or [EAGAIN], takes at least one byte
    whenever it succeeds, and has succeeded [size] times, the function
    has returned [size]. *)
Theorem filefd_write_all_or_error
  (fd : Z) (b sink : list byte) (size : Z) :
  0 <= fd -> 0 <= size <= INT_MAX -> size <= Z.of_nat (List.length b) ->
  (forall (script : list reply) (out : write_result),
     filefd_write fd (Some b) size sink script = Some out ->
     exists (r : Z) (n : nat) (rest : list reply),
       out = (r, sink ++ firstn n b, rest) /\
       Z.of_nat n <= size /\
       (r = -100 \/ (r = size /\ Z.of_nat n = size)) /\
       (Forall benign script -> r = size)) /\
  (0 < size ->
   forall script : list reply,
     Forall stalled script -> filefd_write fd (Some b) size sink script = None) /\
  (forall script : list reply,
     Forall benign script -> Forall productive script -> size <= answers script ->
     exists rest : list reply,
       filefd_write fd (Some b) size sink script
       = Some (size, sink ++ firstn (Z.to_nat size) b, rest)).
Proof.
  intros Hfd Hsize Hb.
  assert (Hrun : forall script,
             filefd_write fd (Some b) size sink script
             = filefd_write_loop size script 0 b sink).
  { intro script. unfold filefd_write.
    replace (fd <? 0) with false by (symmetry; apply Z.ltb_ge; exact Hfd).
    replace (size <? 0) with false by (symmetry; apply Z.ltb_ge; lia).
    reflexivity. }
  assert (Hsafe : forall (script : list reply) (out : write_result),
     filefd_write fd (Some b) size sink script = Some out ->
     exists (r : Z) (n : nat) (rest : list reply),
       out = (r, sink ++ firstn n b, rest) /\
       Z.of_nat n <= size /\
       (r = -100 \/ (r = size /\ Z.of_nat n = size)) /\
       (Forall benign script -> r = size)).
  { intros script out E. rewrite Hrun in E.
    destruct (filefd_write_loop_run size b Hsize script 0 sink out ltac:(lia) E)
      as (r & n & rest & Hout & Hn & Hr & Hben).
    exists r, (Z.to_nat n), rest. split; [exact Hout|].
    split; [lia|]. split; [|exact Hben].
    destruct Hr as [Hr|[Hr Hmin]]; [left; exact Hr|right; lia]. }
  split; [exact Hsafe|]. split.
  - intros Hpos script F. rewrite Hrun.
    apply filefd_write_loop_stalled; [lia|unfold INT_MAX; lia|exact F].
  - intros script Fb Fp Hans.
    destruct (filefd_write fd (Some b) size sink script) as [out|] eqn:E.
    + destruct (Hsafe script out E) as (r & n & rest & Hout & Hn & Hr & Hben).
      specialize (Hben Fb). destruct Hr as [Hr|[_ Hr]]; [exfalso; lia|].
      exists rest. subst out. rewrite Hben, <- Hr, Nat2Z.id. reflexivity.
    + exfalso. rewrite Hrun in E. revert E.
      apply filefd_write_loop_returns; try assumption; lia.
Qed.

(** ** filefd_copy *)

Lemma filefd_copy_loop_run (mx : Z) (file : list byte) :
  0 < mx -> Z.of_nat (List.length file) <= INT64_MAX ->
  forall (script : list reply) (offset length : Z) (act : option Z)
         (sink : list byte) (out : copy_result),
    0 <= offset -> 0 <= length ->
    offset + length <= Z.of_nat (List.length file) ->
    (forall a, act = Some a -> 0 <= a /\ a + length <= INT64_MAX) ->
    filefd_copy_loop mx file (Z.of_nat (List.length file)) script offset length
                     (Z.min length mx) act sink = Some out ->
    exists (r n : Z) (rest : list reply),
      out = (r, option_map (fun a => a + n) act,
             sink ++ file_bytes file offset n, rest) /\
      0 <= n <= length /\
      (r = -400 \/ r = -500 \/
       (r = 0 /\ n = length /\ offset + length = Z.of_nat (List.length file))) /\
      (Forall benign script -> r <> -400) /\
      (Forall productive script ->
       r = -400 \/
       (n = length /\
        r = if offset + length <? Z.of_nat (List.length file) then -500 else 0)).
Proof.
  intros Hmx Hfit. unfold INT64_MAX in *.
  assert (H64 : 2 ^ 64 = 2 * 2 ^ 63) by reflexivity.
  assert (H63 : 0 < 2 ^ 63) by reflexivity.
  assert (Hact0 : forall act : option Z, option_map (fun a => a + 0) act = act).
  { intros [a|]; cbn; [rewrite Z.add_0_r|]; reflexivity. }
  assert (Hstop : forall (script : list reply) (offset length : Z) (act : option Z)
                         (sink : list byte) (out : copy_result),
             0 <= offset -> 0 <= length ->
             offset + length <= Z.of_nat (List.length file) ->
             Z.of_nat (List.length file) <= offset ->
             Some (0, act, sink, script) = Some out ->
             exists (r n : Z) (rest : list reply),
               out = (r, option_map (fun a => a + n) act,
                      sink ++ file_bytes file offset n, rest) /\
               0 <= n <= length /\
               (r = -400 \/ r = -500 \/
                (r = 0 /\ n = length /\ offset + length = Z.of_nat (List.length file))) /\
               (Forall benign script -> r <> -400) /\
               (Forall productive script ->
                r = -400 \/
                (n = length /\
                 r = if offset + length <? Z.of_nat (List.length file)
                     then -500 else 0))).
  { intros script offset length act sink out Hoff Hlen Hend Hge E.
    inversion E; subst out.
    exists 0, 0, script. rewrite Hact0, file_bytes_nil, app_nil_r by lia.
    split; [reflexivity|]. split; [lia|]. split; [right; right; lia|].
    split; [discriminate|]. intros _. right. split; [lia|].
    destruct (Z.ltb_spec (offset + length) (Z.of_nat (List.length file)));
      [lia|reflexivity]. }
  induction script as [|[n0|e] rest IH]; intros offset length act sink out Hoff Hlen Hend Hact;
    cbn [filefd_copy_loop]; rewrite (uint64_id offset) by lia;
    destruct (Z.ltb_spec offset (Z.of_nat (List.length file))) as [Hlt|Hge];
    try (apply Hstop; lia).
  - discriminate.
  - pose proof (moved_bounds n0 (Z.min length mx)
                  (Z.max 0 (Z.of_nat (List.length file) - offset))
                  ltac:(lia) ltac:(lia)) as Hm.
    set (m := moved n0 (Z.min length mx)
                (Z.max 0 (Z.of_nat (List.length file) - offset))) in *.
    rewrite (int64_id m) by (unfold INT64_MAX; lia).
    destruct (Z.eqb_spec m 0) as [E0|Hne].
    + intro E. inversion E; subst out.
      exists (-500), 0, rest. rewrite Hact0, file_bytes_nil, app_nil_r by lia.
      split; [reflexivity|]. split; [lia|]. split; [right; left; reflexivity|].
      split; [discriminate|]. intro F. right.
      inversion F as [|? ? P _]; subst. cbn in P.
      assert (Hl0 : length = 0).
      { destruct (Z.eq_dec length 0) as [Z0|Z0]; [exact Z0|exfalso].
        pose proof (moved_productive n0 (Z.min length mx)
                      (Z.max 0 (Z.of_nat (List.length file) - offset))
                      P ltac:(lia) ltac:(lia)).
        fold m in H. lia. }
      split; [lia|].
      destruct (Z.ltb_spec (offset + length) (Z.of_nat (List.length file)));
        [reflexivity|lia].
    + rewrite (uint64_id (length - m)) by lia.
      rewrite (int64_id (offset + m)) by (unfold INT64_MAX; lia).
      intro E.
      destruct (IH (offset + m) (length - m)
                   (option_map (fun a => int64 (a + m)) act)
                   (sink ++ file_bytes file offset m) out)
        as (r & n & rest' & Hout & Hn & Hr & Hb & Hp); try lia.
      { intros a Ha. destruct act as [a0|]; [|discriminate Ha].
        cbn in Ha. inversion Ha; subst a.
        destruct (Hact a0 eq_refl) as (Ha0 & Ha1).
        rewrite int64_id by (unfold INT64_MAX; lia). lia. }
      { exact E. }
      exists r, (m + n), rest'.
      split.
      { rewrite Hout, file_bytes_app, app_assoc by lia.
        apply (f_equal2 pair); [|reflexivity].
        apply (f_equal2 pair); [|reflexivity].
        apply (f_equal2 pair); [reflexivity|].
        destruct act as [a0|]; [|reflexivity]. cbn.
        destruct (Hact a0 eq_refl) as (Ha0 & Ha1).
        rewrite int64_id by (unfold INT64_MAX; lia). apply f_equal. lia. }
      split; [lia|].
      split; [destruct Hr as [Hr|[Hr|Hr]];
              [left; exact Hr|right; left; exact Hr|right; right; lia]|].
      split; [intro F; apply Hb; inversion F; assumption|].
      intro F. inversion F as [|? ? _ F']; subst.
      destruct (Hp F') as [Hp'|[Hp1 Hp2]]; [left; exact Hp'|right]. split; [lia|].
      rewrite Hp2. replace (offset + m + (length - m)) with (offset + length) by lia.
      reflexivity.
  - destruct ((e =? EINTR) || (e =? EAGAIN)) eqn:R.
    + intro E.
      destruct (IH offset length act sink out Hoff Hlen Hend Hact E)
        as (r & n & rest' & Hout & Hn & Hr & Hb & Hp).
      exists r, n, rest'. repeat split; auto; try lia.
      * intro F. inversion F. auto.
      * intro F. inversion F. auto.
    + intro E. inversion E; subst out.
      exists (-400), 0, rest. rewrite Hact0, file_bytes_nil, app_nil_r by lia.
      split; [reflexivity|]. split; [lia|]. split; [left; reflexivity|].
      split; [|left; reflexivity].
      intro F. inversion F as [|? ? B]. exfalso. exact (retried_benign e R B).
Qed.

Lemma filefd_copy_loop_returns (mx : Z) (file : list byte) :
  0 < mx -> Z.of_nat (List.length file) <= INT64_MAX ->
  forall (script : list reply) (offset length : Z) (act : option Z) (sink : list byte),
    0 <= offset -> 0 <= length ->
    offset + length <= Z.of_nat (List.length file) ->
    Forall benign script -> Forall productive script ->
    length < answers script ->
    filefd_copy_loop mx file (Z.of_nat (List.length file)) script offset length
                     (Z.min length mx) act sink <> None.
Proof.
  intros Hmx Hfit. unfold INT64_MAX in *.
  assert (H64 : 2 ^ 64 = 2 * 2 ^ 63) by reflexivity.
  assert (H63 : 0 < 2 ^ 63) by reflexivity.
  induction script as [|[n0|e] rest IH];
    intros offset length act sink Hoff Hlen Hend Fb Fp Hans;
    cbn [filefd_copy_loop answers] in *; rewrite (uint64_id offset) by lia;
    destruct (Z.ltb_spec offset (Z.of_nat (List.length file))) as [Hlt|Hge];
    try discriminate.
  - lia.
  - inversion Fb as [|? ? _ Fb']; inversion Fp as [|? ? P Fp']; subst. cbn in P.
    pose proof (moved_bounds n0 (Z.min length mx)
                  (Z.max 0 (Z.of_nat (List.length file) - offset))
                  ltac:(lia) ltac:(lia)) as Hm.
    set (m := moved n0 (Z.min length mx)
                (Z.max 0 (Z.of_nat (List.length file) - offset))) in *.
    rewrite (int64_id m) by (unfold INT64_MAX; lia).
    destruct (Z.eqb_spec m 0) as [E0|Hne]; [discriminate|].
    rewrite (uint64_id (length - m)) by lia.
    rewrite (int64_id (offset + m)) by (unfold INT64_MAX; lia).
    apply IH; try assumption; lia.
  - inversion Fb as [|? ? B Fb']; inversion Fp as [|? ? _ Fp']; subst.
    destruct ((e =? EINTR) || (e =? EAGAIN)) eqn:R; [|discriminate].
    apply IH; assumption.
Qed.

Lemma filefd_copy_loop_busy (mx : Z) (file : list byte) (size : Z) :
  forall (script : list reply) (offset length toread : Z) (act : option Z)
         (sink : list byte),
    uint64 offset < size -> Forall busy script ->
    filefd_copy_loop mx file size script offset length toread act sink = None.
Proof.
  induction script as [|[n0|e] rest IH]; intros offset length toread act sink Hlt F;
    cbn [filefd_copy_loop];
    replace (uint64 offset <? size) with true by (symmetry; apply Z.ltb_lt; exact Hlt).
  - reflexivity.
  - inversion F as [|? ? B _]. destruct B.
  - inversion F as [|? ? B F']; subst. cbn in B. rewrite (busy_retried e B).
    apply IH; assumption.
Qed.

(** X18: [filefd_copy] with valid descriptors, a successful [fstat],
    a positive [SENDFILE_MAXSIZE], a start inside the file (a negative
    [offset] starts at 0) and a length in the range of [size_t],
    against any sequence of replies of [sendfile]; [n] is the
    requested length cut at the end of the file.  Whenever it
    returns, it has sent bytes of the file from the start on, in
    order, at most [n], and [*actnum] counts them; the value is -400,
    -500 or 0, and 0 only with all [n] sent and a range that reaches
    the end of the file; it is not -400 when [sendfile] fails only
    with [EINTR] or [EAGAIN].  It returns only if the kernel lets it:
    as long as [sendfile] fails with [EINTR] or [EAGAIN] the loop
    calls again, without any bound, so it has not returned after any
    number of such replies.  When [sendfile] fails only with [EINTR]
    or [EAGAIN], moves at least one byte whenever one is asked for
    inside the file, and has succeeded more than [n] times, the
    function has returned with all [n] bytes sent, and the value is 0
    only when the range reaches the end of the file: for a range that
    stops before the end the loop goes on to ask [sendfile] for 0
    bytes and reports -500 although the whole range has been
    copied. *)
Theorem filefd_copy_result
  (mx : Z) (file : list byte) (fdin offset length fdout : Z) (want_act : bool)
  (sink : list byte) :
  0 < mx -> 0 <= fdin -> 0 <= fdout ->
  Z.of_nat (List.length file) <= INT64_MAX ->
  - 2 ^ 63 <= offset -> Z.max 0 offset < Z.of_nat (List.length file) ->
  0 <= length < 2 ^ 64 ->
  let size := Z.of_nat (List.length file) in
  let start := Z.max 0 offset in
  let n := Z.min length (size - start) in
  (forall (script : list reply) (out : copy_result),
     filefd_copy mx file true fdin offset length fdout want_act sink script = Some out ->
     exists (r k : Z) (rest : list reply),
       out = (r, (if want_act then Some k else None),
              sink ++ file_bytes file start k, rest) /\
       0 <= k <= n /\
       (r = -400 \/ r = -500 \/ (r = 0 /\ k = n /\ size <= start + length)) /\
       (Forall benign script -> r <> -400) /\
       (Forall productive script ->
        r = -400 \/ (k = n /\ r = if start + length <? size then -500 else 0))) /\
  (forall script : list reply,
     Forall busy script ->
     filefd_copy mx file true fdin offset length fdout want_act sink script = None) /\
  (forall script : list reply,
     Forall benign script -> Forall productive script -> n < answers script ->
     exists rest : list reply,
       filefd_copy mx file true fdin offset length fdout want_act sink script
       = Some ((if start + length <? size then -500 else 0),
               (if want_act then Some n else None),
               sink ++ file_bytes file start n, rest)).
Proof.
  intros Hmx Hin Hout Hfit Hoff Hstart Hlen size start n.
  assert (H64 : 2 ^ 64 = 2 * 2 ^ 63) by reflexivity.
  assert (H63 : 0 < 2 ^ 63) by reflexivity.
  assert (Hrun : forall script,
             filefd_copy mx file true fdin offset length fdout want_act sink script
             = filefd_copy_loop mx file size script start n (Z.min n mx)
                                (if want_act then Some 0 else None) sink).
  { intro script. unfold filefd_copy.
    replace (fdin <? 0) with false by (symmetry; apply Z.ltb_ge; exact Hin).
    replace (fdout <? 0) with false by (symmetry; apply Z.ltb_ge; exact Hout).
    cbn [negb].
    replace (if offset <? 0 then 0 else offset) with start
      by (subst start; destruct (Z.ltb_spec offset 0); lia).
    fold size. unfold INT64_MAX in Hfit.
    rewrite (uint64_id size) by (subst size; lia).
    rewrite (uint64_id start) by (subst start size; lia).
    replace (start >=? size) with false
      by (symmetry; rewrite Z.geb_leb; apply Z.leb_gt; subst start size; lia).
    rewrite (uint64_id (size - start)) by (subst start size; lia).
    replace (if length >? size - start then size - start else length) with n
      by (subst n; destruct (Z.gtb_spec length (size - start)); lia).
    reflexivity. }
  assert (Hsafe : forall (script : list reply) (out : copy_result),
     filefd_copy mx file true fdin offset length fdout want_act sink script = Some out ->
     exists (r k : Z) (rest : list reply),
       out = (r, (if want_act then Some k else None),
              sink ++ file_bytes file start k, rest) /\
       0 <= k <= n /\
       (r = -400 \/ r = -500 \/ (r = 0 /\ k = n /\ size <= start + length)) /\
       (Forall benign script -> r <> -400) /\
       (Forall productive script ->
        r = -400 \/ (k = n /\ r = if start + length <? size then -500 else 0))).
  { intros script out E. rewrite Hrun in E.
    destruct (filefd_copy_loop_run mx file Hmx Hfit script start n
                (if want_act then Some 0 else None) sink out)
      as (r & k & rest & Hres & Hk & Hr & Hb & Hp);
      try (subst n start size; lia).
    { intros a Ha. unfold INT64_MAX in *. destruct want_act; inversion Ha.
      subst n start size. lia. }
    { exact E. }
    exists r, k, rest. split; [rewrite Hres; destruct want_act; reflexivity|].
    split; [exact Hk|].
    split; [destruct Hr as [Hr|[Hr|Hr]];
            [left; exact Hr|right; left; exact Hr|right; right; subst n size; lia]|].
    split; [exact Hb|].
    intro F. destruct (Hp F) as [Hp'|[Hp1 Hp2]]; [left; exact Hp'|right].
    split; [exact Hp1|]. rewrite Hp2. fold size.
    destruct (Z.ltb_spec (start + n) size), (Z.ltb_spec (start + length) size);
      try reflexivity; subst n start size; lia. }
  split; [exact Hsafe|]. split.
  - intros script F. rewrite Hrun. apply filefd_copy_loop_busy; [|exact F].
    unfold INT64_MAX in Hfit. rewrite uint64_id; subst start size; lia.
  - intros script Fb Fp Hans.
    destruct (filefd_copy mx file true fdin offset length fdout want_act sink script)
      as [out|] eqn:E.
    + destruct (Hsafe script out E) as (r & k & rest & Hres & Hk & Hr & Hb & Hp).
      specialize (Hb Fb). destruct (Hp Fp) as [Hp'|[Hp1 Hp2]]; [contradiction|].
      exists rest. subst out k r. reflexivity.
    + exfalso. rewrite Hrun in E. revert E.
      apply filefd_copy_loop_returns; try assumption; subst n start size; lia.
Qed.

(** ** filefd_writev *)















(** * The kernel that checks access

    What the code does on a kernel that makes the check of mmap(2):
    every request of [fbuf_mmap] is refused. *)

Lemma checked_kernel_refuses (mmap_ok : list syscall -> Z -> Z -> bool) :
  kernel_checks_access mmap_ok -> forall l len off, mmap_ok l len off = false.
Proof. intros H. apply H. reflexivity. Qed.

Lemma grant_none_checks_access : kernel_checks_access grant_none.
Proof. intros _ l len off. reflexivity. Qed.

Lemma preserves_unmapped_mmap (mmap_ok : list syscall -> Z -> Z -> bool) (pos : Z) :
  (forall l len off, mmap_ok l len off = false) ->
  preserves (fun s => pbyte (buf s) = NULL \/ pbyte (buf s) = MAP_FAILED)
            (fbuf_mmap mmap_ok H_FBUF pos).
Proof.
  intros Hno s r s' Hp H. rewrite fbuf_mmap_unfold in H.
  destruct (negb (in_file (buf s) pos)); [inversion H; subst; exact Hp|].
  destruct (in_window (buf s) pos); [inversion H; subst; exact Hp|].
  destruct (pagesize (buf s) =? 0); [discriminate|].
  inversion H; subst. right. unfold remapped; cbn [buf pbyte].
  unfold mmap_result. rewrite Hno. reflexivity.
Qed.

Lemma fbuf_mmap_unmapped (mmap_ok : list syscall -> Z -> Z -> bool)
      (s : machine) (pos r : Z) (s' : machine) :
  (forall l len off, mmap_ok l len off = false) ->
  pbyte (buf s) = NULL \/ pbyte (buf s) = MAP_FAILED ->
  fbuf_mmap mmap_ok H_FBUF pos s = Some (r, s') ->
  r < 0 \/ (r = 0 /\ s' = s).
Proof.
  intros Hno Hp H. rewrite fbuf_mmap_unfold in H.
  destruct (negb (in_file (buf s) pos)); [inversion H; subst; left; lia|].
  destruct (in_window (buf s) pos); [inversion H; subst; right; split; reflexivity|].
  destruct (pagesize (buf s) =? 0); [discriminate|].
  inversion H; subst. left. unfold mmap_result. rewrite Hno. cbn. lia.
Qed.

Lemma read_bytes_unmapped (file : list byte) (p : ptr) (n : nat) (k : Z)
      (s : machine) (bs : list Z) (s' : machine) :
  p = NULL \/ p = MAP_FAILED ->
  read_bytes file p k n s = Some (bs, s') -> bs = [] /\ n = O.
Proof.
  intros Hp H. destruct n as [|n].
  - cbn in H. inversion H. split; reflexivity.
  - cbn [read_bytes] in H. unfold bind in H.
    destruct Hp as [-> | ->]; cbn in H; discriminate.
Qed.

(** X22: on a kernel that checks access as mmap(2) does, no window is
    ever mapped.  In every state reached by opening a file and calling
    the accessors and scanners, [pbyte] is null or [MAP_FAILED] and
    the kernel holds no mapping; whenever [fbuf_at] returns, it
    returns -2; whenever [fbuf_read] returns, it has copied no byte
    and its count is not positive; whenever [fbuf_ptr] returns, the
    pointer is null or made from [MAP_FAILED].  No byte of the file is
    ever delivered. *)
Theorem checked_kernel_never_maps
  (file : list byte) (mmap_ok : list syscall -> Z -> Z -> bool)
  (sys_pagesize : Z) (s : machine) :
  kernel_checks_access mmap_ok ->
  reachable file mmap_ok sys_pagesize s ->
  (pbyte (buf s) = NULL \/ pbyte (buf s) = MAP_FAILED) /\
  live_maps (klog s) = [] /\
  (forall pos c s', fbuf_at file mmap_ok H_FBUF pos s = Some (c, s') -> c = -2) /\
  (forall pos len n bs s',
      fbuf_read file mmap_ok H_FBUF pos true len s = Some ((n, bs), s') ->
      n <= 0 /\ bs = []) /\
  (forall pos wb wl p vb vl s',
      fbuf_ptr mmap_ok H_FBUF pos wb wl s = Some ((p, vb, vl), s') ->
      p = NULL \/ p = MAP_FAILED).
Proof.
  intros Hcheck Hreach.
  pose proof (checked_kernel_refuses mmap_ok Hcheck) as Hno.
  assert (Hp : pbyte (buf s) = NULL \/ pbyte (buf s) = MAP_FAILED).
  { induction Hreach as [fd0 pc b Hb | s s' a Hreach IH Hstep].
    - left. unfold fbuf_init in Hb.
      destruct (fd0 <? 0); [discriminate|]. cbn [negb] in Hb.
      inversion Hb; subst. reflexivity.
    - unfold state_of in Hstep.
      destruct (perform file mmap_ok a s) as [[u s1]|] eqn:E; [|discriminate].
      cbn in Hstep; inversion Hstep; subst s1.
      exact (preserves_perform file mmap_ok _
               (fun pos => preserves_unmapped_mmap mmap_ok pos Hno) a s u s' IH E). }
  split; [exact Hp|]. split; [|split; [|split]].
  - destruct (reachable_holds_one file mmap_ok sys_pagesize s Hreach) as (Hm & _).
    rewrite Hm. unfold held_mapping. destruct Hp as [-> | ->]; reflexivity.
  - intros pos c s' H. unfold fbuf_at, bind in H.
    destruct (fbuf_mmap mmap_ok H_FBUF pos s) as [[r s1]|] eqn:E; [|discriminate].
    destruct (fbuf_mmap_unmapped mmap_ok s pos r s1 Hno Hp E) as [Hr|(Hr & Hs)].
    + replace (r <? 0) with true in H by (symmetry; apply Z.ltb_lt; exact Hr).
      inversion H. reflexivity.
    + subst r s1. cbn [Z.ltb Z.compare get_buf] in H.
      destruct Hp as [Hq|Hq]; rewrite Hq in H; discriminate H.
  - intros pos len n bs s' H. unfold fbuf_read in H. cbn [negb orb] in H.
    destruct (len <=? 0); [inversion H; split; [lia|reflexivity]|].
    unfold bind at 1 in H.
    destruct (fbuf_mmap mmap_ok H_FBUF pos s) as [[r s1]|] eqn:E; [|discriminate].
    destruct (fbuf_mmap_unmapped mmap_ok s pos r s1 Hno Hp E) as [Hr|(Hr & Hs)].
    + replace (r <? 0) with true in H by (symmetry; apply Z.ltb_lt; exact Hr).
      inversion H. split; [lia|reflexivity].
    + subst r s1. cbn [Z.ltb Z.compare] in H. unfold bind at 1 in H. cbn [get_buf] in H.
      unfold bind at 1 in H.
      match type of H with
      | context [if ?c then fault else ret tt] => destruct c; [discriminate|]
      end.
      cbn [ret] in H. unfold bind in H.
      match type of H with
      | context [read_bytes file ?p ?k ?m s] =>
          destruct (read_bytes file p k m s) as [[bs1 s2]|] eqn:R; [|discriminate]
      end.
      destruct (read_bytes_unmapped file _ _ _ _ _ _ Hp R) as (Hbs & Hn).
      cbn [ret] in H. inversion H; subst. split; [lia|reflexivity].
  - intros pos wb wl p vb vl s' H. unfold fbuf_ptr, bind in H.
    destruct (fbuf_mmap mmap_ok H_FBUF pos s) as [[r s1]|] eqn:E; [|discriminate].
    destruct (fbuf_mmap_unmapped mmap_ok s pos r s1 Hno Hp E) as [Hr|(Hr & Hs)].
    + replace (r <? 0) with true in H by (symmetry; apply Z.ltb_lt; exact Hr).
      inversion H. left; reflexivity.
    + subst r s1. cbn [Z.ltb Z.compare get_buf ret] in H. inversion H; subst.
      destruct Hp as [Hq|Hq]; rewrite Hq; [left|right]; reflexivity.
Qed.

(** ** A scan whose first read is refused *)

Section FirstReadRefused.

Variable file : list byte.
Variable mmap_ok : list syscall -> Z -> Z -> bool.
Variables s s1 : machine.
Variable pos : Z.

Hypothesis at_refused : fbuf_at file mmap_ok H_FBUF pos s = Some (-2, s1).
Hypothesis pos_long : - 2 ^ 63 <= pos <= INT64_MAX.

Lemma at_refused_forward :
  fbuf_at file mmap_ok H_FBUF (int64 (pos + 0)) s = Some (-2, s1).
Proof. rewrite Z.add_0_r, int64_id by exact pos_long. exact at_refused. Qed.

Lemma at_refused_backward :
  fbuf_at file mmap_ok H_FBUF (int64 (pos - 0)) s = Some (-2, s1).
Proof. rewrite Z.sub_0_r, int64_id by exact pos_long. exact at_refused. Qed.

Lemma forward_start : int64 (pos + 0) = pos.
Proof. rewrite Z.add_0_r. apply int64_id. exact pos_long. Qed.

Lemma backward_start : int64 (pos - 0) = pos.
Proof. rewrite Z.sub_0_r. apply int64_id. exact pos_long. Qed.

Lemma skip_to_loop_refused (span : Z) (pat : list byte) (patlen : Z) :
  0 < span ->
  skip_to_loop file mmap_ok (Z.to_nat span) pos span pat patlen 0 s = Some (pos, s1).
Proof.
  intro Hspan. destruct (Z.to_nat span) eqn:E; [lia|]. cbn [skip_to_loop].
  replace (0 <? span) with true by (symmetry; apply Z.ltb_lt; exact Hspan).
  unfold bind, ret. rewrite at_refused_forward, forward_start. reflexivity.
Qed.

Lemma skip_over_loop_refused (span : Z) (pat : list byte) (patlen : Z) :
  0 < span ->
  skip_over_loop file mmap_ok (Z.to_nat span) pos span pat patlen 0 s = Some (pos, s1).
Proof.
  intro Hspan. destruct (Z.to_nat span) eqn:E; [lia|]. cbn [skip_over_loop].
  replace (0 <? span) with true by (symmetry; apply Z.ltb_lt; exact Hspan).
  unfold bind, ret. rewrite at_refused_forward, forward_start. reflexivity.
Qed.

Lemma skip_quote_to_loop_refused (span : Z) (pat : list byte) (patlen : Z) :
  0 < span ->
  skip_quote_to_loop file mmap_ok (Z.to_nat span) pos span pat patlen 0 s = Some (pos, s1).
Proof.
  intro Hspan. destruct (Z.to_nat span) eqn:E; [lia|]. cbn [skip_quote_to_loop].
  replace (0 <? span) with true by (symmetry; apply Z.ltb_lt; exact Hspan).
  unfold bind, ret. rewrite at_refused_forward, forward_start. reflexivity.
Qed.

Lemma skip_esc_to_loop_refused (span : Z) (pat : list byte) (patlen : Z) :
  0 < span ->
  skip_esc_to_loop file mmap_ok (Z.to_nat span) pos span pat patlen 0 s = Some (pos, s1).
Proof.
  intro Hspan. destruct (Z.to_nat span) eqn:E; [lia|]. cbn [skip_esc_to_loop].
  replace (0 <? span) with true by (symmetry; apply Z.ltb_lt; exact Hspan).
  unfold bind, ret. rewrite at_refused_forward, forward_start. reflexivity.
Qed.

Lemma rskip_to_loop_refused (skiplimit : Z) (pat : list byte) (patlen : Z) :
  0 <= pos -> skiplimit <> 0 ->
  rskip_to_loop file mmap_ok (Z.to_nat (pos + 1)) pos skiplimit pat patlen 0 s
  = Some (pos, s1).
Proof.
  intros Hpos Hlim. destruct (Z.to_nat (pos + 1)) eqn:E; [lia|]. cbn [rskip_to_loop].
  replace (0 <=? pos) with true by (symmetry; apply Z.leb_le; exact Hpos).
  replace ((skiplimit >=? 0) && (0 >=? skiplimit)) with false
    by (symmetry; apply andb_false_iff; rewrite !Z.geb_leb;
        destruct (Z.leb_spec 0 skiplimit); [right; apply Z.leb_gt; lia|left; reflexivity]).
  unfold bind, ret. rewrite at_refused_backward, backward_start. reflexivity.
Qed.

Lemma rskip_over_loop_refused (skiplimit : Z) (pat : list byte) (patlen : Z) :
  0 <= pos -> skiplimit <> 0 ->
  rskip_over_loop file mmap_ok (Z.to_nat (pos + 1)) pos skiplimit pat patlen 0 s
  = Some (pos, s1).
Proof.
  intros Hpos Hlim. destruct (Z.to_nat (pos + 1)) eqn:E; [lia|]. cbn [rskip_over_loop].
  replace (0 <=? pos) with true by (symmetry; apply Z.leb_le; exact Hpos).
  replace ((skiplimit >=? 0) && (0 >=? skiplimit)) with false
    by (symmetry; apply andb_false_iff; rewrite !Z.geb_leb;
        destruct (Z.leb_spec 0 skiplimit); [right; apply Z.leb_gt; lia|left; reflexivity]).
  unfold bind, ret. rewrite at_refused_backward, backward_start. reflexivity.
Qed.

End FirstReadRefused.

(** X23: a scan whose first window is refused sees nothing.  On a
    live buffer, for a start inside the file and outside the window,
    a delimiter set that is not empty and a limit other than 0, when
    the kernel refuses the window for the start, each of the six
    scanners returns the start as its result, whatever bytes the file
    holds, and [fbuf_quotedstrlen] returns 0, whatever the byte at the
    start; [pbyte] is left as [MAP_FAILED].  ([fbuf_rskip_over] reads
    nothing for a start at 0.) *)
Theorem scanners_blind_when_refused
  (file : list byte) (mmap_ok : list syscall -> Z -> Z -> bool)
  (s : machine) (pos skiplimit : Z) (pat : list byte) (patlen : Z) :
  Z.of_nat (length file) <= INT64_MAX ->
  live file s ->
  0 <= pos < fsize (buf s) ->
  ~ (mapoff (buf s) <= pos < mapoff (buf s) + maplen (buf s)) ->
  granted mmap_ok s pos = false ->
  0 < patlen -> skiplimit <> 0 ->
  let s' := remapped mmap_ok s pos in
  pbyte (buf s') = MAP_FAILED /\
  fbuf_skip_to file mmap_ok H_FBUF pos skiplimit (Some pat) patlen s = Some (pos, s') /\
  fbuf_skip_over file mmap_ok H_FBUF pos skiplimit (Some pat) patlen s = Some (pos, s') /\
  fbuf_skip_quote_to file mmap_ok H_FBUF pos skiplimit (Some pat) patlen s
  = Some (pos, s') /\
  fbuf_skip_esc_to file mmap_ok H_FBUF pos skiplimit (Some pat) patlen s = Some (pos, s') /\
  fbuf_rskip_to file mmap_ok H_FBUF pos skiplimit (Some pat) patlen s = Some (pos, s') /\
  (0 < pos ->
   fbuf_rskip_over file mmap_ok H_FBUF pos skiplimit (Some pat) patlen s
   = Some (pos, s')) /\
  fbuf_quotedstrlen file mmap_ok H_FBUF pos skiplimit s = Some (0, s').
Proof.
  intros Hfit Hlive Hpos Hout Hno Hpat Hlim s'.
  pose proof (live_fsize file s Hlive) as Hsz.
  destruct (fbuf_mmap_denied file mmap_ok Hfit s pos Hlive Hpos Hout Hno)
    as (Hm & Hp' & _).
  fold s' in Hm, Hp'.
  assert (Hat : fbuf_at file mmap_ok H_FBUF pos s = Some (-2, s')).
  { unfold fbuf_at, bind. rewrite Hm. reflexivity. }
  assert (Hlong : - 2 ^ 63 <= pos <= INT64_MAX) by (unfold INT64_MAX in *; lia).
  destruct (scan_span_bound file Hfit s pos skiplimit Hlive ltac:(lia)) as (Hsp & _).
  assert (Hspan : 0 < scan_span (buf s) pos skiplimit).
  { rewrite Hsp. unfold scan_bound. destruct (Z.ltb_spec skiplimit 0); lia. }
  assert (Hnp : (patlen <=? 0) = false) by (apply Z.leb_gt; exact Hpat).
  assert (Hbelow : (pos >=? fsize (buf s)) = false)
    by (rewrite Z.geb_leb; apply Z.leb_gt; lia).
  split; [exact Hp'|].
  split; [unfold fbuf_skip_to; rewrite Hnp; unfold bind, get_buf;
          apply (skip_to_loop_refused file mmap_ok s s' pos Hat Hlong); exact Hspan|].
  split; [unfold fbuf_skip_over; rewrite Hnp; unfold bind, get_buf;
          apply (skip_over_loop_refused file mmap_ok s s' pos Hat Hlong); exact Hspan|].
  split; [unfold fbuf_skip_quote_to; rewrite Hnp; unfold bind, get_buf;
          apply (skip_quote_to_loop_refused file mmap_ok s s' pos Hat Hlong); exact Hspan|].
  split; [unfold fbuf_skip_esc_to; rewrite Hnp; unfold bind, get_buf;
          apply (skip_esc_to_loop_refused file mmap_ok s s' pos Hat Hlong); exact Hspan|].
  split; [|split].
  - unfold fbuf_rskip_to. rewrite Hnp.
    replace (pos <? 0) with false by (symmetry; apply Z.ltb_ge; lia).
    unfold bind, get_buf. rewrite Hbelow.
    apply (rskip_to_loop_refused file mmap_ok s s' pos Hat Hlong); [lia|exact Hlim].
  - intro Hpos0. unfold fbuf_rskip_over. rewrite Hnp.
    replace (pos <=? 0) with false by (symmetry; apply Z.leb_gt; lia).
    unfold bind, get_buf. rewrite Hbelow.
    apply (rskip_over_loop_refused file mmap_ok s s' pos Hat Hlong); [lia|exact Hlim].
  - unfold fbuf_quotedstrlen. unfold bind at 1. cbn [get_buf]. rewrite Hbelow.
    unfold bind. rewrite Hat. reflexivity.
Qed.

(** ** The further theorems at work on the samples *)

Lemma fresh_empty_reachable : reachable [] grant_all 4096 fresh_empty.
Proof. exact (reach_open [] grant_all 4096 3 8 (buf fresh_empty) eq_refl). Defined.

Lemma at_most_one_live_mapping_witness :
  live_maps (klog windowed_abcd) = held_mapping (buf windowed_abcd) /\
  (length (live_maps (klog windowed_abcd)) <= 1)%nat.
Proof.
  exact (at_most_one_live_mapping file_abcd grant_all 4096 windowed_abcd
           windowed_abcd_reachable).
Defined.

Lemma fbuf_free_releases_witness :
  exists s',
    fbuf_free H_FBUF windowed_abcd = Some (Some 3, s') /\
    live_maps (klog s') = [] /\ fd (buf s') = -1.
Proof.
  destruct (proj1 (fbuf_free_releases file_abcd grant_all 4096 windowed_abcd
                     windowed_abcd_reachable)) as (s' & Hrun & _ & Hmaps & Hfd).
  exists s'. split; [exact Hrun|]. split; [exact Hmaps | exact Hfd].
Defined.

Lemma accesses_keep_geometry_witness :
  fsize (buf windowed_abcd) = fsize (buf (fresh file_abcd)) /\
  mapsize (buf windowed_abcd) = mapsize (buf (fresh file_abcd)) /\
  exists newer, klog windowed_abcd = newer ++ klog (fresh file_abcd).
Proof.
  destruct (accesses_keep_geometry file_abcd grant_all (Acc_at 0) (fresh file_abcd)
              windowed_abcd eq_refl) as (_ & Hsize & _ & _ & Hmap & Hlog).
  split; [exact Hsize|]. split; [exact Hmap | exact Hlog].
Defined.

Lemma empty_file_never_maps_witness :
  klog fresh_empty = [] /\ pbyte (buf fresh_empty) = NULL /\
  fbuf_at [] grant_all H_FBUF 0 fresh_empty = Some (-2, fresh_empty).
Proof.
  destruct (proj2 (empty_file_never_maps grant_all 4096) fresh_empty fresh_empty_reachable)
    as (Hlog & Hp & Hat).
  split; [exact Hlog|]. split; [exact Hp | exact (Hat 0)].
Defined.

Lemma accessors_reject_outside_file_witness :
  fbuf_at file_abcd grant_all H_FBUF 9 (fresh file_abcd) = Some (-2, fresh file_abcd) /\
  fbuf_read file_abcd grant_all H_FBUF 9 true 2 (fresh file_abcd)
  = Some ((-2, []), fresh file_abcd).
Proof.
  assert (Hout : ~ (0 <= 9 < fsize (buf (fresh file_abcd)))).
  { intros [_ H]. vm_compute in H. discriminate H. }
  destruct (accessors_reject_outside_file file_abcd grant_all (fresh file_abcd) 9 Hout)
    as (Hat & _ & Hread).
  split; [exact Hat|]. apply Hread. reflexivity.
Defined.

Lemma forward_scans_outside_file_witness :
  fbuf_skip_to file_abcd grant_all H_FBUF 9 (-1) (Some comma) 1 (fresh file_abcd)
  = Some (9, fresh file_abcd) /\
  fbuf_skip_over file_abcd grant_all H_FBUF 9 (-1) (Some comma) 1 (fresh file_abcd)
  = Some (9, fresh file_abcd).
Proof.
  assert (Hout : ~ (0 <= 9 < fsize (buf (fresh file_abcd)))).
  { intros [_ H]. vm_compute in H. discriminate H. }
  destruct (forward_scans_outside_file file_abcd grant_all (fresh file_abcd) 9 (-1)
              (Some comma) 1 Hout ltac:(by_computation)) as (H1 & H2 & _).
  split; [exact H1 | exact H2].
Defined.

Lemma path_mixed_len : path_len path_mixed (-1) 5.
Proof. right. by_computation. Defined.

Lemma WinPath2UnixPath_effect_witness :
  WinPath2UnixPath (Some path_mixed) (-1)
  = Some (5, Some (with_separators ch_backslash byte_slash (Z.to_nat 5) path_mixed)).
Proof.
  exact (proj1 (proj2 (proj2 (WinPath2UnixPath_effect path_mixed (-1) 5))
                  path_mixed_len ltac:(by_computation) ltac:(by_computation))).
Defined.

(** *** With a kernel that refuses every mapping, as the kernel does
    for the descriptor [fbuf_init] opens *)

Lemma fresh_abcd_opened : reachable file_abcd grant_none 4096 (fresh file_abcd).
Proof.
  exact (reach_open file_abcd grant_none 4096 3 8 (buf (fresh file_abcd)) eq_refl).
Defined.

Lemma refused_abcd_reachable : reachable file_abcd grant_none 4096 refused_abcd.
Proof.
  exact (reach_access file_abcd grant_none 4096 (fresh file_abcd) refused_abcd
           (Acc_at 3) fresh_abcd_opened eq_refl).
Defined.

Lemma fresh_abcd_no_window (pos : Z) :
  ~ (mapoff (buf (fresh file_abcd)) <= pos
     < mapoff (buf (fresh file_abcd)) + maplen (buf (fresh file_abcd))).
Proof. cbn. lia. Defined.

Lemma fbuf_at_byte_or_refused_witness :
  fbuf_at file_abcd grant_none H_FBUF 3 (fresh file_abcd)
  = Some (-2, remapped grant_none (fresh file_abcd) 3) /\
  pbyte (buf (remapped grant_none (fresh file_abcd) 3)) = MAP_FAILED /\
  fbuf_at file_abcd grant_none H_FBUF 3 (remapped grant_none (fresh file_abcd) 3) = None.
Proof.
  exact (proj2 (fbuf_at_byte_or_refused file_abcd grant_none (fresh file_abcd) 3
                  abcd_fits fresh_abcd_live ltac:(by_computation))
           (fresh_abcd_no_window 3) eq_refl).
Defined.

Lemma fbuf_ptr_view_or_refused_witness :
  fbuf_ptr grant_none H_FBUF 3 true true (fresh file_abcd)
  = Some ((NULL, None, None), remapped grant_none (fresh file_abcd) 3) /\
  pbyte (buf (remapped grant_none (fresh file_abcd) 3)) = MAP_FAILED.
Proof.
  destruct (proj2 (fbuf_ptr_view_or_refused file_abcd grant_none (fresh file_abcd) 3
                     true true abcd_fits fresh_abcd_live ltac:(by_computation))
              (fresh_abcd_no_window 3) eq_refl) as (Hrun & Hp & _).
  split; [exact Hrun | exact Hp].
Defined.

Lemma fbuf_read_continues_or_refused_witness :
  fbuf_read file_abcd grant_none H_FBUF 3 true 10 (fresh file_abcd)
  = Some ((-2, []), remapped grant_none (fresh file_abcd) 3) /\
  pbyte (buf (remapped grant_none (fresh file_abcd) 3)) = MAP_FAILED /\
  fbuf_read file_abcd grant_none H_FBUF 3 true 10
            (remapped grant_none (fresh file_abcd) 3) = None.
Proof.
  exact (proj1 (proj2 (fbuf_read_continues_or_refused file_abcd grant_none
                         (fresh file_abcd) 3 10 1 abcd_fits fresh_abcd_live
                         ltac:(by_computation) ltac:(by_computation)
                         ltac:(by_computation)))
           (fresh_abcd_no_window 3) eq_refl).
Defined.








Lemma checked_kernel_never_maps_witness :
  (pbyte (buf refused_abcd) = NULL \/ pbyte (buf refused_abcd) = MAP_FAILED) /\
  live_maps (klog refused_abcd) = [].
Proof.
  destruct (checked_kernel_never_maps file_abcd grant_none 4096 refused_abcd
              grant_none_checks_access refused_abcd_reachable) as (Hp & Hmaps & _).
  split; [exact Hp | exact Hmaps].
Defined.

Lemma scanners_blind_when_refused_witness :
  fbuf_skip_to file_abcd grant_none H_FBUF 0 (-1) (Some comma) 1 (fresh file_abcd)
  = Some (0, remapped grant_none (fresh file_abcd) 0) /\
  fbuf_quotedstrlen file_abcd grant_none H_FBUF 0 (-1) (fresh file_abcd)
  = Some (0, remapped grant_none (fresh file_abcd) 0).
Proof.
  destruct (scanners_blind_when_refused file_abcd grant_none (fresh file_abcd)
              0 (-1) comma 1 abcd_fits fresh_abcd_live ltac:(by_computation)
              (fresh_abcd_no_window 0) eq_refl ltac:(by_computation)
              ltac:(discriminate))
    as (_ & Hto & _ & _ & _ & _ & _ & Hq).
  split; [exact Hto | exact Hq].
Defined.

(** *** Paths, file_mmap and descriptors *)

Lemma separators_round_trip_witness :
  WinPath2UnixPath (Some path_mixed) (-1)
  = Some (5, Some (with_separators ch_backslash byte_slash (Z.to_nat 5) path_mixed)) /\
  UnixPath2WinPath (Some path_mixed) (-1)
  = Some (5, Some (with_separators ch_slash byte_backslash (Z.to_nat 5) path_mixed)).
Proof.
  destruct (separators_round_trip path_mixed (-1) 5 path_mixed_len
              ltac:(by_computation) ltac:(by_computation))
    as (H1 & H2 & _).
  split; [exact H1 | exact H2].
Defined.

Lemma file_mmap_window_witness :
  file_mmap (2 ^ 12) (Some (Z.of_nat (length file_abcd))) (fun _ _ => true) 3 3 10
            true true true
  = (Mapping 0 5 3, Some (Mapping 0 5 0), Some 5, Some 0).
Proof.
  destruct (file_mmap_window file_abcd 12 (fun _ _ => true) 3 3 10 true true true
              ltac:(by_computation) ltac:(discriminate) abcd_fits
              ltac:(by_computation) ltac:(by_computation))
    as (_ & Hok & _).
  exact (proj1 (proj2 (proj2 (Hok eq_refl)))).
Defined.

Lemma script_pieces_benign : Forall benign script_pieces.
Proof.
  unfold script_pieces.
  repeat (apply Forall_cons; [first [exact I | left; reflexivity | right; reflexivity]|]).
  apply Forall_nil.
Defined.

Lemma script_pieces_productive : Forall productive script_pieces.
Proof.
  unfold script_pieces.
  repeat (apply Forall_cons; [first [exact I | cbn; lia]|]).
  apply Forall_nil.
Defined.



Lemma filefd_read_fills_buffer_witness :
  exists rest,
    filefd_read 3 (Some buf_zero4) 3 file_abcd script_pieces
    = Some (Z.min 3 (Z.of_nat (length file_abcd)),
            Some (firstn (Z.to_nat (Z.min 3 (Z.of_nat (length file_abcd)))) file_abcd
                  ++ skipn (Z.to_nat (Z.min 3 (Z.of_nat (length file_abcd)))) buf_zero4),
            skipn (Z.to_nat (Z.min 3 (Z.of_nat (length file_abcd)))) file_abcd, rest).
Proof.
  exact (proj2 (proj2 (filefd_read_fills_buffer 3 buf_zero4 file_abcd 3
                         ltac:(by_computation) ltac:(by_computation)
                         ltac:(by_computation)))
           script_pieces script_pieces_benign script_pieces_productive
           ltac:(by_computation)).
Defined.

Lemma filefd_write_all_or_error_witness :
  exists rest,
    filefd_write 3 (Some file_abcd) 2 [] script_pieces
    = Some (2, [] ++ firstn (Z.to_nat 2) file_abcd, rest).
Proof.
  exact (proj2 (proj2 (filefd_write_all_or_error 3 file_abcd [] 2
                         ltac:(by_computation) ltac:(by_computation)
                         ltac:(by_computation)))
           script_pieces script_pieces_benign script_pieces_productive
           ltac:(by_computation)).
Defined.

Lemma filefd_copy_result_witness :
  exists rest,
    filefd_copy 4096 file_abcd true 3 1 2 4 true [] script_pieces
    = Some ((if Z.max 0 1 + 2 <? Z.of_nat (length file_abcd) then -500 else 0),
            Some (Z.min 2 (Z.of_nat (length file_abcd) - Z.max 0 1)),
            [] ++ file_bytes file_abcd (Z.max 0 1)
                     (Z.min 2 (Z.of_nat (length file_abcd) - Z.max 0 1)), rest).
Proof.
  exact (proj2 (proj2 (filefd_copy_result 4096 file_abcd 3 1 2 4 true []
                         ltac:(by_computation) ltac:(by_computation)
                         ltac:(by_computation) abcd_fits ltac:(by_computation)
                         ltac:(by_computation) ltac:(by_computation)))
           script_pieces script_pieces_benign script_pieces_productive
           ltac:(by_computation)).
Defined.


(** *** The quote scanners *)





